(** * vdsm executor: a shallow embedding of [lib/vdsm/executor.py]

    The module implements a bounded pool of worker threads fed by a bounded
    FIFO queue.  A worker that is still busy when the timer of its task
    fires is discarded and the pool is replenished.

    The embedding follows the Python classes one by one: [TaskQueue],
    [Executor] and [_Worker].  Python objects live in an explicit store,
    methods are state transformers that end in a value, a raised exception,
    or a blocked thread, and every effect on a collaborator outside the
    module (logger, thread library, scheduler, the dispatched callable) is
    appended to a trace. *)

From stdpp Require Import base gmap sets list strings pretty.
From Stdlib Require Import ZArith Lia.

Local Open Scope string_scope.
Local Open Scope list_scope.
Local Open Scope Z_scope.

(** ** Exceptions *)

(** The three exception classes of the module, the private
    [_WorkerDiscarded], and the built-in ones that can reach its handlers.
    [UserError] stands for any exception class of a dispatched callable
    that derives from [Exception]. *)
Inductive PyExc : Type :=
  | NotRunning
  | AlreadyStarted
  | TooManyTasks
  | _WorkerDiscarded
  | AssertionError (msg : string)
  | KeyError
  | UserError (msg : string)
  | SystemExit
  | KeyboardInterrupt
  | GeneratorExit.

(** [isinstance(e, Exception)]: the built-in hierarchy puts [SystemExit],
    [KeyboardInterrupt] and [GeneratorExit] directly under [BaseException]. *)
Definition is_Exception (e : PyExc) : bool :=
  match e with
  | SystemExit | KeyboardInterrupt | GeneratorExit => false
  | _ => true
  end.

(** ** Tasks *)

(** What a call of a dispatched callable does to the calling thread. *)
Inductive Outcome : Type :=
  | Returns
  | Raises (e : PyExc).

(** A callable is known by a label and by the way its call ends. *)
Record Callable : Type := mkCallable {
  label : string;
  call : Outcome
}.

(** [Task = collections.namedtuple("Task", "callable, timeout")]; the
    timeout is [None] or a delay. *)
Record Task : Type := mkTask {
  callable : Callable;
  timeout : option Z
}.

(** What the queue holds: a [Task], or the module-level sentinel [_STOP]. *)
Inductive Item : Type :=
  | ATask (t : Task)
  | _STOP.

(** ** Results of a method call *)

Inductive result (A : Type) : Type :=
  | Ok (a : A)
  | Raise (e : PyExc)
  | Blocked.

Arguments Ok {A} a.
Arguments Raise {A} e.
Arguments Blocked {A}.

(** ** TaskQueue *)

Module TaskQueue.

Record t : Type := mk {
  _max_tasks : Z;
  _tasks : list Item
}.

(** [TaskQueue.__init__] *)
Definition __init__ (max_tasks : Z) : t :=
  {| _max_tasks := max_tasks; _tasks := [] |}.

(** [len(self._tasks)] as a Python integer. *)
Definition len (q : t) : Z := Z.of_nat (length (_tasks q)).

(** [TaskQueue.put]: raises when the length equals the capacity, appends
    on the right otherwise.  [self._cond.notify()] wakes a thread waiting in
    [get]; it does not touch the content. *)
Definition put (task : Item) (q : t) : result unit * t :=
  if len q =? _max_tasks q
  then (Raise TooManyTasks, q)
  else (Ok tt, {| _max_tasks := _max_tasks q; _tasks := _tasks q ++ [task] |}).

(** [TaskQueue.get]: [popleft]; on an empty deque the caller waits on the
    condition, which is the [Blocked] result. *)
Definition get (q : t) : result Item * t :=
  match _tasks q with
  | [] => (Blocked, q)
  | x :: rest => (Ok x, {| _max_tasks := _max_tasks q; _tasks := rest |})
  end.

(** [TaskQueue.clear] *)
Definition clear (q : t) : t :=
  {| _max_tasks := _max_tasks q; _tasks := [] |}.

End TaskQueue.

(** ** The store *)

(** A [_Worker] object.  [_executor] and [_scheduler] are the same for all
    workers of a pool and are not stored; [_thread] is represented by the
    name it was created with. *)
Record _Worker : Type := mkWorker {
  _thread_name : string;
  _discarded : bool;
  _task : option Task
}.

(** The scheduler is a collaborator outside the module, reached through
    [schedule(delay, callback)] and [handle.cancel()].  All the module can
    observe of it is whether the callback armed with [delay] around a call
    of [c] runs before the worker tests its flag at the end of that
    iteration. *)
Record Scheduler : Type := mkScheduler {
  fires : Z -> Callable -> bool
}.

(** The fields of [Executor]. [_workers] holds references to worker
    objects.  [_lock] is implicit: a method body under [with self._lock]
    runs as one state transformer. *)
Record Executor : Type := mkExecutor {
  _name : string;
  _workers_count : Z;
  _worker_id : Z;
  _tasks : TaskQueue.t;
  _scheduler : Scheduler;
  _workers : gset nat;
  _running : bool
}.

(** Effects on collaborators outside the module. *)
Inductive Event : Type :=
  | Log_debug (msg : string)
  | Log_exception (msg : string) (t : Task)
  | Thread_start (name : string)
  | Thread_join (w : nat)
  | Pthread_setname (name : string)
  | Called (c : Callable)
  | Scheduled (delay : Z) (w : nat)
  | Cancelled (w : nat)
  | Scheduler_got (e : PyExc).

(** One pool: the executor, every worker object constructed so far (a
    reference is an index into [objects]) and the trace of effects. *)
Record World : Type := mkWorld {
  executor : Executor;
  objects : list _Worker;
  trace : list Event
}.

(** ** The method monad *)

Definition M (A : Type) : Type := World -> result A * World.

Global Instance M_ret : MRet M := fun A (a : A) σ => (Ok a, σ).

Global Instance M_bind : MBind M := fun A B (k : A -> M B) (m : M A) σ =>
  match m σ with
  | (Ok a, σ') => k a σ'
  | (Raise e, σ') => (Raise e, σ')
  | (Blocked, σ') => (Blocked, σ')
  end.

Definition raise {A} (e : PyExc) : M A := fun σ => (Raise e, σ).

Definition emit (ev : Event) : M unit :=
  fun σ => (Ok tt, {| executor := executor σ; objects := objects σ;
                      trace := trace σ ++ [ev] |}).

Definition self : M Executor := fun σ => (Ok (executor σ), σ).

Definition set_executor (e : Executor) : M unit :=
  fun σ => (Ok tt, {| executor := e; objects := objects σ; trace := trace σ |}).

(** Run a [TaskQueue] method on [self._tasks]. *)
Definition on_tasks {A} (f : TaskQueue.t -> result A * TaskQueue.t) : M A :=
  fun σ =>
    let e := executor σ in
    let '(r, q) := f (_tasks e) in
    (r, {| executor := {| _name := _name e; _workers_count := _workers_count e;
                          _worker_id := _worker_id e; _tasks := q;
                          _scheduler := _scheduler e;
                          _workers := _workers e; _running := _running e |};
           objects := objects σ; trace := trace σ |}).

(** Read and write the fields of the worker object [w]. *)
Definition worker (w : nat) : M _Worker :=
  fun σ =>
    match objects σ !! w with
    | Some o => (Ok o, σ)
    | None => (Raise (AssertionError "dangling worker reference"), σ)
    end.

Definition set_worker (w : nat) (o : _Worker) : M unit :=
  fun σ => (Ok tt, {| executor := executor σ; objects := <[w := o]> (objects σ);
                      trace := trace σ |}).

(** [for _ in range(n): body] *)
Fixpoint for_range (n : nat) (body : M unit) : M unit :=
  match n with
  | O => mret tt
  | S k => body;; for_range k body
  end.

(** [for x in xs: body x] *)
Fixpoint for_each {A} (xs : list A) (body : A -> M unit) : M unit :=
  match xs with
  | [] => mret tt
  | x :: rest => body x;; for_each rest body
  end.

(** [try: body finally: fin].  An exception of [fin] replaces the pending
    one; a thread blocked in [body] does not reach [fin]. *)
Definition try_finally {A} (body : M A) (fin : M unit) : M A :=
  fun σ =>
    match body σ with
    | (Blocked, σ') => (Blocked, σ')
    | (r, σ') =>
        match fin σ' with
        | (Ok _, σ'') => (r, σ'')
        | (Raise e, σ'') => (Raise e, σ'')
        | (Blocked, σ'') => (Blocked, σ'')
        end
    end.

(** [try: body except ...: handler].  [handlers e] is the handler of the
    first [except] clause that matches [e], if any; an exception raised by
    a handler is not offered to the other clauses. *)
Definition try_except {A} (body : M A) (handlers : PyExc -> option (M A))
    : M A :=
  fun σ =>
    match body σ with
    | (Raise e, σ') =>
        match handlers e with
        | Some handler => handler σ'
        | None => (Raise e, σ')
        end
    | r => r
    end.

(** [while True: body].  The loop is left by an exception or by a thread
    that blocks; [fuel] bounds the number of iterations unfolded. *)
Fixpoint while_True (fuel : nat) (body : M unit) : M unit :=
  match fuel with
  | O => fun σ => (Blocked, σ)
  | S n => body;; while_True n body
  end.

(** What the scheduler thread does with a callback: an exception of the
    callback ends up in the scheduler, not in the thread that armed it. *)
Definition on_scheduler_thread (callback : M unit) : M unit :=
  fun σ =>
    match callback σ with
    | (Raise e, σ') => emit (Scheduler_got e) σ'
    | r => r
    end.

(** ** Executor *)

(** [Executor.__init__] *)
Definition __init__ (name : string) (workers_count max_tasks : Z)
    (scheduler : Scheduler) : Executor :=
  {| _name := name;
     _workers_count := workers_count;
     _worker_id := 0;
     _tasks := TaskQueue.__init__ max_tasks;
     _scheduler := scheduler;
     _workers := ∅;
     _running := false |}.

(** The world right after the executor has been constructed. *)
Definition boot (name : string) (workers_count max_tasks : Z)
    (scheduler : Scheduler) : World :=
  {| executor := __init__ name workers_count max_tasks scheduler;
     objects := [];
     trace := [] |}.

(** The [name] property. *)
Definition name (e : Executor) : string := _name e.

(** [_Worker.__init__]: builds the object, starts its thread and returns
    the reference to it. *)
Definition _Worker__init__ (name : string) : M nat :=
  fun σ =>
    let w := length (objects σ) in
    (Ok w,
     {| executor := executor σ;
        objects := objects σ ++
          [{| _thread_name := name; _discarded := false; _task := None |}];
        trace := trace σ ++ [Log_debug ("Starting worker " +:+ name);
                             Thread_start name] |}).

(** [Executor._add_worker] *)
Definition _add_worker : M unit :=
  e ← self;
  let name := name e +:+ "/" +:+ pretty (_worker_id e) in
  set_executor {| _name := _name e; _workers_count := _workers_count e;
                  _worker_id := _worker_id e + 1; _tasks := _tasks e;
                  _scheduler := _scheduler e;
                  _workers := _workers e; _running := _running e |};;
  worker ← _Worker__init__ name;
  e ← self;
  set_executor {| _name := _name e; _workers_count := _workers_count e;
                  _worker_id := _worker_id e; _tasks := _tasks e;
                  _scheduler := _scheduler e;
                  _workers := {[worker]} ∪ _workers e;
                  _running := _running e |}.

(** [self._running = b] *)
Definition set_running (b : bool) : M unit :=
  e ← self;
  set_executor {| _name := _name e; _workers_count := _workers_count e;
                  _worker_id := _worker_id e; _tasks := _tasks e;
                  _scheduler := _scheduler e;
                  _workers := _workers e; _running := b |}.

(** [Executor.start] *)
Definition start : M unit :=
  emit (Log_debug "Starting executor");;
  e ← self;
  if _running e then raise AlreadyStarted
  else
    set_running true;;
    for_range (Z.to_nat (_workers_count e)) _add_worker.

(** [_Worker.join] *)
Definition join (w : nat) : M unit :=
  o ← worker w;
  emit (Log_debug ("Waiting for worker " +:+ _thread_name o));;
  emit (Thread_join w).

(** [Executor.stop].  Joining is a request to the thread library; the
    embedding records it and goes on. *)
Definition stop (wait : bool) : M unit :=
  emit (Log_debug "Stopping executor");;
  set_running false;;
  on_tasks (fun q => (Ok tt, TaskQueue.clear q));;
  e ← self;
  for_range (Z.to_nat (_workers_count e)) (on_tasks (TaskQueue.put _STOP));;
  e ← self;
  let workers := if wait then elements (_workers e) else [] in
  for_each workers join.

(** [Executor.dispatch] *)
Definition dispatch (callable : Callable) (timeout : option Z) : M unit :=
  e ← self;
  if negb (_running e) then raise NotRunning
  else on_tasks (TaskQueue.put (ATask (mkTask callable timeout))).

(** [Executor._worker_discarded] *)
Definition _worker_discarded (worker : nat) : M unit :=
  e ← self;
  (if _running e then _add_worker else mret tt);;
  e ← self;
  emit (Log_debug ("executor state: count=" +:+ pretty (size (_workers e)))).

(** [Executor._worker_stopped]: [set.remove] raises [KeyError] on a
    missing element. *)
Definition _worker_stopped (worker : nat) : M unit :=
  e ← self;
  if decide (worker ∈ _workers e)
  then set_executor {| _name := _name e; _workers_count := _workers_count e;
                       _worker_id := _worker_id e; _tasks := _tasks e;
                       _scheduler := _scheduler e;
                       _workers := _workers e ∖ {[worker]};
                       _running := _running e |}
  else raise KeyError.

(** [Executor._next_task] *)
Definition _next_task : M Task :=
  task ← on_tasks TaskQueue.get;
  match task with
  | _STOP => raise NotRunning
  | ATask t => mret t
  end.

(** ** _Worker *)

(** The handle returned by [scheduler.schedule]. *)
Inductive Handle : Type :=
  | handle (delay : Z) (w : nat).

(** [_Worker._discard_after] *)
Definition _discard_after (w : nat) (timeout : option Z) : M (option Handle) :=
  match timeout with
  | Some delay => emit (Scheduled delay w);; mret (Some (handle delay w))
  | None => mret None
  end.

(** [self._task = task] *)
Definition set_task (w : nat) (task : option Task) : M unit :=
  o ← worker w;
  set_worker w {| _thread_name := _thread_name o;
                  _discarded := _discarded o;
                  _task := task |}.

(** [self._discarded = True] *)
Definition set_discarded (w : nat) : M unit :=
  o ← worker w;
  set_worker w {| _thread_name := _thread_name o;
                  _discarded := true;
                  _task := _task o |}.

(** [_Worker._discard] *)
Definition _discard (w : nat) : M unit :=
  o ← worker w;
  if _discarded o
  then raise (AssertionError "Attempt to discard worker twice")
  else
    set_discarded w;;
    emit (Log_debug ("Worker discarded: " +:+ _thread_name o));;
    _worker_discarded w.

(** [task.callable()], together with what the scheduler thread does while
    the call is in progress. *)
Definition run_callable (w : nat) (task : Task) (discard : option Handle)
    : M unit :=
  emit (Called (callable task));;
  e ← self;
  match discard with
  | Some (handle delay _) =>
      if fires (_scheduler e) delay (callable task)
      then on_scheduler_thread (_discard w)
      else mret tt
  | None => mret tt
  end;;
  match call (callable task) with
  | Returns => mret tt
  | Raises e => raise e
  end.

(** [_Worker._execute_task] *)
Definition _execute_task (w : nat) : M unit :=
  task ← _next_task;
  discard ← _discard_after w (timeout task);
  set_task w (Some task);;
  try_finally
    (try_except
       (run_callable w task discard)
       (fun e =>
          if is_Exception e
          then Some (emit (Log_exception "Unhandled exception in %s" task))
          else None))
    (set_task w None;;
     match discard with
     | Some _ => emit (Cancelled w)
     | None => mret tt
     end;;
     o ← worker w;
     if _discarded o then raise _WorkerDiscarded else mret tt).

(** The number of items waiting in [self._tasks]. *)
Definition pending (σ : World) : nat :=
  length (TaskQueue._tasks (_tasks (executor σ))).

(** [_Worker._run], the thread function.  Every iteration that does not
    leave the loop takes one item off the queue, so one more iteration
    than there are items is all the loop can make. *)
Definition _run (w : nat) : M unit :=
  o ← worker w;
  emit (Pthread_setname (String.substring 0 15 (_thread_name o)));;
  emit (Log_debug "Worker started");;
  try_finally
    (try_except
       (fun σ => while_True (S (pending σ)) (_execute_task w) σ)
       (fun e =>
          match e with
          | NotRunning => Some (emit (Log_debug "Worker stopped"))
          | _WorkerDiscarded => Some (emit (Log_debug "Worker was discarded"))
          | _ => None
          end))
    (_worker_stopped w).

(** ** Scenarios *)

Definition never : Scheduler := {| fires := fun _ _ => false |}.
Definition always : Scheduler := {| fires := fun _ _ => true |}.

Definition ok_job : Callable := {| label := "ok"; call := Returns |}.
Definition bad_job : Callable := {| label := "bad"; call := Raises (UserError "boom") |}.
Definition exit_job : Callable := {| label := "exit"; call := Raises SystemExit |}.

(** Run a method for its final world. *)
Definition exec {A} (m : M A) (σ : World) : World := snd (m σ).

(** ** Histories of the queue *)

(** One call on a [TaskQueue], as a client thread can make it. *)
Inductive QueueOp : Type :=
  | Put (x : Item)
  | Get
  | Clear.

Definition queue_step (q : TaskQueue.t) (op : QueueOp) : TaskQueue.t :=
  match op with
  | Put x => snd (TaskQueue.put x q)
  | Get => snd (TaskQueue.get q)
  | Clear => TaskQueue.clear q
  end.

Definition queue_run (ops : list QueueOp) (q : TaskQueue.t) : TaskQueue.t :=
  fold_left queue_step ops q.

(** [put] each item of [xs] in turn; the items that were accepted, in the
    order of the calls, and the queue left behind. *)
Fixpoint puts (xs : list Item) (q : TaskQueue.t) : list Item * TaskQueue.t :=
  match xs with
  | [] => ([], q)
  | x :: rest =>
      match TaskQueue.put x q with
      | (Ok _, q') => let '(acc, q'') := puts rest q' in (x :: acc, q'')
      | (_, q') => puts rest q'
      end
  end.

(** [n] calls of [get] by one thread; the items returned, in the order of
    the calls.  A call on an empty queue blocks the thread for good, as
    nobody puts any more. *)
Fixpoint gets (n : nat) (q : TaskQueue.t) : list Item * TaskQueue.t :=
  match n with
  | O => ([], q)
  | S k =>
      match TaskQueue.get q with
      | (Ok x, q') => let '(out, q'') := gets k q' in (x :: out, q'')
      | (_, q') => ([], q')
      end
  end.

(** ** Invariants *)

(** [m] keeps [P]: whatever way [m] ends, the world it leaves satisfies
    [P] if the world it started in did. *)
Definition preserves {A} (P : World -> Prop) (m : M A) : Prop :=
  forall σ, P σ -> P (snd (m σ)).

(** The elementary actions from which the methods of the pool are
    composed, each with the class of the properties it keeps. *)
Class KeepsEmit (P : World -> Prop) : Prop :=
  keeps_emit : forall ev, preserves P (emit ev).
Class KeepsTasks (P : World -> Prop) : Prop :=
  keeps_on_tasks : forall A (f : TaskQueue.t -> result A * TaskQueue.t),
    preserves P (on_tasks f).
Class KeepsAddWorker (P : World -> Prop) : Prop :=
  keeps_add_worker : preserves P _add_worker.
Class KeepsWorkerStopped (P : World -> Prop) : Prop :=
  keeps_worker_stopped : forall w, preserves P (_worker_stopped w).
Class KeepsSetTask (P : World -> Prop) : Prop :=
  keeps_set_task : forall w t, preserves P (set_task w t).
Class KeepsSetDiscarded (P : World -> Prop) : Prop :=
  keeps_set_discarded : forall w, preserves P (set_discarded w).
Class KeepsSetRunning (P : World -> Prop) : Prop :=
  keeps_set_running : forall b, preserves P (set_running b).

(** A property of the world is stable when it is kept by all of them but
    the assignment of [self._running], which only [start] and [stop]
    make. *)
Class Stable (P : World -> Prop) : Prop := {
  stable_emit :: KeepsEmit P;
  stable_on_tasks :: KeepsTasks P;
  stable_add_worker :: KeepsAddWorker P;
  stable_worker_stopped :: KeepsWorkerStopped P;
  stable_set_task :: KeepsSetTask P;
  stable_set_discarded :: KeepsSetDiscarded P
}.

(** The flag [self._running] has the value [b]. *)
Definition running_is (b : bool) (σ : World) : Prop :=
  _running (executor σ) = b.

(** The worker name that [_add_worker] builds from the counter value [k]:
    ["%s/%d" % (self.name, k)]. *)
Definition worker_name (n : string) (k : Z) : string :=
  n +:+ "/" +:+ pretty k.

(** The pool is called [n], its counter has been incremented once per
    worker object built, and the object at reference [i] carries the name
    made from the counter value [i]. *)
Definition names_inv (n : string) (σ : World) : Prop :=
  _name (executor σ) = n /\
  _worker_id (executor σ) = Z.of_nat (length (objects σ)) /\
  forall (i : nat) (o : _Worker),
    objects σ !! i = Some o -> _thread_name o = worker_name n (Z.of_nat i).

(** The counter is at least [k]. *)
Definition counter_ge (k : Z) (σ : World) : Prop :=
  k <= _worker_id (executor σ).

(** Every reference in the live set points to a constructed object. *)
Definition refs_valid (σ : World) : Prop :=
  set_Forall (fun w : nat => (w < length (objects σ))%nat) (_workers (executor σ)).

(** The names of the first worker objects are [l]: objects are never
    removed from the store nor renamed. *)
Definition names_extend (l : list string) (σ : World) : Prop :=
  l `prefix_of` (_thread_name <$> objects σ).

(** ** Histories of the pool *)

(** A step of the pool: a call of a public method by a client, the thread
    function of a worker running until it returns, dies or blocks, one
    iteration of it, the timer callback of a worker running on the
    scheduler thread, or one of the notifications to the executor. *)
Inductive Op : Type :=
  | Start
  | Stop (wait : bool)
  | Dispatch (c : Callable) (timeout : option Z)
  | Run (w : nat)
  | ExecuteTask (w : nat)
  | Discard (w : nat)
  | WorkerDiscarded (w : nat)
  | WorkerStopped (w : nat).

Definition perform (op : Op) : M unit :=
  match op with
  | Start => start
  | Stop wait => stop wait
  | Dispatch c timeout => dispatch c timeout
  | Run w => _run w
  | ExecuteTask w => _execute_task w
  | Discard w => on_scheduler_thread (_discard w)
  | WorkerDiscarded w => _worker_discarded w
  | WorkerStopped w => _worker_stopped w
  end.

Definition history (ops : list Op) (σ : World) : World :=
  fold_left (fun σ op => exec (perform op) σ) ops σ.

(** The world [σ] with [items] as the content of [self._tasks]. *)
Definition with_queue (items : list Item) (σ : World) : World :=
  let e := executor σ in
  {| executor := {| _name := _name e; _workers_count := _workers_count e;
                    _worker_id := _worker_id e;
                    _tasks := TaskQueue.mk (TaskQueue._max_tasks (_tasks e)) items;
                    _scheduler := _scheduler e;
                    _workers := _workers e; _running := _running e |};
     objects := objects σ; trace := trace σ |}.

(** The items waiting in [self._tasks]. *)
Definition queued (σ : World) : list Item :=
  TaskQueue._tasks (_tasks (executor σ)).

(** The number of worker threads started so far. *)
Definition is_thread_start (ev : Event) : bool :=
  match ev with
  | Thread_start _ => true
  | _ => false
  end.

Definition spawned (σ : World) : nat :=
  length (List.filter is_thread_start (trace σ)).

(** The steps other than the two that assign [self._running]. *)
Definition is_start_or_stop (op : Op) : bool :=
  match op with
  | Start | Stop _ => true
  | _ => false
  end.

(** ** One iteration of a worker *)

(** The timer armed for [t] runs its callback before the worker tests its
    flag; no timer is armed for a task without timeout. *)
Definition timer_fires (σ : World) (t : Task) : bool :=
  match timeout t with
  | Some delay => fires (_scheduler (executor σ)) delay (callable t)
  | None => false
  end.

(** The exceptions that [except Exception] catches leave the call of the
    callable as a normal return does. *)
Definition caught (c : Callable) : bool :=
  match call c with
  | Returns => true
  | Raises e => is_Exception e
  end.

(** How [_execute_task] ends for a task [t], given the value of
    [self._discarded] when it is tested. *)
Definition iteration_result (flag : bool) (t : Task) : result unit :=
  if flag then Raise _WorkerDiscarded
  else match call (callable t) with
       | Returns => Ok tt
       | Raises e => if is_Exception e then Ok tt else Raise e
       end.

(** Properties of the world used to follow an iteration. *)
Definition queue_is (l : list Item) (σ : World) : Prop := queued σ = l.
Definition live (w : nat) (σ : World) : Prop := w ∈ _workers (executor σ).
Definition traced (ev : Event) (σ : World) : Prop := ev ∈ trace σ.
Definition flag_of (w : nat) (b : bool) (σ : World) : Prop :=
  exists o, objects σ !! w = Some o /\ _discarded o = b.
Definition named (w : nat) (n : string) (σ : World) : Prop :=
  exists o, objects σ !! w = Some o /\ _thread_name o = n.

(** The world in which the loop of [_run] starts, for a worker object
    [o]. *)
Definition loop_start (σ : World) (o : _Worker) : World :=
  exec (emit (Log_debug "Worker started"))
    (exec (emit (Pthread_setname (String.substring 0 15 (_thread_name o)))) σ).

(** ** Further properties: definitions *)

(** The worker objects that [n] successive calls of [_add_worker] build
    for a pool called [name] whose counter is [id]. *)
Fixpoint fresh_workers (name : string) (id : Z) (n : nat) : list _Worker :=
  match n with
  | O => []
  | S k => mkWorker (worker_name name id) false None :: fresh_workers name (id + 1) k
  end.

(** The three calls that the pool makes on its queue. *)
Class KeepsQueueCalls (P : World -> Prop) : Prop := {
  keeps_put : forall x, preserves P (on_tasks (TaskQueue.put x));
  keeps_get : preserves P (on_tasks TaskQueue.get);
  keeps_clear : preserves P (on_tasks (fun q => (Ok tt, TaskQueue.clear q)))
}.

(** A property kept by every elementary action of the pool, the queue
    being used through its own methods only. *)
Class Invariant (P : World -> Prop) : Prop := {
  invariant_emit :: KeepsEmit P;
  invariant_queue :: KeepsQueueCalls P;
  invariant_add_worker :: KeepsAddWorker P;
  invariant_worker_stopped :: KeepsWorkerStopped P;
  invariant_set_task :: KeepsSetTask P;
  invariant_set_discarded :: KeepsSetDiscarded P;
  invariant_set_running :: KeepsSetRunning P
}.

(** The queue of the executor is within its capacity. *)
Definition queue_bounded (σ : World) : Prop :=
  0 <= TaskQueue.len (_tasks (executor σ)) <= TaskQueue._max_tasks (_tasks (executor σ)).

(** The arguments the executor was constructed with. *)
Definition configured (n : string) (wc mt : Z) (s : Scheduler) (σ : World) : Prop :=
  _name (executor σ) = n /\
  _workers_count (executor σ) = wc /\
  TaskQueue._max_tasks (_tasks (executor σ)) = mt /\
  _scheduler (executor σ) = s.



(** The queue holds [j] stop sentinels and nothing else, for some [j] up
    to [k]. *)
Definition sentinels_at_most (k : nat) (σ : World) : Prop :=
  exists j : nat, (j <= k)%nat /\ queued σ = replicate j _STOP.

(** The callables that have been called so far, in the order of the
    calls. *)
Definition called_of (ev : Event) : option Callable :=
  match ev with
  | Called c => Some c
  | _ => None
  end.

Definition calls (σ : World) : list Callable := omap called_of (trace σ).

(** The world a worker leaves behind when it takes a stop sentinel off a
    queue whose other items are [rest] and exits. *)
Definition after_exit (w : nat) (o : _Worker) (rest : list Item) (σ : World) : World :=
  let e := executor σ in
  {| executor := {| _name := _name e; _workers_count := _workers_count e;
                    _worker_id := _worker_id e;
                    _tasks := TaskQueue.mk (TaskQueue._max_tasks (_tasks e)) rest;
                    _scheduler := _scheduler e;
                    _workers := _workers e ∖ {[w]}; _running := _running e |};
     objects := objects σ;
     trace := trace σ ++ [Pthread_setname (String.substring 0 15 (_thread_name o));
                          Log_debug "Worker started"; Log_debug "Worker stopped"] |}.

(** The world in which the callable of [t] has just been called by the
    worker [w], whose object was [o] when it took [t] off a queue whose
    other items are [rest]: the timer is armed if [t] has a timeout, [t] is
    the current task of [w], and the call is in the trace. *)
Definition at_call (w : nat) (o : _Worker) (t : Task) (rest : list Item)
    (σ : World) : World :=
  {| executor := executor (with_queue rest σ);
     objects := <[w := mkWorker (_thread_name o) (_discarded o) (Some t)]> (objects σ);
     trace := (trace σ ++
               match timeout t with
               | Some delay => [Scheduled delay w]
               | None => []
               end) ++ [Called (callable t)] |}.

(** The live set is [W]; [k] worker objects have been built. *)
Definition workers_are (W : gset nat) (σ : World) : Prop :=
  _workers (executor σ) = W.
Definition objects_count (k : nat) (σ : World) : Prop :=
  length (objects σ) = k.

(** The events other than the call of a callable. *)
Class KeepsQuietEmit (P : World -> Prop) : Prop :=
  keeps_quiet_emit : forall ev, called_of ev = None -> preserves P (emit ev).

(** The callables called so far are [l]. *)
Definition calls_are (l : list Callable) (σ : World) : Prop := calls σ = l.

(** A request to [dispatch]: the callable and the timeout. *)
Definition request_op (r : Callable * option Z) : Op := Dispatch (fst r) (snd r).
Definition request_item (r : Callable * option Z) : Item :=
  ATask (mkTask (fst r) (snd r)).

(** * Strings and files

    What [lib/vdsm/ppc64HardwareInfo.py] and [tests/schemaValidationTest.py]
    use of the built-in [str] and [file] types.  Strings are the byte
    strings of Python 2; the file system is what the operating system
    answers for a path. *)
Module builtins.

Import Stdlib.Strings.Ascii.

(** ** [str] *)

(** [c in chars] *)
Fixpoint contains (c : ascii) (chars : string) : bool :=
  match chars with
  | EmptyString => false
  | String c' chars' => Ascii.eqb c c' || contains c chars'
  end.

(** [string.whitespace]: space, tab, line feed, vertical tab, form feed
    and carriage return, the characters that [strip()] without an argument
    removes. *)
Definition whitespace : string :=
  String " " (String "009" (String "010" (String "011" (String "012"
    (String "013" EmptyString))))).

(** [s.lstrip(chars)] *)
Fixpoint lstrip (chars s : string) : string :=
  match s with
  | EmptyString => EmptyString
  | String c s' => if contains c chars then lstrip chars s' else s
  end.

(** [s.rstrip(chars)] *)
Fixpoint rstrip (chars s : string) : string :=
  match s with
  | EmptyString => EmptyString
  | String c s' =>
      match rstrip chars s' with
      | EmptyString => if contains c chars then EmptyString else String c EmptyString
      | r => String c r
      end
  end.

(** [s.strip()] *)
Definition strip (s : string) : string :=
  lstrip whitespace (rstrip whitespace s).

(** [s.replace(old, new)] for an [old] of one character. *)
Fixpoint replace (old : ascii) (new s : string) : string :=
  match s with
  | EmptyString => EmptyString
  | String c s' =>
      if Ascii.eqb c old then new +:+ replace old new s'
      else String c (replace old new s')
  end.

(** [s.split(sep, 1)] for a [sep] of one character: the text before the
    first separator and the text after it, or [s] alone. *)
Fixpoint split1 (sep : ascii) (s : string) : list string :=
  match s with
  | EmptyString => [EmptyString]
  | String c s' =>
      if Ascii.eqb c sep then [EmptyString; s']
      else match split1 sep s' with
           | [] => []
           | h :: t => String c h :: t
           end
  end.

(** [c * k] *)
Fixpoint times (c : ascii) (k : nat) : string :=
  match k with
  | O => EmptyString
  | S k' => String c (times c k')
  end.

(** ** Files *)

(** [f.readline()] on a file just opened: the text up to the first line
    feed, the line feed included. *)
Fixpoint readline (content : string) : string :=
  match content with
  | EmptyString => EmptyString
  | String c rest =>
      if Ascii.eqb c "010" then String c EmptyString
      else String c (readline rest)
  end.

(** [for line in f]: the lines of the file, each with its line feed; the
    last one has none when the file does not end in one. *)
Fixpoint readlines (content : string) : list string :=
  match content with
  | EmptyString => []
  | String c rest =>
      if Ascii.eqb c "010" then String c EmptyString :: readlines rest
      else match readlines rest with
           | [] => [String c EmptyString]
           | line :: lines => String c line :: lines
           end
  end.

(** What a path names. *)
Inductive Node : Type :=
  | File (content : string)
  | Directory.

Definition FileSystem : Type := string -> option Node.

(** The exceptions that leave the two modules. *)
Inductive Error : Type :=
  | IOError
  | ValueError
  | AssertionError (msg : string).

(** A call returns a value or raises. *)
Inductive Result (A : Type) : Type :=
  | Return (a : A)
  | Failure (e : Error).
Arguments Return {A} a.
Arguments Failure {A} e.

Global Instance Result_ret : MRet Result := @Return.
Global Instance Result_bind : MBind Result := fun A B f m =>
  match m with
  | Return a => f a
  | Failure e => Failure e
  end.

(** [os.path.exists(path)] *)
Definition exists_ (fs : FileSystem) (path : string) : bool :=
  match fs path with
  | Some _ => true
  | None => false
  end.

(** [open(path)] for reading, and the whole content behind it. *)
Definition open (fs : FileSystem) (path : string) : Result string :=
  match fs path with
  | Some (File content) => Return content
  | _ => Failure IOError
  end.

End builtins.

(** * Hardware information on ppc64: [lib/vdsm/ppc64HardwareInfo.py]

    The module reads [/proc/cpuinfo] and three properties of the device
    tree. *)
Module ppc64HardwareInfo.

Import Stdlib.Strings.Ascii.
Import builtins.

Definition _getFromDeviceTree (fs : FileSystem) (treeProperty : string) :
    Result string :=
  let path := "/proc/device-tree/" +:+ treeProperty in
  if exists_ fs path then
    f ← open fs path;
    let value := replace "," "" (rstrip (String "000" EmptyString) (readline f)) in
    Return value
  else
    Return "unavailable".

(** The three branches on [key] in the loop over [/proc/cpuinfo]. *)
Definition store (key value : string) (infoStructure : gmap string string) :
    gmap string string :=
  if String.eqb key "platform" then <["systemFamily" := value]> infoStructure
  else if String.eqb key "model" then <["systemSerialNumber" := value]> infoStructure
  else if String.eqb key "machine" then <["systemVersion" := value]> infoStructure
  else infoStructure.

(** The loop [for line in info]; the unpacking [key, value = ...] raises
    [ValueError] unless the split gave two parts. *)
Fixpoint scan (lines : list string) (infoStructure : gmap string string) :
    Result (gmap string string) :=
  match lines with
  | [] => Return infoStructure
  | line :: lines' =>
      if String.eqb (strip line) "" then scan lines' infoStructure
      else
        match strip <$> split1 ":" line with
        | [key; value] => scan lines' (store key value infoStructure)
        | _ => Failure ValueError
        end
  end.

(** The body of [getHardwareInfoStructure]; [utils.memoized] keeps the
    structure that the first call returned. *)
Definition getHardwareInfoStructure (fs : FileSystem) : Result (gmap string string) :=
  let infoStructure : gmap string string :=
    {[ "systemSerialNumber" := "unavailable";
       "systemFamily" := "unavailable";
       "systemVersion" := "unavailable" ]} in
  info ← open fs "/proc/cpuinfo";
  infoStructure ← scan (readlines info) infoStructure;
  systemUUID ← _getFromDeviceTree fs "system-id";
  let infoStructure := <["systemUUID" := systemUUID]> infoStructure in
  systemProductName ← _getFromDeviceTree fs "model-name";
  let infoStructure := <["systemProductName" := systemProductName]> infoStructure in
  systemManufacturer ← _getFromDeviceTree fs "vendor";
  let infoStructure := <["systemManufacturer" := systemManufacturer]> infoStructure in
  Return infoStructure.

(** What one line of [/proc/cpuinfo] says about [key]: the text after
    its first colon, stripped, when the text before that colon, stripped,
    is [key]. *)
Definition field (key line : string) : option string :=
  match split1 ":" line with
  | [k; v] => if String.eqb (strip k) key then Some (strip v) else None
  | _ => None
  end.

(** A line that is not blank and has no colon. *)
Definition malformed (line : string) : Prop :=
  strip line <> "" /\ contains ":" line = false.

(** A file system with the given [/proc/cpuinfo] and the given properties
    of the device tree, and nothing else. *)
Fixpoint property (tree : list (string * string)) (path : string) : option Node :=
  match tree with
  | [] => None
  | (treeProperty, content) :: tree' =>
      if String.eqb ("/proc/device-tree/" +:+ treeProperty) path
      then Some (File content)
      else property tree' path
  end.

Definition machine (cpuinfo : string) (tree : list (string * string)) : FileSystem :=
  fun path =>
    if String.eqb path "/proc/cpuinfo" then Some (File cpuinfo)
    else property tree path.

End ppc64HardwareInfo.

(** * Style checks on the schema: [tests/schemaValidationTest.py]

    The two tests of [SchemaValidation] that read the schema files as
    text. *)
Module schemaValidationTest.

Import Stdlib.Strings.Ascii.
Import builtins.

(** [s.startswith("/")] and [s.endswith("/")] *)
Definition startswith_sep (s : string) : bool :=
  match s with
  | String c _ => Ascii.eqb c "/"
  | EmptyString => false
  end.

Fixpoint endswith_sep (s : string) : bool :=
  match s with
  | EmptyString => false
  | String c EmptyString => Ascii.eqb c "/"
  | String _ s' => endswith_sep s'
  end.

(** [os.path.join(a, *p)] of [posixpath]. *)
Definition join (a : string) (p : list string) : string :=
  foldl (fun path b =>
           if startswith_sep b then b
           else if String.eqb path "" || endswith_sep path then path +:+ b
           else path +:+ "/" +:+ b) a p.

(** [SchemaValidation._get_paths], for the directory [dirName] of the
    test module. *)
Definition _get_paths (dirName : string) : list string :=
  (fun tail => join dirName [".."; "lib"; "api"; tail]) <$>
    ["vdsm-api.yml"; "vdsm-api-gluster.yml"].

(** The loop [for i, line in enumerate(f)] of the two tests, from line
    index [i] on: the lines that [bad] holds for are appended to the list,
    each with its number. *)
Fixpoint report (bad : string -> bool) (i : Z) (lines found : list string) :
    list string :=
  match lines with
  | [] => found
  | line :: lines' =>
      report bad (i + 1) lines'
        (if bad line
         then found ++ ["line [" +:+ pretty (i + 1) +:+ "] " +:+ line]
         else found)
  end.

(** [for fname in self._get_paths()] with a body that may raise. *)
Fixpoint for_paths (paths : list string) (body : string -> Result unit) :
    Result unit :=
  match paths with
  | [] => Return tt
  | fname :: paths' => body fname ≫= fun _ => for_paths paths' body
  end.

Definition test_line_length (fs : FileSystem) (dirName : string) : Result unit :=
  for_paths (_get_paths dirName) (fun fname =>
    f ← open fs fname;
    let longer :=
      report (fun line => 80 <? Z.of_nat (String.length line)) 0 (readlines f) [] in
    if 0 <? Z.of_nat (length longer)
    then Failure (AssertionError
                    ("Lines longer than 80" +:+ String "010" "" +:+
                     String.concat (String "010" "") longer))
    else Return tt).

Definition test_tabs_in_line (fs : FileSystem) (dirName : string) : Result unit :=
  for_paths (_get_paths dirName) (fun fname =>
    f ← open fs fname;
    let with_tabs := report (contains "009") 0 (readlines f) [] in
    if 0 <? Z.of_nat (length with_tabs)
    then Failure (AssertionError
                    ("Lines containing tabs" +:+ String "010" "" +:+
                     String.concat (String "010" "") with_tabs))
    else Return tt).

(** A file system with the two schema files that the tests in [dirName]
    look for, and nothing else. *)
Definition schemas (dirName : string) (api gluster : option string) : FileSystem :=
  fun path =>
    if String.eqb path (join dirName [".."; "lib"; "api"; "vdsm-api.yml"])
    then File <$> api
    else if String.eqb path (join dirName [".."; "lib"; "api"; "vdsm-api-gluster.yml"])
    then File <$> gluster
    else None.

End schemaValidationTest.

(** * Properties *)

(** ** TaskQueue *)

Section TaskQueueFacts.

Implicit Types (q : TaskQueue.t) (x : Item).

Lemma put_full q x :
  TaskQueue.len q = TaskQueue._max_tasks q ->
  TaskQueue.put x q = (Raise TooManyTasks, q).
Proof.
  intros Hfull. unfold TaskQueue.put.
  by rewrite (proj2 (Z.eqb_eq _ _) Hfull).
Qed.

Lemma put_room q x :
  TaskQueue.len q ≠ TaskQueue._max_tasks q ->
  TaskQueue.put x q =
    (Ok tt, TaskQueue.mk (TaskQueue._max_tasks q) (TaskQueue._tasks q ++ [x])).
Proof.
  intros Hroom. unfold TaskQueue.put.
  by rewrite (proj2 (Z.eqb_neq _ _) Hroom).
Qed.

Lemma put_max_tasks q x :
  TaskQueue._max_tasks (snd (TaskQueue.put x q)) = TaskQueue._max_tasks q.
Proof. unfold TaskQueue.put. by case (_ =? _). Qed.

Lemma get_max_tasks q :
  TaskQueue._max_tasks (snd (TaskQueue.get q)) = TaskQueue._max_tasks q.
Proof. unfold TaskQueue.get. by destruct (TaskQueue._tasks q). Qed.

Lemma queue_step_max_tasks q op :
  TaskQueue._max_tasks (queue_step q op) = TaskQueue._max_tasks q.
Proof.
  destruct op; simpl; auto using put_max_tasks, get_max_tasks.
Qed.

(** One call keeps the length within a non-negative capacity. *)
Lemma queue_step_bounded q op :
  0 <= TaskQueue.len q <= TaskQueue._max_tasks q ->
  0 <= TaskQueue.len (queue_step q op) <= TaskQueue._max_tasks (queue_step q op).
Proof.
  intros Hb. rewrite queue_step_max_tasks. destruct op as [x| |]; simpl.
  - unfold TaskQueue.put.
    destruct (Z.eqb_spec (TaskQueue.len q) (TaskQueue._max_tasks q)) as [|Hne];
      simpl; [done|].
    unfold TaskQueue.len in *. simpl. rewrite length_app. simpl.
    rewrite Nat2Z.inj_add. simpl. lia.
  - unfold TaskQueue.get, TaskQueue.len in *.
    destruct (TaskQueue._tasks q) as [|y l] eqn:E;
      cbn [snd TaskQueue._tasks] in *; rewrite ?E; cbn [length] in *; lia.
  - unfold TaskQueue.len in *. cbn [TaskQueue.clear TaskQueue._tasks length]. lia.
Qed.

Lemma queue_run_bounded ops q :
  0 <= TaskQueue.len q <= TaskQueue._max_tasks q ->
  0 <= TaskQueue.len (queue_run ops q) <= TaskQueue._max_tasks q.
Proof.
  revert q. induction ops as [|op ops IH]; intros q Hb; simpl; [done|].
  unfold queue_run in *. simpl.
  rewrite <- (queue_step_max_tasks q op).
  apply IH. by apply queue_step_bounded.
Qed.

End TaskQueueFacts.

(** C6. [put] on a queue that holds as many items as its capacity raises
    [TooManyTasks] and returns the queue as it was; hence, from the empty
    queue of a capacity [M] that is not negative, no sequence of [put],
    [get] and [clear] calls leads to a queue of more than [M] items. *)
Theorem put_rejects_when_full_and_length_bounded :
  (forall (q : TaskQueue.t) (x : Item),
      TaskQueue.len q = TaskQueue._max_tasks q ->
      TaskQueue.put x q = (Raise TooManyTasks, q)) /\
  (forall (M : Z) (ops : list QueueOp),
      0 <= M ->
      TaskQueue.len (queue_run ops (TaskQueue.__init__ M)) <= M).
Proof.
  split.
  - apply put_full.
  - intros M ops HM.
    apply (queue_run_bounded ops (TaskQueue.__init__ M)).
    unfold TaskQueue.len. simpl. lia.
Qed.

Lemma put_rejects_when_full_and_length_bounded_witness :
  TaskQueue.put _STOP (TaskQueue.mk 1 [_STOP]) =
    (Raise TooManyTasks, TaskQueue.mk 1 [_STOP]) /\
  TaskQueue.len
    (queue_run [Put _STOP; Put _STOP; Get; Put _STOP; Put _STOP; Put _STOP]
       (TaskQueue.__init__ 2)) <= 2.
Proof.
  split.
  - apply (proj1 put_rejects_when_full_and_length_bounded). reflexivity.
  - apply (proj2 put_rejects_when_full_and_length_bounded). lia.
Defined.

Section Fifo.

Implicit Types (q : TaskQueue.t) (x : Item) (xs : list Item).

Lemma get_head q x rest :
  TaskQueue._tasks q = x :: rest ->
  TaskQueue.get q = (Ok x, TaskQueue.mk (TaskQueue._max_tasks q) rest).
Proof. intros Hq. unfold TaskQueue.get. by rewrite Hq. Qed.

(** The queue after a run of puts is the old content followed by the
    accepted items. *)
Lemma puts_tasks xs q :
  TaskQueue._tasks (snd (puts xs q)) = TaskQueue._tasks q ++ fst (puts xs q).
Proof.
  revert q. induction xs as [|x xs IH]; intros q; simpl.
  - by rewrite app_nil_r.
  - unfold TaskQueue.put. case (_ =? _); simpl.
    + apply IH.
    + specialize (IH (TaskQueue.mk (TaskQueue._max_tasks q) (TaskQueue._tasks q ++ [x]))).
      destruct (puts xs _) as [acc q'']. simpl in *.
      by rewrite IH, <- app_assoc.
Qed.

(** Successive gets read the content from the left. *)
Lemma gets_firstn n q :
  fst (gets n q) = firstn n (TaskQueue._tasks q).
Proof.
  revert q. induction n as [|n IH]; intros q; simpl; [done|].
  unfold TaskQueue.get. destruct (TaskQueue._tasks q) as [|x rest]; simpl; [done|].
  specialize (IH (TaskQueue.mk (TaskQueue._max_tasks q) rest)).
  destruct (gets n _) as [out q'']. simpl in *. by rewrite IH.
Qed.

End Fifo.

(** C9. [put] appends at the tail and [get] removes and returns the head;
    so when one thread puts a sequence of items and then calls [get] [n]
    times, the calls return, in order, the first [n] of: the items that
    were already queued, then the accepted items in the order they were
    put. *)
Theorem get_returns_in_put_order :
  (forall (q : TaskQueue.t) (x : Item),
      TaskQueue.len q ≠ TaskQueue._max_tasks q ->
      TaskQueue.put x q =
        (Ok tt, TaskQueue.mk (TaskQueue._max_tasks q) (TaskQueue._tasks q ++ [x]))) /\
  (forall (q : TaskQueue.t) (x : Item) (rest : list Item),
      TaskQueue._tasks q = x :: rest ->
      TaskQueue.get q = (Ok x, TaskQueue.mk (TaskQueue._max_tasks q) rest)) /\
  (forall (q : TaskQueue.t) (xs : list Item) (n : nat),
      fst (gets n (snd (puts xs q))) =
        firstn n (TaskQueue._tasks q ++ fst (puts xs q))).
Proof.
  split; [apply put_room|]. split; [apply get_head|].
  intros q xs n. by rewrite gets_firstn, puts_tasks.
Qed.

Lemma get_returns_in_put_order_witness :
  let a := ATask (mkTask ok_job None) in
  let b := ATask (mkTask bad_job (Some 3)) in
  TaskQueue.put b (TaskQueue.mk 2 [a]) = (Ok tt, TaskQueue.mk 2 [a; b]) /\
  TaskQueue.get (TaskQueue.mk 2 [a; b]) = (Ok a, TaskQueue.mk 2 [b]) /\
  fst (gets 3 (snd (puts [a; b; _STOP] (TaskQueue.__init__ 2)))) = [a; b].
Proof.
  intros a b. split; [|split].
  - apply (proj1 get_returns_in_put_order). vm_compute. discriminate.
  - apply (proj1 (proj2 get_returns_in_put_order)). reflexivity.
  - rewrite (proj2 (proj2 get_returns_in_put_order)). reflexivity.
Defined.

(** ** Invariants of method bodies *)

Section Combinators.

Context (P : World -> Prop).

Lemma preserves_ret {A} (a : A) : preserves P (mret a).
Proof. by intros σ H. Qed.

Lemma preserves_raise {A} (e : PyExc) : preserves P (@raise A e).
Proof. by intros σ H. Qed.

Lemma preserves_self : preserves P self.
Proof. by intros σ H. Qed.

Lemma preserves_worker w : preserves P (worker w).
Proof. intros σ H. unfold worker. by destruct (objects σ !! w). Qed.

Lemma preserves_bind {A B} (m : M A) (k : A -> M B) :
  preserves P m -> (forall a, preserves P (k a)) -> preserves P (m ≫= k).
Proof.
  intros Hm Hk σ H. unfold mbind, M_bind.
  specialize (Hm σ H). destruct (m σ) as [[a|e|] σ']; simpl in *; auto.
  by apply Hk.
Qed.

Lemma preserves_for_range n (body : M unit) :
  preserves P body -> preserves P (for_range n body).
Proof.
  intros Hb. induction n as [|n IH]; simpl.
  - apply preserves_ret.
  - apply preserves_bind; auto.
Qed.

Lemma preserves_for_each {A} (xs : list A) (body : A -> M unit) :
  (forall x, preserves P (body x)) -> preserves P (for_each xs body).
Proof.
  intros Hb. induction xs as [|x xs IH]; simpl.
  - apply preserves_ret.
  - apply preserves_bind; auto.
Qed.

Lemma preserves_while_True fuel (body : M unit) :
  preserves P body -> preserves P (while_True fuel body).
Proof.
  intros Hb. induction fuel as [|n IH]; simpl.
  - by intros σ H.
  - apply preserves_bind; auto.
Qed.

Lemma preserves_try_finally {A} (body : M A) (fin : M unit) :
  preserves P body -> preserves P fin -> preserves P (try_finally body fin).
Proof.
  intros Hb Hf σ H. unfold try_finally.
  specialize (Hb σ H). destruct (body σ) as [[a|e|] σ']; simpl in *; auto;
    specialize (Hf σ' Hb); destruct (fin σ') as [[[]|e'|] σ'']; by simpl in *.
Qed.

Lemma preserves_try_except {A} (body : M A) (handlers : PyExc -> option (M A)) :
  preserves P body ->
  (forall e h, handlers e = Some h -> preserves P h) ->
  preserves P (try_except body handlers).
Proof.
  intros Hb Hh σ H. unfold try_except.
  specialize (Hb σ H). destruct (body σ) as [[a|e|] σ']; simpl in *; auto.
  destruct (handlers e) as [h|] eqn:He; [|done].
  by apply (Hh e h He).
Qed.

Lemma preserves_on_scheduler_thread (callback : M unit) :
  (forall ev, preserves P (emit ev)) ->
  preserves P callback -> preserves P (on_scheduler_thread callback).
Proof.
  intros He Hc σ H. unfold on_scheduler_thread.
  specialize (Hc σ H). destruct (callback σ) as [[a|e|] σ']; simpl in *; auto.
  by apply He.
Qed.

End Combinators.

(** Decompose a goal [preserves P m] along the structure of [m]. *)
Ltac keep :=
  repeat first
    [ apply preserves_ret
    | apply preserves_raise
    | apply preserves_self
    | apply preserves_worker
    | apply keeps_emit
    | apply keeps_on_tasks
    | apply keeps_add_worker
    | apply keeps_worker_stopped
    | apply keeps_set_task
    | apply keeps_set_discarded
    | apply keeps_set_running
    | assumption
    | apply preserves_bind; [|intros ?]
    | apply preserves_for_range
    | apply preserves_for_each; intros ?
    | apply preserves_try_finally
    | apply preserves_on_scheduler_thread; [intros ?|]
    | apply preserves_try_except;
      [|let e := fresh "e" in let He := fresh "He" in
        intros e ? He; destruct e; simpl in He; simplify_eq]
    | apply preserves_while_True
    | match goal with
      | |- preserves _ (if ?b then _ else _) => destruct b
      | |- preserves _ (match ?x with _ => _ end) => destruct x
      end ].

Section StableMethods.

Context (P : World -> Prop) `{!Stable P}.

Lemma keep_worker_discarded w : preserves P (_worker_discarded w).
Proof. unfold _worker_discarded. keep. Qed.

Lemma keep_next_task : preserves P _next_task.
Proof. unfold _next_task. keep. Qed.

Lemma keep_discard_after w t : preserves P (_discard_after w t).
Proof. unfold _discard_after. keep. Qed.

Lemma keep_discard w : preserves P (_discard w).
Proof. unfold _discard. keep. Qed.

Lemma keep_run_callable w t d : preserves P (run_callable w t d).
Proof. unfold run_callable. keep. Qed.

Lemma keep_execute_task w : preserves P (_execute_task w).
Proof. unfold _execute_task. keep. apply keep_discard_after. Qed.

Lemma keep_run w : preserves P (_run w).
Proof.
  unfold _run. keep.
  intros σ H. by apply preserves_while_True; [apply keep_execute_task|].
Qed.

Lemma keep_join w : preserves P (join w).
Proof. unfold join. keep. Qed.

Lemma keep_dispatch c t : preserves P (dispatch c t).
Proof. unfold dispatch. keep. Qed.

Context `{!KeepsSetRunning P}.

Lemma keep_start : preserves P start.
Proof. unfold start. keep. Qed.

Lemma keep_stop wait : preserves P (stop wait).
Proof. unfold stop. keep. Qed.

End StableMethods.

(** Unfold one elementary action applied to a world. *)
Ltac unfold_action :=
  unfold KeepsEmit, KeepsTasks, KeepsAddWorker, KeepsWorkerStopped, KeepsSetTask,
    KeepsSetDiscarded, KeepsSetRunning,
    preserves, emit, on_tasks, _add_worker, _worker_stopped, set_task,
    set_discarded, set_running, set_executor, set_worker, worker, self, raise,
    _Worker__init__, name, mbind, mret, M_bind, M_ret.

Section StableInstances.

Global Instance running_is_stable b : Stable (running_is b).
Proof.
  split; unfold running_is; unfold_action; intros; simpl;
    repeat case_match; simplify_eq/=; auto.
Qed.

Global Instance counter_ge_stable k : Stable (counter_ge k).
Proof.
  split; unfold counter_ge; unfold_action; intros; simpl;
    repeat case_match; simplify_eq/=; auto; lia.
Qed.

Global Instance counter_ge_set_running k : KeepsSetRunning (counter_ge k).
Proof. unfold counter_ge; unfold_action; intros; simpl; auto. Qed.

Global Instance refs_valid_stable : Stable refs_valid.
Proof.
  split; unfold refs_valid, set_Forall; unfold_action.
  - intros ev σ H w Hw. by apply H.
  - intros A f σ H w. simpl. destruct (f _). simpl. apply H.
  - intros σ H w. simpl. rewrite length_app. simpl.
    intros Hw. apply elem_of_union in Hw as [Hw|Hw].
    + apply elem_of_singleton in Hw. lia.
    + specialize (H w Hw). lia.
  - intros w0 σ H w. simpl. case_match; simpl; [|apply H].
    intros Hw. apply H. by apply elem_of_difference in Hw as [Hw _].
  - intros w0 t σ H w. destruct (objects σ !! w0); simpl; [|apply H].
    rewrite length_insert. apply H.
  - intros w0 σ H w. destruct (objects σ !! w0); simpl; [|apply H].
    rewrite length_insert. apply H.
Qed.

Global Instance refs_valid_set_running : KeepsSetRunning refs_valid.
Proof. unfold refs_valid, set_Forall; unfold_action; intros; simpl in *; auto. Qed.

Global Instance names_inv_stable n : Stable (names_inv n).
Proof.
  split; unfold names_inv; unfold_action.
  - intros ev σ H. exact H.
  - intros A f σ H. simpl. destruct (f _). exact H.
  - intros σ (Hn & Hid & Hobj). simpl. split; [done|]. split.
    + rewrite length_app. simpl. lia.
    + intros i o [Hi|[Hi Hnew]]%lookup_app_Some; [by apply Hobj|].
      apply list_lookup_singleton_Some in Hnew as [Hi0 <-]. simpl.
      unfold worker_name. rewrite Hn, Hid. do 3 f_equal. lia.
  - intros w σ H. simpl. case_match; exact H.
  - intros w t σ (Hn & Hid & Hobj).
    destruct (objects σ !! w) as [o0|] eqn:Hw; simpl; [|done].
    split; [done|]. rewrite length_insert. split; [done|].
    intros i o [(-> & <- & _)|[_ Hi]]%list_lookup_insert_Some; simpl; auto.
  - intros w σ (Hn & Hid & Hobj).
    destruct (objects σ !! w) as [o0|] eqn:Hw; simpl; [|done].
    split; [done|]. rewrite length_insert. split; [done|].
    intros i o [(-> & <- & _)|[_ Hi]]%list_lookup_insert_Some; simpl; auto.
Qed.

Global Instance names_inv_set_running n : KeepsSetRunning (names_inv n).
Proof. unfold names_inv; unfold_action. intros b σ H. exact H. Qed.

Global Instance names_extend_stable l : Stable (names_extend l).
Proof.
  split; unfold names_extend; unfold_action.
  - intros ev σ H. exact H.
  - intros A f σ H. simpl. destruct (f _). exact H.
  - intros σ H. simpl. rewrite fmap_app. by apply prefix_app_r.
  - intros w σ H. simpl. case_match; exact H.
  - intros w t σ H.
    destruct (objects σ !! w) as [o0|] eqn:Hw; simpl; [|done].
    rewrite list_fmap_insert. simpl.
    rewrite list_insert_id; [done|]. by rewrite list_lookup_fmap, Hw.
  - intros w σ H.
    destruct (objects σ !! w) as [o0|] eqn:Hw; simpl; [|done].
    rewrite list_fmap_insert. simpl.
    rewrite list_insert_id; [done|]. by rewrite list_lookup_fmap, Hw.
Qed.

Global Instance names_extend_set_running l : KeepsSetRunning (names_extend l).
Proof. unfold names_extend; unfold_action. intros b σ H. exact H. Qed.

End StableInstances.

Section Histories.

Context (P : World -> Prop) `{!Stable P, !KeepsSetRunning P}.

Lemma keep_perform op : preserves P (perform op).
Proof.
  destruct op; simpl.
  - by apply keep_start.
  - by apply keep_stop.
  - by apply keep_dispatch.
  - by apply keep_run.
  - by apply keep_execute_task.
  - apply preserves_on_scheduler_thread; [apply keeps_emit|by apply keep_discard].
  - by apply keep_worker_discarded.
  - apply keeps_worker_stopped.
Qed.

Lemma keep_history ops σ : P σ -> P (history ops σ).
Proof.
  revert σ. induction ops as [|op ops IH]; intros σ H; simpl; [done|].
  apply IH. by apply keep_perform.
Qed.

End Histories.

(** ** Worker names *)

Lemma worker_name_inj n : Inj (=) (=) (worker_name n).
Proof.
  intros k1 k2 H. unfold worker_name in H.
  apply (inj (String.app n)) in H. apply (inj (String.app "/")) in H.
  by apply (inj pretty) in H.
Qed.

Lemma boot_names_inv n wc mt s : names_inv n (boot n wc mt s).
Proof. repeat split. intros i o Hi. by destruct i. Qed.

Lemma add_worker_counter σ :
  _worker_id (executor (exec _add_worker σ)) = _worker_id (executor σ) + 1.
Proof. reflexivity. Qed.

Lemma add_worker_objects σ :
  objects (exec _add_worker σ) =
    objects σ ++ [mkWorker (worker_name (_name (executor σ)) (_worker_id (executor σ)))
                    false None].
Proof. reflexivity. Qed.

(** C10. In every world that a pool called [n] reaches from its
    construction, the worker object built [i]-th (counting from 0) is named
    [n/i], so two different worker objects have different names; adding a
    worker raises the counter by exactly one, and no step of the pool,
    [stop] included, lowers the counter or removes or renames a worker
    object built before. *)
Theorem worker_names_distinct (n : string) (wc mt : Z) (s : Scheduler)
    (ops : list Op) :
  let σ := history ops (boot n wc mt s) in
  (forall (i : nat) (o : _Worker),
      objects σ !! i = Some o -> _thread_name o = n +:+ "/" +:+ pretty (Z.of_nat i)) /\
  (forall (i j : nat) (oi oj : _Worker),
      objects σ !! i = Some oi -> objects σ !! j = Some oj -> i ≠ j ->
      _thread_name oi ≠ _thread_name oj) /\
  _worker_id (executor (exec _add_worker σ)) = _worker_id (executor σ) + 1 /\
  (forall op : Op,
      _worker_id (executor σ) <= _worker_id (executor (exec (perform op) σ)) /\
      (_thread_name <$> objects σ) `prefix_of`
        (_thread_name <$> objects (exec (perform op) σ))).
Proof.
  intros σ.
  assert (Hinv : names_inv n σ).
  { apply (keep_history _), boot_names_inv. }
  destruct Hinv as (Hn & Hid & Hobj).
  split; [exact Hobj|]. split.
  - intros i j oi oj Hi Hj Hij Heq.
    rewrite (Hobj i oi Hi), (Hobj j oj Hj) in Heq.
    apply worker_name_inj in Heq. lia.
  - split; [apply add_worker_counter|].
    intros op. split.
    + apply (keep_perform (counter_ge (_worker_id (executor σ)))).
      unfold counter_ge. lia.
    + apply (keep_perform (names_extend (_thread_name <$> objects σ))).
      unfold names_extend. done.
Qed.

Lemma worker_names_distinct_witness :
  let σ :=
    history [Start; Dispatch ok_job (Some 5); Run 0%nat; Stop true; Start]
      (boot "jsonrpc" 2 3 always) in
  _thread_name <$> objects σ =
    ["jsonrpc/0"; "jsonrpc/1"; "jsonrpc/2"; "jsonrpc/3"; "jsonrpc/4"] /\
  _thread_name (mkWorker "jsonrpc/0" true None) ≠
    _thread_name (mkWorker "jsonrpc/2" false None).
Proof.
  split; [vm_compute; reflexivity|].
  apply (proj1 (proj2 (worker_names_distinct "jsonrpc" 2 3 always
    [Start; Dispatch ok_job (Some 5); Run 0%nat; Stop true; Start])) 0%nat 2%nat).
  - vm_compute. reflexivity.
  - vm_compute. reflexivity.
  - lia.
Defined.

(** ** dispatch *)

Lemma dispatch_not_running σ c t :
  _running (executor σ) = false -> dispatch c t σ = (Raise NotRunning, σ).
Proof. intros H. unfold dispatch; unfold_action. by rewrite H. Qed.

Lemma with_queue_same σ : with_queue (queued σ) σ = σ.
Proof. by destruct σ as [[? ? ? [? ?] ? ? ?] ? ?]. Qed.

Lemma dispatch_running σ c t :
  _running (executor σ) = true ->
  dispatch c t σ =
    if TaskQueue.len (_tasks (executor σ)) =? TaskQueue._max_tasks (_tasks (executor σ))
    then (Raise TooManyTasks, σ)
    else (Ok tt, with_queue (queued σ ++ [ATask (mkTask c t)]) σ).
Proof.
  destruct σ as [[n wc k [mt items] s ws r] objs tr]. simpl. intros ->.
  unfold dispatch, TaskQueue.put; unfold_action. simpl.
  by case (_ =? _).
Qed.

Lemma bind_ok {A B} (m : M A) (k : A -> M B) σ a σ' :
  m σ = (Ok a, σ') -> (m ≫= k) σ = k a σ'.
Proof. intros H. unfold mbind, M_bind. by rewrite H. Qed.

Lemma bind_raise {A B} (m : M A) (k : A -> M B) σ e σ' :
  m σ = (Raise e, σ') -> (m ≫= k) σ = (Raise e, σ').
Proof. intros H. unfold mbind, M_bind. by rewrite H. Qed.

Lemma stop_not_running wait σ : _running (executor (exec (stop wait) σ)) = false.
Proof.
  unfold exec, stop.
  erewrite bind_ok by reflexivity. erewrite bind_ok by reflexivity.
  match goal with
  | |- _running (executor (snd (?m ?σ1))) = false =>
      assert (Hk : preserves (running_is false) m) by keep;
      exact (Hk σ1 eq_refl)
  end.
Qed.

(** C7. [dispatch] raises [NotRunning] and leaves the world as it is when
    the executor is not running, which is the case right after
    construction and after [stop]; when it is running and the queue is
    below its capacity the call returns and the queue has grown at its tail
    by the one [Task] made of the callable and the timeout; when it is
    running and the queue is at its capacity, [TooManyTasks] comes out of
    the call and the world is as it was. *)
Theorem dispatch_contract (σ : World) (c : Callable) (t : option Z) :
  (_running (executor σ) = false -> dispatch c t σ = (Raise NotRunning, σ)) /\
  (forall n wc mt s, dispatch c t (boot n wc mt s) = (Raise NotRunning, boot n wc mt s)) /\
  (forall wait, dispatch c t (exec (stop wait) σ) = (Raise NotRunning, exec (stop wait) σ)) /\
  (_running (executor σ) = true ->
   TaskQueue.len (_tasks (executor σ)) < TaskQueue._max_tasks (_tasks (executor σ)) ->
   dispatch c t σ = (Ok tt, with_queue (queued σ ++ [ATask (mkTask c t)]) σ)) /\
  (_running (executor σ) = true ->
   TaskQueue.len (_tasks (executor σ)) = TaskQueue._max_tasks (_tasks (executor σ)) ->
   dispatch c t σ = (Raise TooManyTasks, σ)).
Proof.
  split; [apply dispatch_not_running|].
  split; [intros; by apply dispatch_not_running|].
  split; [intros; apply dispatch_not_running, stop_not_running|].
  split.
  - intros Hrun Hlt. rewrite (dispatch_running _ _ _ Hrun).
    destruct (Z.eqb_spec (TaskQueue.len (_tasks (executor σ)))
                (TaskQueue._max_tasks (_tasks (executor σ)))); [lia|done].
  - intros Hrun Heq. rewrite (dispatch_running _ _ _ Hrun).
    apply Z.eqb_eq in Heq. by rewrite Heq.
Qed.

Lemma dispatch_contract_witness :
  let σ0 := boot "pool" 1 1 never in
  let σ1 := exec start σ0 in
  let σ2 := exec (dispatch ok_job (Some 3)) σ1 in
  dispatch ok_job (Some 3) σ0 = (Raise NotRunning, σ0) /\
  dispatch ok_job (Some 3) σ1 =
    (Ok tt, with_queue (queued σ1 ++ [ATask (mkTask ok_job (Some 3))]) σ1) /\
  dispatch bad_job None σ2 = (Raise TooManyTasks, σ2).
Proof.
  intros σ0 σ1 σ2. split; [|split].
  - apply (proj1 (dispatch_contract σ0 ok_job (Some 3))). reflexivity.
  - apply (proj1 (proj2 (proj2 (proj2 (dispatch_contract σ1 ok_job (Some 3)))))).
    + reflexivity.
    + vm_compute. reflexivity.
  - apply (proj2 (proj2 (proj2 (proj2 (dispatch_contract σ2 bad_job None))))).
    + reflexivity.
    + vm_compute. reflexivity.
Defined.

(** ** Replenishing the pool *)

Lemma worker_discarded_running σ w :
  _running (executor σ) = true ->
  _worker_discarded w σ =
    (Ok tt,
     exec (emit (Log_debug ("executor state: count=" +:+
                   pretty (size ({[length (objects σ)]} ∪ _workers (executor σ))))))
       (exec _add_worker σ)).
Proof.
  intros H. unfold _worker_discarded. erewrite bind_ok by reflexivity.
  rewrite H. reflexivity.
Qed.

Lemma worker_discarded_stopped σ w :
  _running (executor σ) = false ->
  _worker_discarded w σ =
    (Ok tt,
     exec (emit (Log_debug ("executor state: count=" +:+
                   pretty (size (_workers (executor σ)))))) σ).
Proof.
  intros H. unfold _worker_discarded. erewrite bind_ok by reflexivity.
  rewrite H. reflexivity.
Qed.

Lemma spawned_snoc σ ev :
  spawned (exec (emit ev) σ) = (spawned σ + if is_thread_start ev then 1 else 0)%nat.
Proof.
  unfold spawned, exec, emit. simpl. rewrite List.filter_app, length_app. simpl.
  by destruct (is_thread_start ev).
Qed.

Lemma spawned_add_worker σ : spawned (exec _add_worker σ) = S (spawned σ).
Proof.
  unfold spawned, exec. simpl. rewrite List.filter_app, length_app. simpl. lia.
Qed.

(** Every world that a pool reaches from its construction has a live set
    of references to constructed objects. *)
Lemma history_refs_valid n wc mt s ops : refs_valid (history ops (boot n wc mt s)).
Proof.
  apply (keep_history _). unfold refs_valid, boot. simpl. apply set_Forall_empty.
Qed.

(** C2. When [_worker_discarded] is called on a running executor, one
    worker object is built, its thread is started and its reference, which
    was not in the live set, is added to it; the worker gets the next name.
    When the executor is not running, no worker object is built, no thread
    is started and the live set stays as it is.  The call returns in both
    cases. *)
Theorem worker_discarded_replenishes (σ : World) (w : nat) :
  let σ' := exec (_worker_discarded w) σ in
  fst (_worker_discarded w σ) = Ok tt /\
  (_running (executor σ) = true -> refs_valid σ ->
     objects σ' =
       objects σ ++ [mkWorker (worker_name (_name (executor σ)) (_worker_id (executor σ)))
                       false None] /\
     spawned σ' = S (spawned σ) /\
     (length (objects σ) ∉ _workers (executor σ)) /\
     _workers (executor σ') = {[length (objects σ)]} ∪ _workers (executor σ) /\
     size (_workers (executor σ')) = S (size (_workers (executor σ)))) /\
  (_running (executor σ) = false ->
     objects σ' = objects σ /\
     spawned σ' = spawned σ /\
     _workers (executor σ') = _workers (executor σ)).
Proof.
  intros σ'. subst σ'. unfold exec at 1 2 3 4 5 6 7.
  destruct (_running (executor σ)) eqn:Hrun.
  - rewrite (worker_discarded_running σ w Hrun). split; [done|]. split; [|done].
    intros _ Hvalid. simpl.
    assert (Hfresh : length (objects σ) ∉ _workers (executor σ)).
    { intros Hin. specialize (Hvalid _ Hin). simpl in Hvalid. lia. }
    split; [done|]. split.
    { rewrite spawned_snoc. simpl. rewrite Nat.add_0_r. apply spawned_add_worker. }
    split; [done|]. split; [done|].
    rewrite size_union by set_solver. by rewrite size_singleton.
  - rewrite (worker_discarded_stopped σ w Hrun). split; [done|]. split; [done|].
    intros _. simpl. split; [done|]. split; [|done].
    rewrite spawned_snoc. simpl. lia.
Qed.

Lemma worker_discarded_replenishes_witness :
  let σ := exec start (boot "pool" 2 4 never) in
  let σ' := exec (_worker_discarded 0%nat) σ in
  objects σ' = objects σ ++ [mkWorker "pool/2" false None] /\
  spawned σ' = 3%nat /\
  elements (_workers (executor σ')) = [2%nat; 1%nat; 0%nat] /\
  spawned (exec (_worker_discarded 0%nat) (exec (stop false) σ)) = 2%nat.
Proof.
  intros σ σ'.
  destruct (proj1 (proj2 (worker_discarded_replenishes σ 0%nat))) as (Hobj & Hsp & _ & Hws & _).
  - reflexivity.
  - apply (bool_decide_unpack _). vm_compute. reflexivity.
  - split; [exact Hobj|]. split; [exact Hsp|]. split.
    + fold σ'. vm_compute. reflexivity.
    + destruct (proj2 (proj2 (worker_discarded_replenishes (exec (stop false) σ) 0%nat)))
        as (_ & Hsp' & _); [reflexivity|].
      rewrite Hsp'. vm_compute. reflexivity.
Defined.

(** ** Discarding a worker *)

Lemma worker_ok σ w o : objects σ !! w = Some o -> worker w σ = (Ok o, σ).
Proof. intros H. unfold worker. by rewrite H. Qed.

Lemma set_discarded_ok σ w o :
  objects σ !! w = Some o ->
  set_discarded w σ =
    (Ok tt, mkWorld (executor σ)
              (<[w := mkWorker (_thread_name o) true (_task o)]> (objects σ))
              (trace σ)).
Proof.
  intros H. unfold set_discarded. by erewrite bind_ok by (by apply worker_ok).
Qed.

Lemma worker_discarded_objects σ w i o :
  objects σ !! i = Some o ->
  objects (exec (_worker_discarded w) σ) !! i = Some o.
Proof.
  intros H. unfold exec. destruct (_running (executor σ)) eqn:Hrun.
  - rewrite (worker_discarded_running σ w Hrun). simpl. by apply lookup_app_l_Some.
  - by rewrite (worker_discarded_stopped σ w Hrun).
Qed.

Lemma worker_discarded_ok σ w : fst (_worker_discarded w σ) = Ok tt.
Proof.
  destruct (_running (executor σ)) eqn:Hrun.
  - by rewrite (worker_discarded_running σ w Hrun).
  - by rewrite (worker_discarded_stopped σ w Hrun).
Qed.

(** The two cases of [_discard]. *)
Lemma discard_cases (σ : World) (w : nat) (o : _Worker) :
  objects σ !! w = Some o ->
  (_discarded o = true ->
   _discard w σ = (Raise (AssertionError "Attempt to discard worker twice"), σ)) /\
  (_discarded o = false ->
   let σ1 :=
     mkWorld (executor σ)
       (<[w := mkWorker (_thread_name o) true (_task o)]> (objects σ))
       (trace σ ++ [Log_debug ("Worker discarded: " +:+ _thread_name o)]) in
   _discard w σ = _worker_discarded w σ1 /\
   fst (_discard w σ) = Ok tt /\
   objects (exec (_discard w) σ) !! w =
     Some (mkWorker (_thread_name o) true (_task o))).
Proof.
  intros Hw. split; intros Hflag.
  - unfold _discard. erewrite bind_ok by (by apply worker_ok). by rewrite Hflag.
  - intros σ1.
    assert (Heq : _discard w σ = _worker_discarded w σ1).
    { unfold _discard. erewrite bind_ok by (by apply worker_ok). rewrite Hflag.
      erewrite bind_ok by (by apply set_discarded_ok).
      by erewrite bind_ok by reflexivity. }
    split; [exact Heq|]. unfold exec. rewrite Heq. split.
    + apply worker_discarded_ok.
    + apply worker_discarded_objects. subst σ1. simpl.
      apply list_lookup_insert_eq. by apply lookup_lt_Some in Hw.
Qed.

(** C3. [_discard] on a worker whose flag is already set raises
    [AssertionError] and changes nothing.  On a worker whose flag is not
    set it sets the flag, logs, and then makes one call of
    [_worker_discarded] for this worker, whose outcome is the outcome of
    [_discard]; the call returns and leaves the flag set. *)
Theorem discard_once (σ : World) (w : nat) (o : _Worker) :
  objects σ !! w = Some o ->
  (_discarded o = true ->
   _discard w σ = (Raise (AssertionError "Attempt to discard worker twice"), σ)) /\
  (_discarded o = false ->
   let σ1 :=
     mkWorld (executor σ)
       (<[w := mkWorker (_thread_name o) true (_task o)]> (objects σ))
       (trace σ ++ [Log_debug ("Worker discarded: " +:+ _thread_name o)]) in
   _discard w σ = _worker_discarded w σ1 /\
   fst (_discard w σ) = Ok tt /\
   objects (exec (_discard w) σ) !! w =
     Some (mkWorker (_thread_name o) true (_task o))).
Proof. apply discard_cases. Qed.

Lemma discard_once_witness :
  let σ := exec start (boot "pool" 1 2 never) in
  let σ' := exec (_discard 0%nat) σ in
  fst (_discard 0%nat σ) = Ok tt /\
  objects σ' !! 0%nat = Some (mkWorker "pool/0" true None) /\
  _discard 0%nat σ' =
    (Raise (AssertionError "Attempt to discard worker twice"), σ').
Proof.
  intros σ σ'.
  destruct (proj2 (discard_once σ 0%nat (mkWorker "pool/0" false None) eq_refl) eq_refl)
    as (_ & Hok & Hflag).
  split; [exact Hok|]. split; [exact Hflag|].
  apply (proj1 (discard_once σ' 0%nat (mkWorker "pool/0" true None) Hflag)).
  reflexivity.
Defined.

(** ** The running flag *)

Lemma add_worker_ok σ : _add_worker σ = (Ok tt, exec _add_worker σ).
Proof. reflexivity. Qed.

Lemma for_range_add_worker_ok n σ : fst (for_range n _add_worker σ) = Ok tt.
Proof.
  revert σ. induction n as [|n IH]; intros σ; simpl; [done|].
  rewrite (bind_ok _ _ _ _ _ (add_worker_ok σ)). apply IH.
Qed.

Lemma start_when_stopped σ :
  _running (executor σ) = false ->
  fst (start σ) = Ok tt /\ _running (executor (exec start σ)) = true.
Proof.
  intros H. unfold exec, start.
  erewrite bind_ok by reflexivity. erewrite bind_ok by reflexivity.
  simpl. rewrite H. erewrite bind_ok by reflexivity.
  split; [apply for_range_add_worker_ok|].
  match goal with
  | |- _running (executor (snd (?m ?σ1))) = true =>
      assert (Hk : preserves (running_is true) m) by keep;
      exact (Hk σ1 eq_refl)
  end.
Qed.

Lemma start_when_running σ :
  _running (executor σ) = true ->
  start σ = (Raise AlreadyStarted, exec (emit (Log_debug "Starting executor")) σ).
Proof.
  intros H. unfold start.
  erewrite bind_ok by reflexivity. erewrite bind_ok by reflexivity.
  simpl. by rewrite H.
Qed.

Lemma other_steps_keep_running op σ :
  is_start_or_stop op = false ->
  _running (executor (exec (perform op) σ)) = _running (executor σ).
Proof.
  intros Hop.
  assert (Hk : preserves (running_is (_running (executor σ))) (perform op)).
  { destruct op; simplify_eq/=.
    - apply keep_dispatch, _.
    - apply keep_run, _.
    - apply keep_execute_task, _.
    - apply preserves_on_scheduler_thread; [apply stable_emit|apply keep_discard, _].
    - apply keep_worker_discarded, _.
    - apply stable_worker_stopped. }
  by apply Hk.
Qed.

(** C4, the claim refuted: after [start] and [stop], a second [start]
    returns normally and the executor is running again. *)
Lemma start_after_stop_succeeds :
  let σ := exec (stop true) (exec start (boot "pool" 1 1 never)) in
  _running (executor σ) = false /\
  fst (start σ) = Ok tt /\
  _running (executor (exec start σ)) = true.
Proof. vm_compute. auto. Qed.

(** C4, as the code has it.  [self._running] is false after construction.
    [start] succeeds exactly when the flag is false, and then sets it;
    called on a running executor it raises [AlreadyStarted] and the flag
    stays set.  [stop] leaves the flag false, however it ends.  No other
    step of the pool changes the flag.  Nothing remembers that the
    executor was stopped: [start] after [stop] succeeds and sets the flag
    again. *)
Theorem running_flag_follows_start_and_stop (σ : World) :
  (forall n wc mt s, _running (executor (boot n wc mt s)) = false) /\
  (_running (executor σ) = false ->
     fst (start σ) = Ok tt /\ _running (executor (exec start σ)) = true) /\
  (_running (executor σ) = true ->
     fst (start σ) = Raise AlreadyStarted /\ _running (executor (exec start σ)) = true) /\
  (forall wait, _running (executor (exec (stop wait) σ)) = false) /\
  (forall op, is_start_or_stop op = false ->
     _running (executor (exec (perform op) σ)) = _running (executor σ)) /\
  (forall wait,
     fst (start (exec (stop wait) σ)) = Ok tt /\
     _running (executor (exec start (exec (stop wait) σ))) = true).
Proof.
  split; [done|]. split; [apply start_when_stopped|]. split.
  { intros H. unfold exec. by rewrite (start_when_running σ H). }
  split; [intros; apply stop_not_running|].
  split; [intros; by apply other_steps_keep_running|].
  intros wait. apply start_when_stopped, stop_not_running.
Qed.

Lemma running_flag_follows_start_and_stop_witness :
  let σ0 := boot "pool" 2 2 never in
  let σ1 := exec start σ0 in
  (fst (start σ0) = Ok tt /\ _running (executor σ1) = true) /\
  (fst (start σ1) = Raise AlreadyStarted /\ _running (executor (exec start σ1)) = true) /\
  _running (executor (exec (perform (Dispatch ok_job None)) σ1)) = _running (executor σ1).
Proof.
  intros σ0 σ1. split; [|split].
  - apply (proj1 (proj2 (running_flag_follows_start_and_stop σ0))). reflexivity.
  - apply (proj1 (proj2 (proj2 (running_flag_follows_start_and_stop σ1)))). reflexivity.
  - apply (proj1 (proj2 (proj2 (proj2 (proj2 (running_flag_follows_start_and_stop σ1)))))).
    reflexivity.
Defined.

(** ** stop *)

(** Putting [n] sentinels, one after the other, into a queue with room for
    them. *)
Lemma put_sentinels_ok n σ :
  ((0 < n)%nat ->
   Z.of_nat (length (queued σ)) + Z.of_nat n <= TaskQueue._max_tasks (_tasks (executor σ))) ->
  for_range n (on_tasks (TaskQueue.put _STOP)) σ =
    (Ok tt, with_queue (queued σ ++ replicate n _STOP) σ).
Proof.
  revert σ. induction n as [|n IH]; intros σ Hroom.
  - simpl. rewrite app_nil_r. by rewrite with_queue_same.
  - specialize (Hroom ltac:(lia)). cbn [for_range].
    assert (Hput : on_tasks (TaskQueue.put _STOP) σ =
                     (Ok tt, with_queue (queued σ ++ [_STOP]) σ)).
    { unfold on_tasks. rewrite put_room; [done|].
      unfold TaskQueue.len, queued in *. lia. }
    rewrite (bind_ok _ _ _ _ _ Hput). rewrite IH.
    + unfold with_queue, queued. simpl. by rewrite <- app_assoc.
    + intros _. unfold with_queue, queued in *. cbn [executor _tasks TaskQueue._tasks
        TaskQueue._max_tasks]. rewrite length_app. cbn [length].
      rewrite Nat2Z.inj_add. rewrite Nat2Z.inj_succ in Hroom. lia.
Qed.

Lemma join_all_ok ws σ :
  Forall (fun w => (w < length (objects σ))%nat) ws ->
  fst (for_each ws join σ) = Ok tt /\
  executor (snd (for_each ws join σ)) = executor σ /\
  objects (snd (for_each ws join σ)) = objects σ.
Proof.
  revert σ. induction ws as [|w ws IH]; intros σ Hws; [done|].
  apply Forall_cons in Hws as [Hw Hws].
  destruct (lookup_lt_is_Some_2 _ _ Hw) as [o Ho].
  cbn [for_each].
  assert (Hjoin : join w σ =
            (Ok tt, mkWorld (executor σ) (objects σ)
                      (trace σ ++ [Log_debug ("Waiting for worker " +:+ _thread_name o);
                                   Thread_join w]))).
  { unfold join. rewrite (bind_ok _ _ _ _ _ (worker_ok σ w o Ho)).
    erewrite bind_ok by reflexivity. unfold emit. simpl. by rewrite <- app_assoc. }
  rewrite (bind_ok _ _ _ _ _ Hjoin). apply (IH (mkWorld _ _ _)). exact Hws.
Qed.

(** When the queue has room for one sentinel per worker slot, [stop]
    returns and leaves exactly these sentinels in the queue. *)
Lemma stop_with_room σ wait :
  refs_valid σ ->
  _workers_count (executor σ) <= TaskQueue._max_tasks (_tasks (executor σ)) ->
  fst (stop wait σ) = Ok tt /\
  queued (exec (stop wait) σ) = replicate (Z.to_nat (_workers_count (executor σ))) _STOP /\
  _running (executor (exec (stop wait) σ)) = false.
Proof.
  intros Hvalid Hroom.
  set (n := Z.to_nat (_workers_count (executor σ))).
  set (σ2 := exec (on_tasks (fun q => (Ok tt, TaskQueue.clear q)))
               (exec (set_running false)
                  (exec (emit (Log_debug "Stopping executor")) σ))).
  assert (Hput : for_range n (on_tasks (TaskQueue.put _STOP)) σ2 =
                   (Ok tt, with_queue (replicate n _STOP) σ2)).
  { apply (put_sentinels_ok n σ2).
    intros Hn.
    change (Z.of_nat 0 + Z.of_nat n <= TaskQueue._max_tasks (_tasks (executor σ))).
    subst n. lia. }
  assert (Hjoin : Forall (fun w => (w < length (objects (with_queue (replicate n _STOP) σ2)))%nat)
                    (if wait then elements (_workers (executor σ)) else [])).
  { destruct wait; [|done].
    apply Forall_forall. intros w Hw%elem_of_elements.
    by apply Hvalid. }
  destruct (join_all_ok _ _ Hjoin) as (Hok & Hex & _).
  assert (Hstop : stop wait σ =
            for_each (if wait then elements (_workers (executor σ)) else []) join
              (with_queue (replicate n _STOP) σ2)).
  { unfold stop.
    erewrite bind_ok by reflexivity. erewrite bind_ok by reflexivity.
    erewrite bind_ok by reflexivity. erewrite bind_ok by reflexivity.
    erewrite bind_ok by exact Hput. by erewrite bind_ok by reflexivity. }
  split; [|split; [|apply stop_not_running]]; unfold exec; rewrite Hstop.
  - exact Hok.
  - unfold queued. by rewrite Hex.
Qed.

(** C5, the failing input.  A pool of two workers over a queue of capacity
    one: [stop] clears the flag, empties the queue and enqueues the first
    sentinel; the second [put] raises [TooManyTasks], which leaves [stop]
    before any worker is joined. *)
Theorem stop_overflows_small_queue :
  let σ := exec (dispatch ok_job None) (exec start (boot "pool" 2 1 never)) in
  queued σ = [ATask (mkTask ok_job None)] /\
  fst (stop true σ) = Raise TooManyTasks /\
  _running (executor (exec (stop true) σ)) = false /\
  queued (exec (stop true) σ) = [_STOP] /\
  Forall (fun ev => forall w, ev ≠ Thread_join w) (trace (exec (stop true) σ)).
Proof.
  vm_compute. repeat split; auto.
  repeat (constructor; [intros w; discriminate|]). constructor.
Qed.

(** ** One iteration of a worker *)

Section IterationInstances.

Global Instance traced_stable ev : Stable (traced ev).
Proof.
  split; unfold traced; unfold_action.
  - intros ev' σ H. simpl. apply elem_of_app. by left.
  - intros A f σ H. simpl. by destruct (f _).
  - intros σ H. simpl. apply elem_of_app. by left.
  - intros w σ H. simpl. by case_match.
  - intros w t σ H. by destruct (objects σ !! w).
  - intros w σ H. by destruct (objects σ !! w).
Qed.

Global Instance traced_set_running ev : KeepsSetRunning (traced ev).
Proof. unfold traced; unfold_action. by intros b σ H. Qed.

Global Instance queue_is_emit l : KeepsEmit (queue_is l).
Proof. unfold queue_is, queued; unfold_action. by intros ev σ H. Qed.
Global Instance queue_is_add_worker l : KeepsAddWorker (queue_is l).
Proof. unfold queue_is, queued; unfold_action. by intros σ H. Qed.
Global Instance queue_is_worker_stopped l : KeepsWorkerStopped (queue_is l).
Proof. unfold queue_is, queued; unfold_action. intros w σ H. simpl. by case_match. Qed.
Global Instance queue_is_set_task l : KeepsSetTask (queue_is l).
Proof.
  unfold queue_is, queued; unfold_action. intros w t σ H.
  by destruct (objects σ !! w).
Qed.
Global Instance queue_is_set_discarded l : KeepsSetDiscarded (queue_is l).
Proof.
  unfold queue_is, queued; unfold_action. intros w σ H.
  by destruct (objects σ !! w).
Qed.

Global Instance live_emit w : KeepsEmit (live w).
Proof. unfold live; unfold_action. by intros ev σ H. Qed.
Global Instance live_tasks w : KeepsTasks (live w).
Proof. unfold live; unfold_action. intros A f σ H. simpl. by destruct (f _). Qed.
Global Instance live_add_worker w : KeepsAddWorker (live w).
Proof. unfold live; unfold_action. intros σ H. simpl. apply elem_of_union. by right. Qed.
Global Instance live_set_task w : KeepsSetTask (live w).
Proof. unfold live; unfold_action. intros w' t σ H. by destruct (objects σ !! w'). Qed.
Global Instance live_set_discarded w : KeepsSetDiscarded (live w).
Proof. unfold live; unfold_action. intros w' σ H. by destruct (objects σ !! w'). Qed.

Global Instance flag_set_stable w : Stable (flag_of w true).
Proof.
  split; unfold flag_of; unfold_action.
  - by intros ev' σ H.
  - intros A f σ H. simpl. by destruct (f _).
  - intros σ (o & Ho & Hd). simpl. exists o. split; [|done].
    by apply lookup_app_l_Some.
  - intros w' σ H. simpl. by case_match.
  - intros w' t σ (o & Ho & Hd).
    destruct (objects σ !! w') as [o'|] eqn:Hw'; simpl; [|by exists o].
    destruct (decide (w' = w)) as [->|Hne].
    + simplify_eq. eexists. split.
      * apply list_lookup_insert_eq. by apply lookup_lt_Some in Ho.
      * done.
    + exists o. by rewrite list_lookup_insert_ne.
  - intros w' σ (o & Ho & Hd).
    destruct (objects σ !! w') as [o'|] eqn:Hw'; simpl; [|by exists o].
    destruct (decide (w' = w)) as [->|Hne].
    + eexists. split.
      * apply list_lookup_insert_eq. by apply lookup_lt_Some in Hw'.
      * done.
    + exists o. by rewrite list_lookup_insert_ne.
Qed.

Global Instance named_stable w n : Stable (named w n).
Proof.
  split; unfold named; unfold_action.
  - by intros ev' σ H.
  - intros A f σ H. simpl. by destruct (f _).
  - intros σ (o & Ho & Hd). simpl. exists o. split; [|done].
    by apply lookup_app_l_Some.
  - intros w' σ H. simpl. by case_match.
  - intros w' t σ (o & Ho & Hd).
    destruct (objects σ !! w') as [o'|] eqn:Hw'; simpl; [|by exists o].
    destruct (decide (w' = w)) as [->|Hne].
    + simplify_eq. eexists. split.
      * apply list_lookup_insert_eq. by apply lookup_lt_Some in Ho.
      * done.
    + exists o. by rewrite list_lookup_insert_ne.
  - intros w' σ (o & Ho & Hd).
    destruct (objects σ !! w') as [o'|] eqn:Hw'; simpl; [|by exists o].
    destruct (decide (w' = w)) as [->|Hne].
    + simplify_eq. eexists. split.
      * apply list_lookup_insert_eq. by apply lookup_lt_Some in Ho.
      * done.
    + exists o. by rewrite list_lookup_insert_ne.
Qed.

End IterationInstances.

Section Iteration.

Implicit Types (σ : World) (w : nat) (t : Task) (o : _Worker).

Lemma next_task_task σ t rest :
  queued σ = ATask t :: rest -> _next_task σ = (Ok t, with_queue rest σ).
Proof.
  intros Hq. unfold _next_task, on_tasks, TaskQueue.get, queued in *.
  unfold mbind, M_bind. by rewrite Hq.
Qed.

Lemma next_task_stop σ rest :
  queued σ = _STOP :: rest -> _next_task σ = (Raise NotRunning, with_queue rest σ).
Proof.
  intros Hq. unfold _next_task, on_tasks, TaskQueue.get, queued in *.
  unfold mbind, M_bind. by rewrite Hq.
Qed.

Lemma next_task_empty σ : queued σ = [] -> _next_task σ = (Blocked, σ).
Proof.
  intros Hq. unfold _next_task, on_tasks, TaskQueue.get, queued in *.
  unfold mbind, M_bind. rewrite Hq. simpl. f_equal.
  destruct σ as [[? ? ? [? ?] ? ? ?] ? ?]. simpl in *. by subst.
Qed.

Lemma set_task_ok σ w o task :
  objects σ !! w = Some o ->
  set_task w task σ =
    (Ok tt, mkWorld (executor σ)
              (<[w := mkWorker (_thread_name o) (_discarded o) task]> (objects σ))
              (trace σ)).
Proof.
  intros H. unfold set_task. by erewrite bind_ok by (by apply worker_ok).
Qed.

(** The timer callback on the scheduler thread: the scheduler gets what
    [_discard] raises, and the flag of the worker is set afterwards. *)
Lemma scheduler_discard σ w o :
  objects σ !! w = Some o ->
  fst (on_scheduler_thread (_discard w) σ) = Ok tt /\
  flag_of w true (snd (on_scheduler_thread (_discard w) σ)).
Proof.
  intros Hw. destruct (discard_cases σ w o Hw) as [Htwice Honce].
  unfold on_scheduler_thread. destruct (_discarded o) eqn:Hd.
  - rewrite (Htwice eq_refl). split; [done|]. by exists o.
  - destruct (Honce eq_refl) as (_ & Hok & Hflag). unfold exec in Hflag.
    destruct (_discard w σ) as [[[]|e|] σ']; simplify_eq/=.
    split; [done|]. by eexists.
Qed.

(** The call of the callable of [t] by the worker [w], with the timer
    [discard] armed or not. *)
Lemma run_callable_spec σ w o t (discard : option Handle) :
  objects σ !! w = Some o ->
  let fired :=
    match discard with
    | Some (handle delay _) => fires (_scheduler (executor σ)) delay (callable t)
    | None => false
    end in
  let r := run_callable w t discard σ in
  fst r = match call (callable t) with Returns => Ok tt | Raises e => Raise e end /\
  flag_of w (_discarded o || fired) (snd r) /\
  traced (Called (callable t)) (snd r) /\
  (forall l, queue_is l σ -> queue_is l (snd r)) /\
  (live w σ -> live w (snd r)) /\
  (forall P, Stable P -> P σ -> P (snd r)).
Proof.
  intros Hw fired r. subst r. unfold run_callable.
  erewrite bind_ok by reflexivity. erewrite bind_ok by reflexivity.
  set (σ1 := mkWorld (executor σ) (objects σ) (trace σ ++ [Called (callable t)])).
  assert (Hw1 : objects σ1 !! w = Some o) by done.
  assert (Hcalled : traced (Called (callable t)) σ1).
  { unfold traced. simpl. apply elem_of_app. right. by apply list_elem_of_singleton. }
  assert (Htr1 : forall P, Stable P -> P σ -> P σ1).
  { intros P HP Hev. by apply (keeps_emit _ σ). }
  match goal with |- context [(?sched ≫= ?k) σ1] => set (m := sched) end.
  assert (Hsched : fst (m σ1) = Ok tt /\
            flag_of w (_discarded o || fired) (snd (m σ1)) /\
            (forall P, Stable P -> P σ1 -> P (snd (m σ1))) /\
            (forall l, queue_is l σ1 -> queue_is l (snd (m σ1))) /\
            (live w σ1 -> live w (snd (m σ1)))).
  { subst m. change (_scheduler (executor σ1)) with (_scheduler (executor σ)).
    assert (Hstay : fst (@mret M _ _ tt σ1) = Ok tt /\
              flag_of w (_discarded o || false) (snd (@mret M _ _ tt σ1)) /\
              (forall P, Stable P -> P σ1 -> P (snd (@mret M _ _ tt σ1))) /\
              (forall l, queue_is l σ1 -> queue_is l (snd (@mret M _ _ tt σ1))) /\
              (live w σ1 -> live w (snd (@mret M _ _ tt σ1)))).
    { split; [done|]. split; [|done]. exists o. by rewrite orb_false_r. }
    destruct discard as [[delay w']|]; subst fired; [|exact Hstay].
    destruct (fires (_scheduler (executor σ)) delay (callable t)); [|exact Hstay].
    rewrite orb_true_r.
    destruct (scheduler_discard σ1 w o Hw1) as [Hok Hflag].
    split; [exact Hok|]. split; [exact Hflag|]. split; [|split].
    - intros P HP. apply preserves_on_scheduler_thread; [apply keeps_emit|].
      by apply keep_discard.
    - intros l. apply preserves_on_scheduler_thread; [apply keeps_emit|].
      unfold _discard. keep.
    - apply preserves_on_scheduler_thread; [apply keeps_emit|].
      unfold _discard. keep. }
  destruct Hsched as (Hok & Hflag & Hstable & Hqueue & Hlive).
  destruct (m σ1) as [r σ2] eqn:Hm. cbn [fst snd] in *. subst r.
  rewrite (bind_ok _ _ _ _ _ Hm).
  destruct (call (callable t)) as [|e]; cbn [fst snd mret M_ret raise].
  all: split; [done|]; split; [exact Hflag|]; split; [by apply (Hstable _ _)|].
  all: split; [intros l Hl; by apply Hqueue|]; split; [exact Hlive|].
  all: intros P HP Hev; apply (Hstable _ _); by apply Htr1.
Qed.

(** One iteration that finds a task at the head of the queue. *)
Lemma execute_task_spec σ w o t rest :
  objects σ !! w = Some o ->
  queued σ = ATask t :: rest ->
  let flag := _discarded o || timer_fires σ t in
  let r := _execute_task w σ in
  fst r = iteration_result flag t /\
  queue_is rest (snd r) /\
  objects (snd r) !! w = Some (mkWorker (_thread_name o) flag None) /\
  traced (Called (callable t)) (snd r) /\
  (live w σ -> live w (snd r)) /\
  (forall e, call (callable t) = Raises e -> is_Exception e = true ->
     traced (Log_exception "Unhandled exception in %s" t) (snd r)).
Proof.
  intros Hw Hq flag r. subst r. unfold _execute_task.
  rewrite (bind_ok _ _ _ _ _ (next_task_task σ t rest Hq)).
  set (σa := with_queue rest σ).
  (* arming the timer *)
  assert (Harm : exists d σb,
             _discard_after w (timeout t) σa = (Ok d, σb) /\
             executor σb = executor σa /\ objects σb = objects σ /\
             match d with
             | Some (handle delay _) => fires (_scheduler (executor σ)) delay (callable t)
             | None => false
             end = timer_fires σ t).
  { unfold _discard_after, timer_fires. destruct (timeout t) as [delay|].
    - by exists (Some (handle delay w)), (exec (emit (Scheduled delay w)) σa).
    - by exists None, σa. }
  destruct Harm as (d & σb & Harm & Hexb & Hobjb & Hfired).
  rewrite (bind_ok _ _ _ _ _ Harm).
  assert (Hwb : objects σb !! w = Some o) by (by rewrite Hobjb).
  rewrite (bind_ok _ _ _ _ _ (set_task_ok σb w o (Some t) Hwb)).
  set (o1 := mkWorker (_thread_name o) (_discarded o) (Some t)).
  set (σc := mkWorld (executor σb) (<[w:=o1]> (objects σb)) (trace σb)).
  assert (Hwc : objects σc !! w = Some o1).
  { apply list_lookup_insert_eq. by apply lookup_lt_Some in Hwb. }
  assert (Hqc : queue_is rest σc) by (unfold queue_is, queued; simpl; by rewrite Hexb).
  assert (Hlivec : live w σ -> live w σc) by (unfold live; simpl; by rewrite Hexb).
  (* the call *)
  destruct (run_callable_spec σc w o1 t d Hwc)
    as (Hres & (o2 & Hw2 & Hd2) & Hcalled & Hqueue & Hlive & Hstable).
  change (executor σc) with (executor σb) in Hd2. rewrite Hexb in Hd2.
  change (_scheduler (executor σa)) with (_scheduler (executor σ)) in Hd2.
  rewrite Hfired in Hd2. change (_discarded o1) with (_discarded o) in Hd2.
  fold flag in Hd2.
  specialize (Hqueue rest Hqc).
  (* the handler *)
  match goal with |- context [try_finally (try_except ?b ?h) ?f σc] =>
    set (body := try_except b h); set (fin := f) end.
  assert (Hbody : exists σf o3,
             body σc = (if caught (callable t) then Ok tt
                        else match call (callable t) with
                             | Raises e => Raise e
                             | Returns => Ok tt
                             end, σf) /\
             objects σf !! w = Some o3 /\ _discarded o3 = flag /\
             _thread_name o3 = _thread_name o /\
             queue_is rest σf /\ traced (Called (callable t)) σf /\
             (live w σ -> live w σf) /\
             (forall e, call (callable t) = Raises e -> is_Exception e = true ->
                traced (Log_exception "Unhandled exception in %s" t) σf)).
  { subst body. unfold try_except, caught.
    destruct (run_callable w t d σc) as [rb σe]. cbn [fst snd] in *. subst rb.
    assert (Hname : _thread_name o2 = _thread_name o).
    { destruct (Hstable (named w (_thread_name o)) _) as (o2' & Hw2' & Hn2).
      - by exists o1.
      - by simplify_eq. }
    destruct (call (callable t)) as [|e].
    - exists σe, o2. repeat split; auto. intros e He. discriminate.
    - destruct (is_Exception e) eqn:He.
      + eexists _, o2. split; [reflexivity|]. simpl. repeat split; auto.
        * unfold traced. simpl. apply elem_of_app. by left.
        * intros _ _ _. unfold traced. simpl. apply elem_of_app. right.
          by apply list_elem_of_singleton.
      + exists σe, o2. repeat split; auto. intros e' He' He''. congruence. }
  destruct Hbody as (σf & o3 & Hb & Hw3 & Hd3 & Hn3 & Hqf & Hcf & Hlf & Hlogf).
  (* the finally block *)
  set (o4 := mkWorker (_thread_name o) flag None).
  assert (Hfin : exists σ',
             fin σf = (if flag then Raise _WorkerDiscarded else Ok tt, σ') /\
             executor σ' = executor σf /\
             objects σ' = <[w:=o4]> (objects σf) /\
             (forall ev, traced ev σf -> traced ev σ')).
  { subst fin. rewrite (bind_ok _ _ _ _ _ (set_task_ok σf w o3 None Hw3)).
    rewrite Hd3, Hn3. fold o4.
    assert (Hlen : (w < length (objects σf))%nat) by (by apply lookup_lt_Some in Hw3).
    destruct d as [h|].
    - erewrite bind_ok by reflexivity.
      erewrite bind_ok by (apply worker_ok; simpl; by apply list_lookup_insert_eq).
      eexists. split; [by destruct flag|]. simpl. repeat split.
      intros ev Hev. unfold traced. simpl. apply elem_of_app. by left.
    - erewrite bind_ok by reflexivity.
      erewrite bind_ok by (apply worker_ok; simpl; by apply list_lookup_insert_eq).
      eexists. split; [by destruct flag|]. simpl. by repeat split. }
  destruct Hfin as (σ' & Hfin & Hex' & Hobj' & Htr').
  assert (Hend : try_finally body fin σc =
            (iteration_result flag t, σ')).
  { unfold try_finally, iteration_result, caught in *. rewrite Hb.
    destruct (call (callable t)) as [|e]; [|destruct (is_Exception e)];
      rewrite Hfin; by destruct flag. }
  rewrite Hend. cbn [fst snd].
  split; [done|]. split; [unfold queue_is, queued in *; by rewrite Hex'|].
  split; [rewrite Hobj'; apply list_lookup_insert_eq; by apply lookup_lt_Some in Hw3|].
  split; [by apply Htr'|]. split.
  - intros Hl. unfold live in *. rewrite Hex'. by apply Hlf.
  - intros e He1 He2. apply Htr'. by apply (Hlogf e).
Qed.

End Iteration.

(** ** The loop of a worker *)

Section Loop.

Implicit Types (σ : World) (w : nat).

Lemma bind_blocked {A B} (m : M A) (k : A -> M B) σ σ' :
  m σ = (Blocked, σ') -> (m ≫= k) σ = (Blocked, σ').
Proof. intros H. unfold mbind, M_bind. by rewrite H. Qed.

Lemma bind_post {A B} (P : World -> Prop) (m : M A) (k : A -> M B) σ :
  P (snd (m σ)) -> (forall a, preserves P (k a)) -> P (snd ((m ≫= k) σ)).
Proof.
  intros Hm Hk. unfold mbind, M_bind.
  destruct (m σ) as [[a|e|] σ']; simpl in *; auto. by apply Hk.
Qed.

Lemma try_except_post {A} (P : World -> Prop) (body : M A) h σ :
  P (snd (body σ)) ->
  (forall e h', h e = Some h' -> preserves P h') ->
  P (snd (try_except body h σ)).
Proof.
  intros Hb Hh. unfold try_except.
  destruct (body σ) as [[a|e|] σ']; simpl in *; auto.
  destruct (h e) as [h'|] eqn:He; [|done]. by apply (Hh e h').
Qed.

Lemma try_finally_post {A} (P : World -> Prop) (body : M A) fin σ :
  P (snd (body σ)) -> preserves P fin -> P (snd (try_finally body fin σ)).
Proof.
  intros Hb Hf. unfold try_finally.
  destruct (body σ) as [[a|e|] σ']; simpl in *; auto;
    specialize (Hf σ' Hb); by destruct (fin σ') as [[[]|e'|] σ''].
Qed.

(** An iteration that returns has taken one item off the queue. *)
Lemma execute_task_pending σ w :
  fst (_execute_task w σ) = Ok tt ->
  S (pending (snd (_execute_task w σ))) = pending σ.
Proof.
  unfold pending. fold (queued σ).
  destruct (queued σ) as [|[t|] rest] eqn:Hq; unfold _execute_task.
  - by rewrite (bind_blocked _ _ _ _ (next_task_empty σ Hq)).
  - rewrite (bind_ok _ _ _ _ _ (next_task_task σ t rest Hq)). intros _.
    match goal with |- S (length (_ (_ (_ (snd (?k ?σa)))))) = _ =>
      assert (Hk : preserves (queue_is rest) k)
    end.
    { keep. unfold _discard_after. keep. }
    specialize (Hk (with_queue rest σ) eq_refl).
    unfold queue_is, queued in Hk. by rewrite Hk.
  - by rewrite (bind_raise _ _ _ _ _ (next_task_stop σ rest Hq)).
Qed.

(** The loop does not depend on the fuel once there is more of it than
    there are items in the queue. *)
Lemma while_True_fuel w fuel σ :
  (pending σ < fuel)%nat ->
  while_True fuel (_execute_task w) σ =
    while_True (S (pending σ)) (_execute_task w) σ.
Proof.
  revert σ. induction fuel as [|n IH]; intros σ Hlt; [lia|].
  cbn [while_True]. unfold mbind, M_bind.
  pose proof (execute_task_pending σ w) as Hdec.
  destruct (_execute_task w σ) as [[[]|e|] σ']; [|done..].
  specialize (Hdec eq_refl). cbn [snd] in Hdec.
  rewrite IH by lia. rewrite <- Hdec. reflexivity.
Qed.

End Loop.

Section Run.

Implicit Types (σ : World) (w : nat) (t : Task) (o : _Worker).

Lemma worker_stopped_live σ w :
  live w σ ->
  _worker_stopped w σ =
    (Ok tt,
     mkWorld (mkExecutor (_name (executor σ)) (_workers_count (executor σ))
                (_worker_id (executor σ)) (_tasks (executor σ))
                (_scheduler (executor σ)) (_workers (executor σ) ∖ {[w]})
                (_running (executor σ)))
       (objects σ) (trace σ)).
Proof.
  intros Hl. unfold _worker_stopped. erewrite bind_ok by reflexivity.
  by rewrite decide_True.
Qed.

(** The thread function when the first iteration ends by
    [_WorkerDiscarded]. *)
Lemma run_discarded σ w o t rest :
  objects σ !! w = Some o ->
  queued σ = ATask t :: rest ->
  live w σ ->
  _discarded o || timer_fires σ t = true ->
  fst (_run w σ) = Ok tt /\
  queued (exec (_run w) σ) = rest /\
  traced (Called (callable t)) (exec (_run w) σ) /\
  ~ live w (exec (_run w) σ).
Proof.
  intros Hw Hq Hlive Hflag.
  destruct (execute_task_spec (loop_start σ o) w o t rest Hw Hq)
    as (Hres & Hqueue & _ & Hcalled & Hl & _).
  change (timer_fires (loop_start σ o) t) with (timer_fires σ t) in Hres.
  rewrite Hflag in Hres. specialize (Hl Hlive).
  destruct (_execute_task w (loop_start σ o)) as [r σ1] eqn:Hbody.
  cbn [fst snd] in *. unfold iteration_result in Hres. subst r.
  unfold exec, _run.
  rewrite (bind_ok _ _ _ _ _ (worker_ok σ w o Hw)).
  erewrite bind_ok by reflexivity. erewrite bind_ok by reflexivity.
  match goal with |- context [try_finally ?b ?f ?s] =>
    change s with (loop_start σ o) end.
  unfold try_finally, try_except. cbn beta. cbn [while_True].
  rewrite (bind_raise _ _ _ _ _ Hbody). cbn beta iota.
  set (σ2 := snd (emit (Log_debug "Worker was discarded") σ1)).
  change (emit (Log_debug "Worker was discarded") σ1) with (Ok tt, σ2).
  cbn beta iota.
  assert (Hl2 : live w σ2) by done.
  rewrite (worker_stopped_live σ2 w Hl2). cbn [fst snd].
  split; [done|]. split; [exact Hqueue|]. split.
  - unfold traced in *. simpl. apply elem_of_app. by left.
  - unfold live. simpl. intros [_ Hn]%elem_of_difference.
    apply Hn. by apply elem_of_singleton.
Qed.

(** The thread function when the first iteration returns: the loop goes
    on with the item that is next in the queue. *)
Lemma run_continues σ w o t rest :
  objects σ !! w = Some o ->
  queued σ = ATask t :: rest ->
  _discarded o || timer_fires σ t = false ->
  caught (callable t) = true ->
  (forall t2 rest2, rest = ATask t2 :: rest2 ->
     traced (Called (callable t2)) (exec (_run w) σ)) /\
  (rest = [] -> fst (_run w σ) = Blocked).
Proof.
  intros Hw Hq Hflag Hcaught.
  destruct (execute_task_spec (loop_start σ o) w o t rest Hw Hq)
    as (Hres & Hqueue & Hw1 & _).
  change (timer_fires (loop_start σ o) t) with (timer_fires σ t) in Hres, Hw1.
  rewrite Hflag in Hres, Hw1.
  assert (Hok : iteration_result false t = Ok tt).
  { unfold iteration_result, caught in *.
    destruct (call (callable t)) as [|e]; [done|]. by rewrite Hcaught. }
  rewrite Hok in Hres.
  destruct (_execute_task w (loop_start σ o)) as [r σ1] eqn:Hbody.
  cbn [fst snd] in *. subst r.
  assert (Hpending : pending (loop_start σ o) = S (length rest)).
  { unfold pending. change (length (queued σ) = S (length rest)). by rewrite Hq. }
  unfold exec, _run.
  rewrite (bind_ok _ _ _ _ _ (worker_ok σ w o Hw)).
  erewrite bind_ok by reflexivity. erewrite bind_ok by reflexivity.
  match goal with |- context [try_finally ?b ?f ?s] =>
    change s with (loop_start σ o) end.
  split.
  - intros t2 rest2 ->.
    apply try_finally_post; [|apply keeps_worker_stopped].
    apply try_except_post;
      [|intros e h' He; destruct e; simpl in He; simplify_eq; apply keeps_emit].
    cbn beta. rewrite Hpending. cbn [while_True].
    rewrite (bind_ok _ _ _ _ _ Hbody).
    apply bind_post.
    + by destruct (execute_task_spec σ1 w _ t2 rest2 Hw1 Hqueue) as (_ & _ & _ & Hc & _).
    + intros _. apply preserves_while_True. apply keep_execute_task, _.
  - intros ->. unfold try_finally, try_except. cbn beta.
    rewrite Hpending. cbn [while_True length].
    rewrite (bind_ok _ _ _ _ _ Hbody).
    assert (Hblock : _execute_task w σ1 = (Blocked, σ1)).
    { unfold _execute_task. by rewrite (bind_blocked _ _ _ _ (next_task_empty σ1 Hqueue)). }
    by rewrite (bind_blocked _ _ _ _ Hblock).
Qed.

(** The thread function when the callable of the first task raises an
    exception that [except Exception] does not catch and the flag is not
    set: no clause of [_run] matches, [finally] removes the worker and the
    exception leaves the thread function. *)
Lemma run_escapes σ w o t rest e :
  objects σ !! w = Some o ->
  queued σ = ATask t :: rest ->
  live w σ ->
  _discarded o || timer_fires σ t = false ->
  call (callable t) = Raises e ->
  is_Exception e = false ->
  fst (_execute_task w σ) = Raise e /\
  fst (_run w σ) = Raise e /\
  queued (exec (_run w) σ) = rest /\
  ~ live w (exec (_run w) σ).
Proof.
  intros Hw Hq Hlive Hflag Hcall He.
  destruct (execute_task_spec σ w o t rest Hw Hq) as (Hres0 & _).
  rewrite Hflag in Hres0. unfold iteration_result in Hres0.
  rewrite Hcall, He in Hres0. split; [exact Hres0|].
  destruct (execute_task_spec (loop_start σ o) w o t rest Hw Hq)
    as (Hres & Hqueue & _ & _ & Hl & _).
  change (timer_fires (loop_start σ o) t) with (timer_fires σ t) in Hres.
  rewrite Hflag in Hres. specialize (Hl Hlive).
  unfold iteration_result in Hres. rewrite Hcall, He in Hres.
  destruct (_execute_task w (loop_start σ o)) as [r σ1] eqn:Hbody.
  cbn [fst snd] in *. subst r.
  unfold exec, _run.
  rewrite (bind_ok _ _ _ _ _ (worker_ok σ w o Hw)).
  erewrite bind_ok by reflexivity. erewrite bind_ok by reflexivity.
  match goal with |- context [try_finally ?b ?f ?s] =>
    change s with (loop_start σ o) end.
  unfold try_finally, try_except. cbn beta. cbn [while_True].
  rewrite (bind_raise _ _ _ _ _ Hbody). cbn beta iota.
  destruct e; try discriminate He; cbn beta iota;
    rewrite (worker_stopped_live σ1 w Hl); cbn [fst snd];
    (split; [done|]); (split; [exact Hqueue|]);
    unfold live; simpl; intros [_ Hn]%elem_of_difference;
    apply Hn; by apply elem_of_singleton.
Qed.

End Run.

(** C1, the claim refuted.  A worker that is never discarded does not
    always return to fetching: when the callable raises [SystemExit] the
    exception leaves the iteration and the thread function, the flag of the
    worker is still clear, and the task queued behind is neither fetched
    nor called.  And a flag that the timer callback sets after the
    iteration has tested it is only seen at the end of the next iteration:
    the discarded worker takes the next task off the queue and calls it
    before it exits. *)
Lemma undiscarded_worker_stops_on_system_exit :
  let σ := exec (dispatch ok_job None)
             (exec (dispatch exit_job None) (exec start (boot "pool" 1 2 never))) in
  let τ := history [Start; Dispatch ok_job (Some 5); Dispatch bad_job None;
                    ExecuteTask 0%nat; Discard 0%nat]
             (boot "pool" 1 2 never) in
  (objects σ !! 0%nat = Some (mkWorker "pool/0" false None) /\
   fst (_run 0%nat σ) = Raise SystemExit /\
   objects (exec (_run 0%nat) σ) !! 0%nat = Some (mkWorker "pool/0" false None) /\
   queued (exec (_run 0%nat) σ) = [ATask (mkTask ok_job None)] /\
   Forall (fun ev => ev ≠ Called ok_job) (trace (exec (_run 0%nat) σ))) /\
  (objects τ !! 0%nat = Some (mkWorker "pool/0" true None) /\
   queued τ = [ATask (mkTask bad_job None)] /\
   fst (_execute_task 0%nat τ) = Raise _WorkerDiscarded /\
   queued (exec (_execute_task 0%nat) τ) = [] /\
   traced (Called bad_job) (exec (_execute_task 0%nat) τ)).
Proof.
  vm_compute. split.
  - repeat split; auto.
    repeat (constructor; [discriminate|]). constructor.
  - repeat split; auto.
    repeat first [apply list_elem_of_here | apply list_elem_of_further].
Qed.

(** C1, as the code has it.  A live worker [w] takes the task [t] from the
    head of the queue; [flag] is the value of its [_discarded] when the
    iteration tests it, after the call (it was set when the task was
    fetched, or the timer of [t] fired during the iteration).  If the flag
    is set, the callable of [t] is called, the iteration ends by
    [_WorkerDiscarded], and the thread function returns with the rest of
    the queue untouched and the worker removed from the live set.  If the
    flag is not set and the call returned or raised an [Exception], the
    iteration returns and the loop goes on to fetch: it calls the callable
    of the next task, or blocks in [get] on an empty queue.  If the flag is
    not set and the call raised an exception that is no [Exception], that
    exception leaves the iteration and the thread function, with the rest
    of the queue untouched and the worker removed from the live set. *)
Theorem discarded_worker_exits_after_task
    (σ : World) (w : nat) (o : _Worker) (t : Task) (rest : list Item) :
  objects σ !! w = Some o ->
  queued σ = ATask t :: rest ->
  live w σ ->
  let flag := _discarded o || timer_fires σ t in
  (flag = true ->
     fst (_execute_task w σ) = Raise _WorkerDiscarded /\
     traced (Called (callable t)) (exec (_execute_task w) σ) /\
     fst (_run w σ) = Ok tt /\
     queued (exec (_run w) σ) = rest /\
     ~ live w (exec (_run w) σ)) /\
  (flag = false -> caught (callable t) = true ->
     fst (_execute_task w σ) = Ok tt /\
     queued (exec (_execute_task w) σ) = rest /\
     (forall t2 rest2, rest = ATask t2 :: rest2 ->
        traced (Called (callable t2)) (exec (_run w) σ)) /\
     (rest = [] -> fst (_run w σ) = Blocked)) /\
  (flag = false -> caught (callable t) = false ->
     exists e,
       call (callable t) = Raises e /\ is_Exception e = false /\
       fst (_execute_task w σ) = Raise e /\
       fst (_run w σ) = Raise e /\
       queued (exec (_run w) σ) = rest /\
       ~ live w (exec (_run w) σ)).
Proof.
  intros Hw Hq Hlive flag.
  destruct (execute_task_spec σ w o t rest Hw Hq) as (Hres & Hqueue & _ & Hcalled & _).
  fold flag in Hres. split; [|split].
  - intros Hflag. rewrite Hflag in Hres.
    destruct (run_discarded σ w o t rest Hw Hq Hlive Hflag) as (Hok & Hrest & _ & Hgone).
    by repeat split.
  - intros Hflag Hcaught. rewrite Hflag in Hres.
    destruct (run_continues σ w o t rest Hw Hq Hflag Hcaught) as (Hnext & Hblock).
    split; [|by repeat split].
    rewrite Hres. unfold iteration_result, caught in *.
    destruct (call (callable t)) as [|e]; [done|]. by rewrite Hcaught.
  - intros Hflag Hcaught. unfold caught in Hcaught.
    destruct (call (callable t)) as [|e] eqn:Hcall; [done|].
    exists e. split; [done|]. split; [done|].
    exact (run_escapes σ w o t rest e Hw Hq Hlive Hflag Hcall Hcaught).
Qed.

Lemma discarded_worker_exits_after_task_witness :
  let slow := mkTask ok_job (Some 5) in
  let next := mkTask bad_job None in
  let quit := mkTask exit_job None in
  let σ0 := exec start (boot "pool" 1 2 always) in
  let σ := exec (dispatch bad_job None) (exec (dispatch ok_job (Some 5)) σ0) in
  let τ := exec (dispatch ok_job (Some 5)) (exec (dispatch bad_job None) σ0) in
  let υ := exec (dispatch bad_job None) (exec (dispatch exit_job None) σ0) in
  (fst (_run 0%nat σ) = Ok tt /\ queued (exec (_run 0%nat) σ) = [ATask next]) /\
  traced (Called ok_job) (exec (_run 0%nat) τ) /\
  (fst (_run 0%nat υ) = Raise SystemExit /\
   queued (exec (_run 0%nat) υ) = [ATask next]).
Proof.
  intros slow next quit σ0 σ τ υ. split; [|split].
  - destruct (proj1 (discarded_worker_exits_after_task σ 0%nat
                       (mkWorker "pool/0" false None) slow [ATask next]
                       eq_refl eq_refl
                       ltac:(unfold live; apply (bool_decide_unpack _); vm_compute; reflexivity))
                eq_refl) as (_ & _ & Hok & Hrest & _).
    by split.
  - destruct (proj1 (proj2 (discarded_worker_exits_after_task τ 0%nat
                       (mkWorker "pool/0" false None) next [ATask slow]
                       eq_refl eq_refl
                       ltac:(unfold live; apply (bool_decide_unpack _); vm_compute; reflexivity)))
                eq_refl eq_refl) as (_ & _ & Hnext & _).
    exact (Hnext slow [] eq_refl).
  - destruct (proj2 (proj2 (discarded_worker_exits_after_task υ 0%nat
                       (mkWorker "pool/0" false None) quit [ATask next]
                       eq_refl eq_refl
                       ltac:(unfold live; apply (bool_decide_unpack _); vm_compute; reflexivity)))
                eq_refl eq_refl) as (e & He & _ & _ & Hrun & Hrest & _).
    injection He as <-. by split.
Defined.

(** ** Exceptions of a callable *)

(** C8, the claim refuted.  A callable that raises [SystemExit] on a worker
    that is not discarded: [except Exception] does not match, nothing is
    logged, the exception leaves [_execute_task] and the thread function,
    and the task that was queued behind it is not fetched. *)
Lemma system_exit_escapes_the_loop :
  let σ := exec (dispatch ok_job None)
             (exec (dispatch exit_job None) (exec start (boot "pool" 1 2 never))) in
  fst (_execute_task 0%nat σ) = Raise SystemExit /\
  fst (_run 0%nat σ) = Raise SystemExit /\
  objects (exec (_run 0%nat) σ) !! 0%nat = Some (mkWorker "pool/0" false None) /\
  queued (exec (_run 0%nat) σ) = [ATask (mkTask ok_job None)] /\
  Forall (fun ev => forall msg t, ev ≠ Log_exception msg t) (trace (exec (_run 0%nat) σ)).
Proof.
  vm_compute. repeat split; auto.
  repeat (constructor; [intros msg t; discriminate|]). constructor.
Qed.

(** C8, as the code has it.  When the callable of the task at the head of
    the queue raises [e], an instance of [Exception], the worker logs it
    with the task and the iteration ends as after a normal return: by
    [_WorkerDiscarded] if the flag of the worker is set when tested, and
    otherwise by returning, after which the loop calls the callable of the
    next task or blocks in [get] on an empty queue.  When [e] is not an
    instance of [Exception] and the flag is not set, [e] leaves the
    iteration; when the flag is set, [_WorkerDiscarded] takes its place. *)
Theorem exception_of_callable_is_contained
    (σ : World) (w : nat) (o : _Worker) (t : Task) (rest : list Item) (e : PyExc) :
  objects σ !! w = Some o ->
  queued σ = ATask t :: rest ->
  call (callable t) = Raises e ->
  let flag := _discarded o || timer_fires σ t in
  (is_Exception e = true ->
     fst (_execute_task w σ) = (if flag then Raise _WorkerDiscarded else Ok tt) /\
     traced (Log_exception "Unhandled exception in %s" t) (exec (_execute_task w) σ) /\
     (flag = false ->
        (forall t2 rest2, rest = ATask t2 :: rest2 ->
           traced (Called (callable t2)) (exec (_run w) σ)) /\
        (rest = [] -> fst (_run w σ) = Blocked))) /\
  (is_Exception e = false ->
     fst (_execute_task w σ) = (if flag then Raise _WorkerDiscarded else Raise e)).
Proof.
  intros Hw Hq Hcall flag.
  destruct (execute_task_spec σ w o t rest Hw Hq) as (Hres & _ & _ & _ & _ & Hlog).
  fold flag in Hres. unfold iteration_result in Hres. rewrite Hcall in Hres.
  split; intros He; rewrite He in Hres; [|done].
  split; [done|]. split; [by apply (Hlog e)|].
  intros Hflag. apply (run_continues σ w o t rest Hw Hq Hflag).
  unfold caught. by rewrite Hcall.
Qed.

Lemma exception_of_callable_is_contained_witness :
  let failing := mkTask bad_job None in
  let next := mkTask ok_job None in
  let σ := exec (dispatch ok_job None)
             (exec (dispatch bad_job None) (exec start (boot "pool" 1 2 never))) in
  fst (_execute_task 0%nat σ) = Ok tt /\
  traced (Log_exception "Unhandled exception in %s" failing) (exec (_execute_task 0%nat) σ) /\
  traced (Called ok_job) (exec (_run 0%nat) σ).
Proof.
  intros failing next σ.
  destruct (proj1 (exception_of_callable_is_contained σ 0%nat
                     (mkWorker "pool/0" false None) failing [ATask next]
                     (UserError "boom") eq_refl eq_refl eq_refl) eq_refl)
    as (Hres & Hlog & Hnext).
  split; [exact Hres|]. split; [exact Hlog|].
  exact (proj1 (Hnext eq_refl) next [] eq_refl).
Defined.

(** * Further properties *)

(** ** start *)

Section Start.

Implicit Types (σ : World) (n : nat).

Lemma exec_bind_ok {A B} (m : M A) (k : A -> M B) σ a σ' :
  m σ = (Ok a, σ') -> exec (m ≫= k) σ = exec (k a) σ'.
Proof. intros H. unfold exec. by rewrite (bind_ok _ _ _ _ _ H). Qed.

(** What [n] calls of [_add_worker] in a row do. *)
Lemma add_workers_spec n σ :
  let σ' := exec (for_range n _add_worker) σ in
  objects σ' =
    objects σ ++ fresh_workers (_name (executor σ)) (_worker_id (executor σ)) n /\
  _workers (executor σ') =
    list_to_set (seq (length (objects σ)) n) ∪ _workers (executor σ) /\
  _worker_id (executor σ') = _worker_id (executor σ) + Z.of_nat n /\
  spawned σ' = (spawned σ + n)%nat /\
  _name (executor σ') = _name (executor σ) /\
  _workers_count (executor σ') = _workers_count (executor σ) /\
  _tasks (executor σ') = _tasks (executor σ) /\
  _scheduler (executor σ') = _scheduler (executor σ) /\
  _running (executor σ') = _running (executor σ).
Proof.
  revert σ. induction n as [|n IH]; intros σ.
  - simpl. rewrite app_nil_r, Z.add_0_r, Nat.add_0_r.
    repeat split; try done. by rewrite (left_id_L ∅ (∪)).
  - cbn [for_range]. cbv zeta. rewrite (exec_bind_ok _ _ _ _ _ (add_worker_ok σ)).
    destruct (IH (exec _add_worker σ)) as (Ho & Hw & Hid & Hsp & Hn & Hc & Ht & Hs & Hr).
    rewrite Ho, Hw, Hid, Hsp, Hn, Hc, Ht, Hs, Hr. clear Ho Hw Hid Hsp Hn Hc Ht Hs Hr.
    rewrite spawned_add_worker, add_worker_objects, add_worker_counter.
    rewrite length_app. cbn [length fresh_workers seq list_to_set].
    rewrite <- app_assoc. cbn [app].
    replace (length (objects σ) + 1)%nat with (S (length (objects σ))) by lia.
    repeat split; try done.
    + change (_workers (executor (exec _add_worker σ)))
        with ({[length (objects σ)]} ∪ _workers (executor σ)).
      rewrite !(assoc_L (∪)). f_equal. apply (comm_L (∪)).
    + lia.
    + lia.
Qed.

Lemma start_spec σ :
  _running (executor σ) = false ->
  start σ =
    for_range (Z.to_nat (_workers_count (executor σ))) _add_worker
      (exec (set_running true) (exec (emit (Log_debug "Starting executor")) σ)).
Proof.
  intros H. unfold start.
  erewrite bind_ok by reflexivity. erewrite bind_ok by reflexivity.
  cbn [executor snd emit]. rewrite H. by erewrite bind_ok by reflexivity.
Qed.

End Start.

(** X1. [start] on an executor that is not running returns, sets the flag
    and makes one call of [_add_worker] per configured worker slot (none
    for a count that is not positive): the new objects are idle, not
    discarded and named from the successive counter values, their
    references are new in the live set, that many threads are started,
    and the queue is left as it was. *)
Theorem start_spawns_configured_workers (σ : World) :
  _running (executor σ) = false ->
  refs_valid σ ->
  let n := Z.to_nat (_workers_count (executor σ)) in
  let σ' := exec start σ in
  fst (start σ) = Ok tt /\
  _running (executor σ') = true /\
  objects σ' =
    objects σ ++ fresh_workers (_name (executor σ)) (_worker_id (executor σ)) n /\
  _workers (executor σ') =
    list_to_set (seq (length (objects σ)) n) ∪ _workers (executor σ) /\
  size (_workers (executor σ')) = (size (_workers (executor σ)) + n)%nat /\
  spawned σ' = (spawned σ + n)%nat /\
  queued σ' = queued σ.
Proof.
  intros Hrun Hvalid n σ'.
  destruct (start_when_stopped σ Hrun) as [Hok Hflag].
  split; [exact Hok|]. split; [exact Hflag|].
  subst σ'. unfold exec at 1 2 3 4 5. rewrite (start_spec σ Hrun). fold n.
  set (σ1 := exec (set_running true) (exec (emit (Log_debug "Starting executor")) σ)).
  destruct (add_workers_spec n σ1) as (Ho & Hw & _ & Hsp & _ & _ & Ht & _).
  unfold exec in Ho, Hw, Hsp, Ht.
  split; [exact Ho|]. split; [exact Hw|]. split; [|split].
  - rewrite Hw. change (_workers (executor σ1)) with (_workers (executor σ)).
    change (objects σ1) with (objects σ).
    rewrite size_union.
    + rewrite size_list_to_set by apply NoDup_seq. rewrite length_seq. lia.
    + intros w Hin Hw'. apply elem_of_list_to_set, elem_of_seq in Hin.
      specialize (Hvalid w Hw'). simpl in Hvalid. lia.
  - rewrite Hsp. f_equal.
    transitivity (spawned (exec (emit (Log_debug "Starting executor")) σ));
      [reflexivity|].
    rewrite spawned_snoc. simpl. lia.
  - unfold queued. by rewrite Ht.
Qed.

Lemma start_spawns_configured_workers_witness :
  let σ' := exec start (boot "pool" 3 4 never) in
  objects σ' = [mkWorker "pool/0" false None; mkWorker "pool/1" false None;
                mkWorker "pool/2" false None] /\
  size (_workers (executor σ')) = 3%nat /\
  spawned σ' = 3%nat.
Proof.
  intros σ'.
  destruct (start_spawns_configured_workers (boot "pool" 3 4 never) eq_refl
              ltac:(apply (bool_decide_unpack _); vm_compute; reflexivity))
    as (_ & _ & Ho & _ & Hsize & Hsp & _).
  split; [exact Ho|]. split; [exact Hsize|exact Hsp].
Defined.

(** X2. [start] on a running executor raises [AlreadyStarted] before it
    has touched anything: apart from the log line written on entry, the
    world is the one of the call; in particular no worker is added.  This
    is what a second [start] right after a first one does. *)
Theorem start_on_running_executor_changes_nothing (σ : World) :
  (_running (executor σ) = true ->
     fst (start σ) = Raise AlreadyStarted /\
     executor (exec start σ) = executor σ /\
     objects (exec start σ) = objects σ /\
     spawned (exec start σ) = spawned σ) /\
  (_running (executor σ) = false ->
     fst (start (exec start σ)) = Raise AlreadyStarted /\
     executor (exec start (exec start σ)) = executor (exec start σ) /\
     objects (exec start (exec start σ)) = objects (exec start σ)).
Proof.
  assert (Hgen : forall τ, _running (executor τ) = true ->
            fst (start τ) = Raise AlreadyStarted /\
            executor (exec start τ) = executor τ /\
            objects (exec start τ) = objects τ /\
            spawned (exec start τ) = spawned τ).
  { intros τ Hr. unfold exec. rewrite (start_when_running τ Hr). cbn [fst snd].
    repeat split. rewrite spawned_snoc. simpl. lia. }
  split; [apply Hgen|].
  intros Hr. destruct (start_when_stopped σ Hr) as [_ Hflag].
  destruct (Hgen _ Hflag) as (H1 & H2 & H3 & _). by repeat split.
Qed.

Lemma start_on_running_executor_changes_nothing_witness :
  let σ := exec start (boot "pool" 2 2 never) in
  fst (start σ) = Raise AlreadyStarted /\
  objects (exec start σ) = objects σ /\
  fst (start (exec start (boot "pool" 2 2 never))) = Raise AlreadyStarted.
Proof.
  intros σ.
  destruct (proj1 (start_on_running_executor_changes_nothing σ) eq_refl)
    as (H1 & _ & H3 & _).
  split; [exact H1|]. split; [exact H3|].
  exact (proj1 (proj2 (start_on_running_executor_changes_nothing
                         (boot "pool" 2 2 never)) eq_refl)).
Defined.

(** ** _worker_stopped *)

Lemma worker_stopped_missing σ w :
  ~ live w σ -> _worker_stopped w σ = (Raise KeyError, σ).
Proof.
  intros Hl. unfold _worker_stopped. erewrite bind_ok by reflexivity.
  by rewrite decide_False.
Qed.

(** X3. [_worker_stopped] for a worker in the live set returns and removes
    exactly this worker: the set shrinks by one and nothing else changes;
    for a worker that is not in the live set, [set.remove] raises
    [KeyError] and the world is as it was, which is what a second
    notification for the same worker meets. *)
Theorem worker_stopped_removes_once (σ : World) (w : nat) :
  let σ' := exec (_worker_stopped w) σ in
  (live w σ ->
     fst (_worker_stopped w σ) = Ok tt /\
     _workers (executor σ') = _workers (executor σ) ∖ {[w]} /\
     S (size (_workers (executor σ'))) = size (_workers (executor σ)) /\
     objects σ' = objects σ /\ queued σ' = queued σ /\ trace σ' = trace σ /\
     _worker_stopped w σ' = (Raise KeyError, σ')) /\
  (~ live w σ -> _worker_stopped w σ = (Raise KeyError, σ)).
Proof.
  intros σ'. split; [|apply worker_stopped_missing].
  intros Hl. subst σ'. unfold exec. rewrite (worker_stopped_live σ w Hl).
  cbn [fst snd executor _workers objects trace]. split; [done|]. split; [done|].
  split.
  - rewrite size_difference by (by apply singleton_subseteq_l).
    rewrite size_singleton.
    assert (size (_workers (executor σ)) ≠ 0%nat); [|lia].
    apply size_non_empty_iff. intros Hempty.
    apply (not_elem_of_empty (C:=gset nat) w). by apply Hempty.
  - repeat split. apply worker_stopped_missing. unfold live. simpl.
    intros [_ Hn]%elem_of_difference. apply Hn. by apply elem_of_singleton.
Qed.

Lemma worker_stopped_removes_once_witness :
  let σ := exec start (boot "pool" 2 2 never) in
  let σ' := exec (_worker_stopped 0%nat) σ in
  fst (_worker_stopped 0%nat σ) = Ok tt /\
  elements (_workers (executor σ')) = [1%nat] /\
  _worker_stopped 0%nat σ' = (Raise KeyError, σ') /\
  _worker_stopped 5%nat σ = (Raise KeyError, σ).
Proof.
  intros σ σ'.
  destruct (proj1 (worker_stopped_removes_once σ 0%nat)
              ltac:(unfold live; apply (bool_decide_unpack _); vm_compute; reflexivity))
    as (Hok & Hws & _ & _ & _ & _ & Hagain).
  split; [exact Hok|]. split.
  - fold σ' in Hws. rewrite Hws. vm_compute. reflexivity.
  - split; [exact Hagain|].
    apply (proj2 (worker_stopped_removes_once σ 5%nat)).
    unfold live. apply (bool_decide_unpack _). vm_compute. reflexivity.
Defined.

(** ** Invariants of the whole pool *)

(** As [keep], for properties that depend on what the queue calls do. *)
Ltac follow :=
  repeat first
    [ apply preserves_ret
    | apply preserves_raise
    | apply preserves_self
    | apply preserves_worker
    | apply keeps_emit
    | apply keeps_put
    | apply keeps_get
    | apply keeps_clear
    | apply keeps_add_worker
    | apply keeps_worker_stopped
    | apply keeps_set_task
    | apply keeps_set_discarded
    | apply keeps_set_running
    | assumption
    | apply preserves_bind; [|intros ?]
    | apply preserves_for_range
    | apply preserves_for_each; intros ?
    | apply preserves_try_finally
    | apply preserves_on_scheduler_thread; [intros ?|]
    | apply preserves_try_except;
      [|let e := fresh "e" in let He := fresh "He" in
        intros e ? He; destruct e; simpl in He; simplify_eq]
    | apply preserves_while_True
    | match goal with
      | |- preserves _ (if ?b then _ else _) => destruct b
      | |- preserves _ (match ?x with _ => _ end) => destruct x
      end ].

Section InvariantMethods.

Context (P : World -> Prop) `{!Invariant P}.

Lemma invariant_execute_task w : preserves P (_execute_task w).
Proof. unfold _execute_task, _next_task. follow. unfold _discard_after. follow. Qed.

Lemma invariant_perform op : preserves P (perform op).
Proof.
  destruct op; simpl.
  - unfold start. follow.
  - unfold stop. follow.
  - unfold dispatch. follow.
  - unfold _run. follow. intros σ H.
    by apply preserves_while_True; [apply invariant_execute_task|].
  - apply invariant_execute_task.
  - unfold _discard. follow.
  - unfold _worker_discarded. follow.
  - apply keeps_worker_stopped.
Qed.

Lemma invariant_history ops σ : P σ -> P (history ops σ).
Proof.
  revert σ. induction ops as [|op ops IH]; intros σ H; simpl; [done|].
  apply IH. by apply invariant_perform.
Qed.

End InvariantMethods.

Section PoolInvariants.

Global Instance stable_queue_calls P `{!KeepsTasks P} : KeepsQueueCalls P.
Proof. split; intros; apply keeps_on_tasks. Qed.

Lemma stable_invariant P : Stable P -> KeepsSetRunning P -> Invariant P.
Proof. intros HS HR. split; apply _. Qed.

Global Instance queue_bounded_invariant : Invariant queue_bounded.
Proof.
  split; [|split|..]; unfold queue_bounded; unfold_action.
  - by intros ev σ H.
  - intros x σ H. simpl.
    pose proof (queue_step_bounded (_tasks (executor σ)) (Put x) H) as Hb.
    simpl in Hb. by destruct (TaskQueue.put x (_tasks (executor σ))).
  - intros σ H. simpl.
    pose proof (queue_step_bounded (_tasks (executor σ)) Get H) as Hb.
    simpl in Hb. by destruct (TaskQueue.get (_tasks (executor σ))).
  - intros σ H. simpl.
    exact (queue_step_bounded (_tasks (executor σ)) Clear H).
  - by intros σ H.
  - intros w σ H. simpl. by case_match.
  - intros w t σ H. by destruct (objects σ !! w).
  - intros w σ H. by destruct (objects σ !! w).
  - by intros b σ H.
Qed.

Global Instance configured_invariant n wc mt s : Invariant (configured n wc mt s).
Proof.
  split; [|split|..]; unfold configured; unfold_action.
  - by intros ev σ H.
  - intros x σ H. simpl. pose proof (put_max_tasks (_tasks (executor σ)) x) as Hm.
    by destruct (TaskQueue.put x (_tasks (executor σ))); simpl in *; rewrite Hm.
  - intros σ H. simpl. pose proof (get_max_tasks (_tasks (executor σ))) as Hm.
    by destruct (TaskQueue.get (_tasks (executor σ))); simpl in *; rewrite Hm.
  - by intros σ H.
  - by intros σ H.
  - intros w σ H. simpl. by case_match.
  - intros w t σ H. by destruct (objects σ !! w).
  - intros w σ H. by destruct (objects σ !! w).
  - by intros b σ H.
Qed.

Global Instance flag_set_invariant w : Invariant (flag_of w true).
Proof.
  apply stable_invariant; [apply _|].
  unfold flag_of; unfold_action. by intros b σ H.
Qed.

Global Instance named_invariant w n : Invariant (named w n).
Proof.
  apply stable_invariant; [apply _|].
  unfold named; unfold_action. by intros b σ H.
Qed.

End PoolInvariants.

(** X4. The arguments of the constructor stay: in every world that the
    pool reaches, the name, the configured worker count, the capacity of
    the queue and the scheduler are the ones it was built with. *)
Theorem pool_configuration_is_fixed (n : string) (wc mt : Z) (s : Scheduler)
    (ops : list Op) :
  let σ := history ops (boot n wc mt s) in
  _name (executor σ) = n /\
  _workers_count (executor σ) = wc /\
  TaskQueue._max_tasks (_tasks (executor σ)) = mt /\
  _scheduler (executor σ) = s.
Proof. apply (invariant_history (configured n wc mt s)). by repeat split. Qed.

(** X5. For a capacity that is not negative, the queue of the executor
    never holds more items than its capacity, whatever the clients, the
    workers and the scheduler do: [dispatch] and the sentinels of [stop]
    go through the check of [put]. *)
Theorem pool_queue_within_capacity (n : string) (wc mt : Z) (s : Scheduler)
    (ops : list Op) :
  0 <= mt ->
  Z.of_nat (length (queued (history ops (boot n wc mt s)))) <= mt.
Proof.
  intros Hmt.
  destruct (invariant_history (configured n wc mt s) ops (boot n wc mt s))
    as (_ & _ & Hcap & _); [by repeat split|].
  assert (Hb : queue_bounded (history ops (boot n wc mt s))).
  { apply (invariant_history _). unfold queue_bounded, TaskQueue.len. simpl. lia. }
  unfold queue_bounded, TaskQueue.len, queued in *. lia.
Qed.

Lemma pool_queue_within_capacity_witness :
  Z.of_nat (length (queued (history
    [Start; Dispatch ok_job None; Dispatch bad_job None; Dispatch ok_job None;
     Stop false; Run 0%nat] (boot "pool" 1 2 never)))) <= 2.
Proof. apply pool_queue_within_capacity. lia. Defined.

(** X6. A worker object, once built, stays in the store under its
    reference and keeps its name, and a [_discarded] flag that is set is
    never cleared again, whatever happens to the pool afterwards. *)
Theorem worker_object_persists (σ : World) (ops : list Op) (w : nat) (o : _Worker) :
  objects σ !! w = Some o ->
  exists o',
    objects (history ops σ) !! w = Some o' /\
    _thread_name o' = _thread_name o /\
    (_discarded o = true -> _discarded o' = true).
Proof.
  intros Hw.
  destruct (invariant_history (named w (_thread_name o)) ops σ) as (o' & Ho' & Hn).
  { by exists o. }
  exists o'. split; [done|]. split; [done|]. intros Hd.
  destruct (invariant_history (flag_of w true) ops σ) as (o'' & Ho'' & Hd'').
  { by exists o. }
  by simplify_eq.
Qed.

Lemma worker_object_persists_witness :
  let σ := exec (perform (Discard 0%nat)) (exec start (boot "pool" 1 1 never)) in
  exists o',
    objects (history [Dispatch ok_job None; Run 0%nat; Stop true; Start] σ) !! 0%nat
      = Some o' /\
    _thread_name o' = "pool/0" /\
    (true = true -> _discarded o' = true).
Proof.
  intros σ.
  exact (worker_object_persists σ [Dispatch ok_job None; Run 0%nat; Stop true; Start]
           0%nat (mkWorker "pool/0" true None) eq_refl).
Defined.

(** ** stop, continued *)

Section StopFacts.

Implicit Types (σ : World) (n k : nat).

Lemma put_sentinel_step σ :
  let σ' := exec (on_tasks (TaskQueue.put _STOP)) σ in
  queued σ' = queued σ \/ queued σ' = queued σ ++ [_STOP].
Proof.
  unfold exec, on_tasks, TaskQueue.put, queued. simpl.
  destruct (_ =? _); simpl; auto.
Qed.

Lemma put_sentinels_at_most n k σ :
  sentinels_at_most k σ ->
  sentinels_at_most (k + n) (exec (for_range n (on_tasks (TaskQueue.put _STOP))) σ).
Proof.
  revert k σ. induction n as [|n IH]; intros k σ (j & Hj & Hq).
  - exists j. split; [lia|done].
  - assert (Hstep : sentinels_at_most (S k) (exec (on_tasks (TaskQueue.put _STOP)) σ)).
    { destruct (put_sentinel_step σ) as [Hsame|Happ].
      - exists j. split; [lia|]. by rewrite Hsame.
      - exists (S j). split; [lia|]. rewrite Happ, Hq.
        change [_STOP] with (replicate 1 _STOP). rewrite <- replicate_add.
        f_equal. lia. }
    cbn [for_range]. unfold exec in *. unfold mbind, M_bind.
    destruct (on_tasks (TaskQueue.put _STOP) σ) as [[[]|e|] σ1]; cbn [snd] in *.
    + replace (k + S n)%nat with (S k + n)%nat by lia. by apply IH.
    + destruct Hstep as (j' & Hj' & Hq'). exists j'. split; [lia|done].
    + destruct Hstep as (j' & Hj' & Hq'). exists j'. split; [lia|done].
Qed.

Lemma join_all_keeps_queue (ws : list nat) l :
  preserves (queue_is l) (for_each ws join).
Proof. keep. Qed.

End StopFacts.

(** X7. [stop] discards the pending work in every case: whether it returns
    or is left by [TooManyTasks], the queue afterwards holds no [Task], only
    stop sentinels, and not more of them than there are worker slots. *)
Theorem stop_leaves_only_sentinels (σ : World) (wait : bool) :
  exists j : nat,
    (j <= Z.to_nat (_workers_count (executor σ)))%nat /\
    queued (exec (stop wait) σ) = replicate j _STOP.
Proof.
  set (n := Z.to_nat (_workers_count (executor σ))).
  set (σ2 := exec (on_tasks (fun q => (Ok tt, TaskQueue.clear q)))
               (exec (set_running false)
                  (exec (emit (Log_debug "Stopping executor")) σ))).
  assert (Hputs : sentinels_at_most (0 + n)
                    (exec (for_range n (on_tasks (TaskQueue.put _STOP))) σ2)).
  { apply put_sentinels_at_most. by exists 0%nat. }
  unfold exec at 1, stop.
  erewrite bind_ok by reflexivity. erewrite bind_ok by reflexivity.
  erewrite bind_ok by reflexivity. erewrite bind_ok by reflexivity.
  match goal with |- context [(for_range ?m ?b ≫= ?k) ?s] =>
    change s with σ2; change m with n end.
  unfold exec in Hputs.
  destruct (for_range n (on_tasks (TaskQueue.put _STOP)) σ2) as [[[]|e|] σ3] eqn:Hfor;
    cbn [snd] in Hputs.
  - rewrite (bind_ok _ _ _ _ _ Hfor). erewrite bind_ok by reflexivity.
    destruct Hputs as (j & Hj & Hq). exists j. split; [lia|].
    by apply (join_all_keeps_queue _ (replicate j _STOP) σ3).
  - by rewrite (bind_raise _ _ _ _ _ Hfor).
  - by rewrite (bind_blocked _ _ _ _ Hfor).
Qed.

Section StopJoins.

Implicit Types (σ : World) (ws : list nat).

Lemma join_ok σ w o :
  objects σ !! w = Some o ->
  join w σ =
    (Ok tt, mkWorld (executor σ) (objects σ)
              (trace σ ++ [Log_debug ("Waiting for worker " +:+ _thread_name o);
                           Thread_join w])).
Proof.
  intros Ho. unfold join. rewrite (bind_ok _ _ _ _ _ (worker_ok σ w o Ho)).
  erewrite bind_ok by reflexivity. unfold emit. simpl. by rewrite <- app_assoc.
Qed.


(** [stop] when there is room for the sentinels: what is left to do after
    the queue has been refilled is to join the workers. *)
Lemma stop_with_room_spec σ wait :
  _workers_count (executor σ) <= TaskQueue._max_tasks (_tasks (executor σ)) ->
  let n := Z.to_nat (_workers_count (executor σ)) in
  let σ2 := exec (on_tasks (fun q => (Ok tt, TaskQueue.clear q)))
              (exec (set_running false)
                 (exec (emit (Log_debug "Stopping executor")) σ)) in
  stop wait σ =
    for_each (if wait then elements (_workers (executor σ)) else []) join
      (with_queue (replicate n _STOP) σ2).
Proof.
  intros Hroom n σ2.
  assert (Hput : for_range n (on_tasks (TaskQueue.put _STOP)) σ2 =
                   (Ok tt, with_queue (replicate n _STOP) σ2)).
  { apply (put_sentinels_ok n σ2). intros Hn.
    change (Z.of_nat 0 + Z.of_nat n <= TaskQueue._max_tasks (_tasks (executor σ))).
    subst n. lia. }
  unfold stop.
  erewrite bind_ok by reflexivity. erewrite bind_ok by reflexivity.
  erewrite bind_ok by reflexivity. erewrite bind_ok by reflexivity.
  erewrite bind_ok by exact Hput. by erewrite bind_ok by reflexivity.
Qed.

End StopJoins.



(** ** Workers at shutdown and at rest *)

Section Shutdown.

Implicit Types (σ : World) (w : nat) (o : _Worker) (ws : list nat).

Lemma run_on_sentinel σ w o rest :
  objects σ !! w = Some o ->
  queued σ = _STOP :: rest ->
  live w σ ->
  _run w σ = (Ok tt, after_exit w o rest σ).
Proof.
  intros Hw Hq Hl. unfold _run.
  rewrite (bind_ok _ _ _ _ _ (worker_ok σ w o Hw)).
  erewrite bind_ok by reflexivity. erewrite bind_ok by reflexivity.
  match goal with |- context [try_finally ?b ?f ?s] =>
    change s with (loop_start σ o) end.
  assert (Hbody : _execute_task w (loop_start σ o) =
                    (Raise NotRunning, with_queue rest (loop_start σ o))).
  { unfold _execute_task. by rewrite (bind_raise _ _ _ _ _ (next_task_stop (loop_start σ o) rest Hq)). }
  unfold try_finally, try_except. cbn beta. cbn [while_True].
  rewrite (bind_raise _ _ _ _ _ Hbody). cbn beta iota.
  set (σ2 := snd (emit (Log_debug "Worker stopped") (with_queue rest (loop_start σ o)))).
  change (emit (Log_debug "Worker stopped") (with_queue rest (loop_start σ o)))
    with (Ok tt, σ2).
  cbn beta iota. rewrite (worker_stopped_live σ2 w Hl). cbn beta iota.
  f_equal. unfold after_exit. simpl. by rewrite <- !app_assoc.
Qed.

Lemma run_on_empty_queue σ w o :
  objects σ !! w = Some o ->
  queued σ = [] ->
  _run w σ = (Blocked, loop_start σ o).
Proof.
  intros Hw Hq. unfold _run.
  rewrite (bind_ok _ _ _ _ _ (worker_ok σ w o Hw)).
  erewrite bind_ok by reflexivity. erewrite bind_ok by reflexivity.
  match goal with |- context [try_finally ?b ?f ?s] =>
    change s with (loop_start σ o) end.
  assert (Hbody : _execute_task w (loop_start σ o) = (Blocked, loop_start σ o)).
  { unfold _execute_task. by rewrite (bind_blocked _ _ _ _ (next_task_empty (loop_start σ o) Hq)). }
  unfold try_finally, try_except. cbn beta. cbn [while_True].
  by rewrite (bind_blocked _ _ _ _ Hbody).
Qed.

End Shutdown.

(** X9. A live worker that finds the stop sentinel at the head of the
    queue leaves its loop through [NotRunning]: the thread function
    returns, exactly that sentinel is taken off the queue, the worker is
    removed from the live set, no callable is called and no other worker
    object is touched. *)
Theorem worker_exits_on_stop_sentinel
    (σ : World) (w : nat) (o : _Worker) (rest : list Item) :
  objects σ !! w = Some o ->
  queued σ = _STOP :: rest ->
  live w σ ->
  let σ' := exec (_run w) σ in
  fst (_run w σ) = Ok tt /\
  queued σ' = rest /\
  _workers (executor σ') = _workers (executor σ) ∖ {[w]} /\
  objects σ' = objects σ /\
  calls σ' = calls σ /\
  spawned σ' = spawned σ.
Proof.
  intros Hw Hq Hl σ'. subst σ'. unfold exec.
  rewrite (run_on_sentinel σ w o rest Hw Hq Hl). cbn [fst snd].
  repeat split.
  - unfold calls, after_exit. simpl. rewrite omap_app. simpl. by rewrite app_nil_r.
  - unfold spawned, after_exit. simpl. rewrite List.filter_app, length_app. simpl. lia.
Qed.

Lemma worker_exits_on_stop_sentinel_witness :
  let σ := exec (stop false) (exec start (boot "pool" 2 3 never)) in
  let σ' := exec (_run 1%nat) σ in
  fst (_run 1%nat σ) = Ok tt /\
  queued σ' = [_STOP] /\
  elements (_workers (executor σ')) = [0%nat].
Proof.
  intros σ σ'.
  destruct (worker_exits_on_stop_sentinel σ 1%nat (mkWorker "pool/1" false None) [_STOP]
              eq_refl eq_refl
              ltac:(unfold live; apply (bool_decide_unpack _); vm_compute; reflexivity))
    as (Hok & Hq & Hws & _).
  split; [exact Hok|]. split; [exact Hq|].
  fold σ' in Hws. rewrite Hws. vm_compute. reflexivity.
Defined.

(** X10. A worker that finds the queue empty blocks in [get]: the thread
    function does not return, and apart from the two lines the thread
    writes on entry nothing changes; the worker stays in the live set and
    no callable is called. *)
Theorem idle_worker_blocks (σ : World) (w : nat) (o : _Worker) :
  objects σ !! w = Some o ->
  queued σ = [] ->
  let σ' := exec (_run w) σ in
  fst (_run w σ) = Blocked /\
  executor σ' = executor σ /\
  objects σ' = objects σ /\
  calls σ' = calls σ /\
  trace σ' = trace σ ++ [Pthread_setname (String.substring 0 15 (_thread_name o));
                         Log_debug "Worker started"].
Proof.
  intros Hw Hq σ'. subst σ'. unfold exec.
  rewrite (run_on_empty_queue σ w o Hw Hq). cbn [fst snd].
  repeat split.
  - unfold calls, loop_start, exec. simpl. rewrite !omap_app. simpl.
    by rewrite !app_nil_r.
  - unfold loop_start, exec. simpl. by rewrite <- app_assoc.
Qed.

Lemma idle_worker_blocks_witness :
  let σ := exec start (boot "pool" 1 1 never) in
  fst (_run 0%nat σ) = Blocked /\
  executor (exec (_run 0%nat) σ) = executor σ.
Proof.
  intros σ.
  destruct (idle_worker_blocks σ 0%nat (mkWorker "pool/0" false None) eq_refl eq_refl)
    as (Hb & He & _).
  by split.
Defined.

Section ShutdownAll.

Implicit Types (σ : World) (w : nat) (ws : list nat).

(** Workers that each find a sentinel exit one after the other. *)
Lemma runs_on_sentinels ws σ rest :
  NoDup ws ->
  Forall (fun w => live w σ /\ (w < length (objects σ))%nat) ws ->
  queued σ = replicate (length ws) _STOP ++ rest ->
  let σ' := history (Run <$> ws) σ in
  queued σ' = rest /\
  _workers (executor σ') = _workers (executor σ) ∖ list_to_set ws /\
  objects σ' = objects σ /\
  calls σ' = calls σ.
Proof.
  revert σ. induction ws as [|w ws IH]; intros σ Hnd Hws Hq.
  - simpl in *. repeat split; try done.
    by rewrite difference_empty_L.
  - apply NoDup_cons in Hnd as [Hnotin Hnd].
    apply Forall_cons in Hws as [[Hl Hlt] Hws].
    destruct (lookup_lt_is_Some_2 _ _ Hlt) as [o Ho].
    cbn [length replicate app] in Hq.
    pose proof (run_on_sentinel σ w o _ Ho Hq Hl) as Hrun.
    assert (Hstep : history (Run <$> w :: ws) σ =
              history (Run <$> ws)
                (after_exit w o (replicate (length ws) _STOP ++ rest) σ)).
    { unfold history. simpl. unfold exec at 2. simpl. by rewrite Hrun. }
    cbv zeta. rewrite Hstep.
    destruct (IH (after_exit w o (replicate (length ws) _STOP ++ rest) σ) Hnd)
      as (Hq' & Hw' & Ho' & Hc').
    + apply Forall_forall. intros w' Hin.
      rewrite Forall_forall in Hws. destruct (Hws w' Hin) as [Hl' Hlt'].
      split; [|exact Hlt']. unfold live, after_exit. simpl.
      apply elem_of_difference. split; [exact Hl'|].
      intros ->%elem_of_singleton. contradiction.
    + reflexivity.
    + split; [exact Hq'|]. split; [|split].
      * rewrite Hw'. unfold after_exit. simpl.
        apply set_eq. intros x. rewrite !elem_of_difference, elem_of_union.
        rewrite elem_of_singleton. tauto.
      * exact Ho'.
      * rewrite Hc'. unfold calls, after_exit. simpl.
        rewrite omap_app. simpl. by rewrite app_nil_r.
Qed.

Lemma join_all_calls ws σ :
  Forall (fun w => (w < length (objects σ))%nat) ws ->
  calls (snd (for_each ws join σ)) = calls σ.
Proof.
  revert σ. induction ws as [|w ws IH]; intros σ Hws; [done|].
  apply Forall_cons in Hws as [Hw Hws].
  destruct (lookup_lt_is_Some_2 _ _ Hw) as [o Ho].
  cbn [for_each]. rewrite (bind_ok _ _ _ _ _ (join_ok σ w o Ho)).
  rewrite IH by exact Hws. unfold calls. simpl.
  rewrite omap_app. simpl. by rewrite app_nil_r.
Qed.

End ShutdownAll.

(** X11. Shutting down a pool at rest.  In a pool whose queue has room for
    the sentinels and whose live workers, all waiting, are not more than
    the configured count, [stop] followed by every live worker taking its
    turn ends with an empty live set; the sentinels left in the queue
    are those of the worker slots without a live worker, the tasks that
    were pending are gone, and no callable has been called on the way. *)
Theorem shutdown_stops_every_waiting_worker (σ : World) (wait : bool) :
  refs_valid σ ->
  _workers_count (executor σ) <= TaskQueue._max_tasks (_tasks (executor σ)) ->
  (size (_workers (executor σ)) <= Z.to_nat (_workers_count (executor σ)))%nat ->
  let σ' := history (Run <$> elements (_workers (executor σ))) (exec (stop wait) σ) in
  _workers (executor σ') = ∅ /\
  queued σ' =
    replicate (Z.to_nat (_workers_count (executor σ)) - size (_workers (executor σ)))
      _STOP /\
  objects σ' = objects σ /\
  calls σ' = calls σ.
Proof.
  intros Hvalid Hroom Hsize σ'.
  set (n := Z.to_nat (_workers_count (executor σ))) in *.
  set (W := _workers (executor σ)) in *.
  destruct (stop_with_room σ wait Hvalid Hroom) as (_ & Hq & _). fold n in Hq.
  assert (Hstop : _workers (executor (exec (stop wait) σ)) = W /\
                  objects (exec (stop wait) σ) = objects σ /\
                  calls (exec (stop wait) σ) = calls σ).
  { unfold exec. rewrite (stop_with_room_spec σ wait Hroom).
    match goal with |- context [for_each ?ws join ?τ] =>
      assert (Hjoin : Forall (fun w => (w < length (objects τ))%nat) ws);
      [|destruct (join_all_ok ws τ Hjoin) as (_ & Hex & Hobj);
        rewrite (join_all_calls ws τ Hjoin), Hex, Hobj]
    end.
    { destruct wait; [|done].
      apply Forall_forall. intros w Hw%elem_of_elements. by apply Hvalid. }
    repeat split. unfold calls. simpl. rewrite omap_app. simpl. by rewrite app_nil_r. }
  destruct Hstop as (Hws & Hobj & Hcalls).
  destruct (runs_on_sentinels (elements W) (exec (stop wait) σ)
              (replicate (n - size W) _STOP)) as (Hq' & Hw' & Ho' & Hc').
  - apply NoDup_elements.
  - apply Forall_forall. intros w Hw%elem_of_elements. split.
    + unfold live. by rewrite Hws.
    + rewrite Hobj. by apply Hvalid.
  - rewrite Hq. change (length (elements W)) with (size W).
    rewrite <- replicate_add. f_equal. lia.
  - subst σ'. split; [|split; [exact Hq'|split; congruence]].
    rewrite Hw', Hws. apply set_eq. intros x.
    rewrite elem_of_difference, elem_of_list_to_set, elem_of_elements.
    split; [tauto|]. intros Hx. by apply not_elem_of_empty in Hx.
Qed.

Lemma shutdown_stops_every_waiting_worker_witness :
  let σ := exec (dispatch ok_job None) (exec start (boot "pool" 2 3 never)) in
  let σ' := history (Run <$> elements (_workers (executor σ))) (exec (stop true) σ) in
  _workers (executor σ') = ∅ /\ queued σ' = [] /\ calls σ' = [].
Proof.
  intros σ σ'.
  destruct (shutdown_stops_every_waiting_worker σ true
              ltac:(apply (bool_decide_unpack _); vm_compute; reflexivity)
              ltac:(vm_compute; discriminate)
              ltac:(vm_compute; lia))
    as (Hw & Hq & _ & Hc).
  split; [exact Hw|]. split; [exact Hq|exact Hc].
Defined.

(** ** Replacement of a discarded worker *)

Section Replacement.

Implicit Types (σ : World) (w : nat) (o : _Worker) (t : Task).

Global Instance workers_are_emit W : KeepsEmit (workers_are W).
Proof. unfold workers_are; unfold_action. by intros ev σ H. Qed.
Global Instance workers_are_tasks W : KeepsTasks (workers_are W).
Proof. unfold workers_are; unfold_action. intros A f σ H. simpl. by destruct (f _). Qed.
Global Instance workers_are_set_task W : KeepsSetTask (workers_are W).
Proof. unfold workers_are; unfold_action. intros w t σ H. by destruct (objects σ !! w). Qed.
Global Instance workers_are_set_discarded W : KeepsSetDiscarded (workers_are W).
Proof. unfold workers_are; unfold_action. intros w σ H. by destruct (objects σ !! w). Qed.

Global Instance objects_count_emit k : KeepsEmit (objects_count k).
Proof. unfold objects_count; unfold_action. by intros ev σ H. Qed.
Global Instance objects_count_tasks k : KeepsTasks (objects_count k).
Proof. unfold objects_count; unfold_action. intros A f σ H. simpl. by destruct (f _). Qed.
Global Instance objects_count_worker_stopped k : KeepsWorkerStopped (objects_count k).
Proof. unfold objects_count; unfold_action. intros w σ H. simpl. by case_match. Qed.
Global Instance objects_count_set_task k : KeepsSetTask (objects_count k).
Proof.
  unfold objects_count; unfold_action. intros w t σ H.
  destruct (objects σ !! w); simpl; [|done]. by rewrite length_insert.
Qed.
Global Instance objects_count_set_discarded k : KeepsSetDiscarded (objects_count k).
Proof.
  unfold objects_count; unfold_action. intros w σ H.
  destruct (objects σ !! w); simpl; [|done]. by rewrite length_insert.
Qed.

(** What holds once the scheduler thread has had its turn during the call
    holds at the end of the iteration, for a property that the logger,
    the scheduler handle and the current-task field do not affect. *)
Lemma iteration_post (P : World -> Prop) `{!KeepsEmit P, !KeepsSetTask P}
    σ w o t rest :
  objects σ !! w = Some o ->
  queued σ = ATask t :: rest ->
  (timer_fires σ t = true ->
   P (snd (on_scheduler_thread (_discard w) (at_call w o t rest σ)))) ->
  (timer_fires σ t = false -> P (at_call w o t rest σ)) ->
  P (snd (_execute_task w σ)).
Proof.
  intros Hw Hq Hfire Hquiet. unfold _execute_task.
  rewrite (bind_ok _ _ _ _ _ (next_task_task σ t rest Hq)).
  set (σa := with_queue rest σ).
  set (extra := match timeout t with Some delay => [Scheduled delay w] | None => [] end).
  set (σb := mkWorld (executor σa) (objects σ) (trace σ ++ extra)).
  assert (Harm : exists d,
             _discard_after w (timeout t) σa = (Ok d, σb) /\
             match d with
             | Some (handle delay _) => fires (_scheduler (executor σ)) delay (callable t)
             | None => false
             end = timer_fires σ t).
  { unfold _discard_after, timer_fires. subst σb extra.
    destruct (timeout t) as [delay|].
    - by exists (Some (handle delay w)).
    - exists None. split; [|done]. simpl. by rewrite app_nil_r. }
  destruct Harm as (d & Harm & Hfired).
  rewrite (bind_ok _ _ _ _ _ Harm).
  rewrite (bind_ok _ _ _ _ _ (set_task_ok σb w o (Some t) Hw)).
  apply try_finally_post; [|keep; destruct d; keep].
  apply try_except_post; [|intros e h' He; destruct (is_Exception e); simplify_eq; keep].
  unfold run_callable.
  erewrite bind_ok by reflexivity. erewrite bind_ok by reflexivity.
  match goal with |- context [(?sched ≫= ?k) ?s] =>
    change s with (at_call w o t rest σ);
    change (_scheduler (executor (at_call w o t rest σ)))
      with (_scheduler (executor σ))
  end.
  apply bind_post; [|intros []; destruct (call (callable t)); keep].
  destruct d as [[delay w']|]; [|by apply Hquiet].
  destruct (fires (_scheduler (executor σ)) delay (callable t));
    [by apply Hfire|by apply Hquiet].
Qed.

End Replacement.

Section ReplacementFacts.

Implicit Types (σ : World) (w : nat) (o : _Worker) (t : Task).

Global Instance flag_of_emit w b : KeepsEmit (flag_of w b).
Proof. unfold flag_of; unfold_action. by intros ev σ H. Qed.
Global Instance flag_of_set_task w b : KeepsSetTask (flag_of w b).
Proof.
  unfold flag_of; unfold_action. intros w' t σ (o & Ho & Hd).
  destruct (objects σ !! w') as [o'|] eqn:Hw'; simpl; [|by exists o].
  destruct (decide (w' = w)) as [->|Hne].
  - simplify_eq. eexists. split.
    + apply list_lookup_insert_eq. by apply lookup_lt_Some in Ho.
    + done.
  - exists o. by rewrite list_lookup_insert_ne.
Qed.

Lemma at_call_lookup σ w o t rest :
  objects σ !! w = Some o ->
  objects (at_call w o t rest σ) !! w =
    Some (mkWorker (_thread_name o) (_discarded o) (Some t)).
Proof.
  intros Hw. unfold at_call. simpl.
  apply list_lookup_insert_eq. by apply lookup_lt_Some in Hw.
Qed.

(** The timer callback for a worker that is not yet discarded, in a
    running pool. *)
Lemma scheduler_discard_running σ w o :
  objects σ !! w = Some o ->
  _discarded o = false ->
  _running (executor σ) = true ->
  let σ' := snd (on_scheduler_thread (_discard w) σ) in
  _workers (executor σ') = {[length (objects σ)]} ∪ _workers (executor σ) /\
  objects σ' =
    <[w := mkWorker (_thread_name o) true (_task o)]> (objects σ) ++
    [mkWorker (worker_name (_name (executor σ)) (_worker_id (executor σ))) false None].
Proof.
  intros Hw Hd Hr.
  destruct (proj2 (discard_cases σ w o Hw) Hd) as (Heq & _ & _).
  unfold on_scheduler_thread. rewrite Heq.
  rewrite worker_discarded_running by exact Hr.
  cbn [snd]. unfold exec. simpl. by rewrite length_insert.
Qed.

(** The timer callback when no replacement is due. *)
Lemma scheduler_discard_quiet σ w o :
  objects σ !! w = Some o ->
  _discarded o = true \/ _running (executor σ) = false ->
  let σ' := snd (on_scheduler_thread (_discard w) σ) in
  _workers (executor σ') = _workers (executor σ) /\
  length (objects σ') = length (objects σ).
Proof.
  intros Hw Hcase. destruct (discard_cases σ w o Hw) as [Htwice Honce].
  unfold on_scheduler_thread. destruct (_discarded o) eqn:Hd.
  - by rewrite (Htwice eq_refl).
  - destruct Hcase as [|Hr]; [done|].
    destruct (Honce eq_refl) as (Heq & _ & _). rewrite Heq.
    rewrite worker_discarded_stopped by exact Hr.
    cbn [snd]. unfold exec. simpl. by rewrite length_insert.
Qed.

(** The thread function when the first iteration ends by
    [_WorkerDiscarded]: what is left is to log and to notify the
    executor. *)
Lemma run_discarded_exec σ w o t rest :
  objects σ !! w = Some o ->
  queued σ = ATask t :: rest ->
  _discarded o || timer_fires σ t = true ->
  exec (_run w) σ =
    exec (try_finally (emit (Log_debug "Worker was discarded")) (_worker_stopped w))
      (exec (_execute_task w) (loop_start σ o)).
Proof.
  intros Hw Hq Hflag.
  destruct (execute_task_spec (loop_start σ o) w o t rest Hw Hq) as (Hres & _).
  change (timer_fires (loop_start σ o) t) with (timer_fires σ t) in Hres.
  rewrite Hflag in Hres.
  unfold exec at 3.
  destruct (_execute_task w (loop_start σ o)) as [r σ1] eqn:Hbody.
  cbn [fst snd] in *. unfold iteration_result in Hres. subst r.
  unfold exec, _run.
  rewrite (bind_ok _ _ _ _ _ (worker_ok σ w o Hw)).
  erewrite bind_ok by reflexivity. erewrite bind_ok by reflexivity.
  match goal with |- context [try_finally ?b ?f ?s] =>
    change s with (loop_start σ o) end.
  unfold try_finally, try_except. cbn beta. cbn [while_True].
  by rewrite (bind_raise _ _ _ _ _ Hbody).
Qed.

End ReplacementFacts.

(** X12. The pool heals itself.  In a running pool, a live worker that is
    not discarded takes a task whose timer fires during the iteration: when
    the thread function has returned, the worker has left the live set and
    the one worker built by the timer callback, with the next name, not
    discarded, has taken its place, so the live set has the size it had;
    the rest of the queue is untouched. *)
Theorem discarded_worker_is_replaced
    (σ : World) (w : nat) (o : _Worker) (t : Task) (rest : list Item) :
  objects σ !! w = Some o ->
  _discarded o = false ->
  queued σ = ATask t :: rest ->
  live w σ ->
  refs_valid σ ->
  _running (executor σ) = true ->
  timer_fires σ t = true ->
  let k := length (objects σ) in
  let σ' := exec (_run w) σ in
  fst (_run w σ) = Ok tt /\
  _workers (executor σ') = ({[k]} ∪ _workers (executor σ)) ∖ {[w]} /\
  size (_workers (executor σ')) = size (_workers (executor σ)) /\
  length (objects σ') = S k /\
  (exists o', objects σ' !! k = Some o' /\
     _thread_name o' = worker_name (_name (executor σ)) (_worker_id (executor σ)) /\
     _discarded o' = false) /\
  queued σ' = rest.
Proof.
  intros Hw Hd Hq Hl Hvalid Hr Hfire k σ'.
  assert (Hflag : _discarded o || timer_fires σ t = true) by (by rewrite Hfire, orb_true_r).
  destruct (run_discarded σ w o t rest Hw Hq Hl Hflag) as (Hok & Hrest & _ & _).
  split; [exact Hok|].
  set (W := _workers (executor σ)).
  set (σ0 := loop_start σ o).
  set (τ := at_call w o t rest σ0).
  assert (Hwτ : objects τ !! w = Some (mkWorker (_thread_name o) (_discarded o) (Some t)))
    by (by apply at_call_lookup).
  assert (Hlenτ : length (objects τ) = k).
  { unfold τ, at_call. simpl. by rewrite length_insert. }
  destruct (scheduler_discard_running τ w _ Hwτ Hd Hr) as [Hws Hobjs].
  rewrite Hlenτ in Hws.
  change (_workers (executor τ)) with W in Hws.
  set (new := mkWorker (worker_name (_name (executor σ)) (_worker_id (executor σ)))
                false None) in *.
  change (_name (executor τ)) with (_name (executor σ)) in Hobjs.
  change (_worker_id (executor τ)) with (_worker_id (executor σ)) in Hobjs.
  fold new in Hobjs.
  assert (Hlook : objects (snd (on_scheduler_thread (_discard w) τ)) !! k = Some new).
  { rewrite Hobjs. rewrite lookup_app_r by (rewrite length_insert; lia).
    rewrite length_insert, Hlenτ, Nat.sub_diag. done. }
  set (σ1 := exec (_execute_task w) σ0).
  assert (H1 : workers_are ({[k]} ∪ W) σ1).
  { apply (iteration_post _ σ0 w o t rest Hw Hq); [done|].
    intros Hno. change (timer_fires σ0 t) with (timer_fires σ t) in Hno. congruence. }
  assert (H2 : objects_count (S k) σ1).
  { apply (iteration_post _ σ0 w o t rest Hw Hq).
    - intros _. unfold objects_count. fold τ. rewrite Hobjs, length_app, length_insert.
      rewrite Hlenτ. simpl. lia.
    - intros Hno. change (timer_fires σ0 t) with (timer_fires σ t) in Hno. congruence. }
  assert (H3 : named k (_thread_name new) σ1).
  { apply (iteration_post _ σ0 w o t rest Hw Hq).
    - intros _. by exists new.
    - intros Hno. change (timer_fires σ0 t) with (timer_fires σ t) in Hno. congruence. }
  assert (H4 : flag_of k false σ1).
  { apply (iteration_post _ σ0 w o t rest Hw Hq).
    - intros _. by exists new.
    - intros Hno. change (timer_fires σ0 t) with (timer_fires σ t) in Hno. congruence. }
  assert (Hrun : σ' =
            exec (_worker_stopped w) (exec (emit (Log_debug "Worker was discarded")) σ1)).
  { subst σ'. rewrite (run_discarded_exec σ w o t rest Hw Hq Hflag). fold σ0 σ1.
    unfold exec at 1, try_finally. cbn [emit].
    set (σ2 := exec (emit (Log_debug "Worker was discarded")) σ1).
    assert (Hl2 : live w σ2).
    { unfold live. change (_workers (executor σ2)) with (_workers (executor σ1)).
      rewrite H1. apply elem_of_union. by right. }
    change (mkWorld (executor σ1) (objects σ1)
              (trace σ1 ++ [Log_debug "Worker was discarded"])) with σ2.
    unfold exec. by rewrite (worker_stopped_live σ2 w Hl2). }
  assert (Hwk : w ≠ k) by (apply lookup_lt_Some in Hw; fold k in Hw; lia).
  assert (Hfresh : k ∉ W).
  { intros Hin. specialize (Hvalid k Hin). simpl in Hvalid. fold k in Hvalid. lia. }
  assert (Hl1 : live w (exec (emit (Log_debug "Worker was discarded")) σ1)).
  { unfold live. change (_workers (executor (exec (emit _) σ1)))
      with (_workers (executor σ1)). rewrite H1. apply elem_of_union. by right. }
  assert (Hws' : _workers (executor σ') = ({[k]} ∪ W) ∖ {[w]}).
  { rewrite Hrun. unfold exec at 1. rewrite (worker_stopped_live _ w Hl1).
    cbn [snd executor _workers]. by rewrite <- H1. }
  assert (Hobj' : objects σ' = objects σ1).
  { rewrite Hrun. unfold exec at 1. by rewrite (worker_stopped_live _ w Hl1). }
  split; [exact Hws'|]. split; [|split; [|split]].
  - rewrite Hws'. rewrite size_difference.
    + rewrite size_union, !size_singleton; [lia|].
      intros x ->%elem_of_singleton. exact Hfresh.
    + apply singleton_subseteq_l, elem_of_union. by right.
  - by rewrite Hobj'.
  - destruct H3 as (o3 & Ho3 & Hn3). destruct H4 as (o4 & Ho4 & Hd4).
    exists o3. rewrite Hobj'. split; [done|]. split; [done|]. by simplify_eq.
  - exact Hrest.
Qed.

Lemma discarded_worker_is_replaced_witness :
  let σ := exec (dispatch ok_job (Some 5)) (exec start (boot "pool" 2 2 always)) in
  let σ' := exec (_run 0%nat) σ in
  fst (_run 0%nat σ) = Ok tt /\
  elements (_workers (executor σ')) = [2%nat; 1%nat] /\
  size (_workers (executor σ')) = 2%nat /\
  length (objects σ') = 3%nat.
Proof.
  intros σ σ'.
  destruct (discarded_worker_is_replaced σ 0%nat (mkWorker "pool/0" false None)
              (mkTask ok_job (Some 5)) [] eq_refl eq_refl eq_refl
              ltac:(unfold live; apply (bool_decide_unpack _); vm_compute; reflexivity)
              ltac:(apply (bool_decide_unpack _); vm_compute; reflexivity)
              eq_refl eq_refl)
    as (Hok & Hws & Hsize & Hlen & _).
  split; [exact Hok|]. split; [|split; [exact Hsize|exact Hlen]].
  fold σ' in Hws. rewrite Hws. vm_compute. reflexivity.
Defined.

(** X13. No replacement without cause.  An iteration on a task leaves the
    live set as it is and builds no worker object when the timer of the
    task does not fire (in particular when the task has no timeout), when
    the worker was discarded already (the second discard ends in the
    scheduler thread), or when the executor is not running. *)
Theorem iteration_without_replacement
    (σ : World) (w : nat) (o : _Worker) (t : Task) (rest : list Item) :
  objects σ !! w = Some o ->
  queued σ = ATask t :: rest ->
  timer_fires σ t = false \/ _discarded o = true \/ _running (executor σ) = false ->
  let σ' := exec (_execute_task w) σ in
  _workers (executor σ') = _workers (executor σ) /\
  length (objects σ') = length (objects σ) /\
  (timeout t = None -> timer_fires σ t = false).
Proof.
  intros Hw Hq Hcase σ'.
  set (τ := at_call w o t rest σ).
  assert (Hwτ : objects τ !! w = Some (mkWorker (_thread_name o) (_discarded o) (Some t)))
    by (by apply at_call_lookup).
  assert (Hlenτ : length (objects τ) = length (objects σ)).
  { unfold τ, at_call. simpl. by rewrite length_insert. }
  assert (Hquiet : timer_fires σ t = true ->
            _workers (executor (snd (on_scheduler_thread (_discard w) τ))) =
              _workers (executor σ) /\
            length (objects (snd (on_scheduler_thread (_discard w) τ))) =
              length (objects σ)).
  { intros Hfire. rewrite <- Hlenτ.
    apply (scheduler_discard_quiet τ w _ Hwτ).
    destruct Hcase as [Hno|[Hd|Hr]]; [congruence|by left|by right]. }
  split; [|split].
  - apply (iteration_post (workers_are (_workers (executor σ))) σ w o t rest Hw Hq).
    + intros Hfire. by apply Hquiet.
    + done.
  - apply (iteration_post (objects_count (length (objects σ))) σ w o t rest Hw Hq).
    + intros Hfire. by apply Hquiet.
    + intros _. exact Hlenτ.
  - intros Hnone. unfold timer_fires. by rewrite Hnone.
Qed.

Lemma iteration_without_replacement_witness :
  let σ := exec (dispatch ok_job None) (exec start (boot "pool" 1 1 always)) in
  let σ' := exec (_execute_task 0%nat) σ in
  _workers (executor σ') = _workers (executor σ) /\
  length (objects σ') = 1%nat.
Proof.
  intros σ σ'.
  destruct (iteration_without_replacement σ 0%nat (mkWorker "pool/0" false None)
              (mkTask ok_job None) [] eq_refl eq_refl (or_introl eq_refl))
    as (Hws & Hlen & _).
  by split.
Defined.

(** ** The order of execution *)

(** As [keep], for properties of the calls recorded in the trace. *)
Ltac quiet :=
  repeat first
    [ apply preserves_ret
    | apply preserves_raise
    | apply preserves_self
    | apply preserves_worker
    | apply keeps_quiet_emit; reflexivity
    | apply keeps_on_tasks
    | apply keeps_add_worker
    | apply keeps_worker_stopped
    | apply keeps_set_task
    | apply keeps_set_discarded
    | assumption
    | apply preserves_bind; [|intros ?]
    | apply preserves_try_finally
    | match goal with
      | |- preserves _ (if ?b then _ else _) => destruct b
      | |- preserves _ (match ?x with _ => _ end) => destruct x
      end ].

Section Calls.

Implicit Types (σ : World) (w : nat) (o : _Worker) (t : Task).

Global Instance calls_are_quiet l : KeepsQuietEmit (calls_are l).
Proof.
  intros ev Hev σ H. unfold calls_are, calls, emit in *. simpl.
  rewrite omap_app. simpl. rewrite Hev. by rewrite app_nil_r.
Qed.
Global Instance calls_are_tasks l : KeepsTasks (calls_are l).
Proof. unfold calls_are, calls; unfold_action. intros A f σ H. simpl. by destruct (f _). Qed.
Global Instance calls_are_add_worker l : KeepsAddWorker (calls_are l).
Proof.
  unfold calls_are, calls; unfold_action. intros σ H. simpl.
  rewrite omap_app. simpl. by rewrite app_nil_r.
Qed.
Global Instance calls_are_worker_stopped l : KeepsWorkerStopped (calls_are l).
Proof. unfold calls_are, calls; unfold_action. intros w σ H. simpl. by case_match. Qed.
Global Instance calls_are_set_task l : KeepsSetTask (calls_are l).
Proof. unfold calls_are, calls; unfold_action. intros w t σ H. by destruct (objects σ !! w). Qed.
Global Instance calls_are_set_discarded l : KeepsSetDiscarded (calls_are l).
Proof. unfold calls_are, calls; unfold_action. intros w σ H. by destruct (objects σ !! w). Qed.

Lemma scheduler_discard_calls l w :
  preserves (calls_are l) (on_scheduler_thread (_discard w)).
Proof.
  intros σ H. unfold on_scheduler_thread.
  assert (Hd : preserves (calls_are l) (_discard w)).
  { unfold _discard. quiet. }
  specialize (Hd σ H). destruct (_discard w σ) as [[[]|e|] σ']; cbn [snd] in *; try done.
  by apply (keeps_quiet_emit (Scheduler_got e)).
Qed.

(** An iteration on a task calls the callable of the task, once, and no
    other: however the call and the iteration end. *)
Lemma execute_task_calls σ w o t rest :
  objects σ !! w = Some o ->
  queued σ = ATask t :: rest ->
  calls (snd (_execute_task w σ)) = calls σ ++ [callable t].
Proof.
  intros Hw Hq.
  change (calls_are (calls σ ++ [callable t]) (snd (_execute_task w σ))).
  unfold _execute_task.
  rewrite (bind_ok _ _ _ _ _ (next_task_task σ t rest Hq)).
  set (σa := with_queue rest σ).
  assert (Harm : exists d σb,
             _discard_after w (timeout t) σa = (Ok d, σb) /\
             objects σb = objects σ /\ calls σb = calls σ).
  { unfold _discard_after. destruct (timeout t) as [delay|].
    - exists (Some (handle delay w)), (exec (emit (Scheduled delay w)) σa).
      repeat split. unfold calls, exec. simpl. rewrite omap_app. simpl.
      by rewrite app_nil_r.
    - by exists None, σa. }
  destruct Harm as (d & σb & Harm & Hobjb & Hcallsb).
  rewrite (bind_ok _ _ _ _ _ Harm).
  assert (Hwb : objects σb !! w = Some o) by (by rewrite Hobjb).
  rewrite (bind_ok _ _ _ _ _ (set_task_ok σb w o (Some t) Hwb)).
  apply try_finally_post; [|quiet; destruct d; quiet].
  apply try_except_post;
    [|intros e h' He; destruct (is_Exception e); simplify_eq; quiet].
  unfold run_callable.
  erewrite bind_ok by reflexivity. erewrite bind_ok by reflexivity.
  apply bind_post; [|intros []; destruct (call (callable t)); quiet].
  assert (Hnow : calls_are (calls σ ++ [callable t])
            (mkWorld (executor σb)
               (<[w:=mkWorker (_thread_name o) (_discarded o) (Some t)]> (objects σb))
               (trace σb ++ [Called (callable t)]))).
  { unfold calls_are, calls in *. simpl. rewrite omap_app. simpl. by rewrite Hcallsb. }
  destruct d as [[delay w']|]; [|exact Hnow].
  match goal with |- context [if ?b then _ else _] => destruct b end; [|exact Hnow].
  by apply scheduler_discard_calls.
Qed.

End Calls.

Section Order.

Implicit Types (σ : World) (w : nat) (o : _Worker) (t : Task) (ts : list Task).

(** The loop of a worker over a queue of tasks that all end normally and
    whose timers do not fire. *)
Lemma loop_runs_in_order w ts :
  forall σ o fuel,
    (length ts < fuel)%nat ->
    objects σ !! w = Some o ->
    _discarded o = false ->
    queued σ = ATask <$> ts ->
    Forall (fun t => timer_fires σ t = false /\ caught (callable t) = true) ts ->
    exists σ',
      while_True fuel (_execute_task w) σ = (Blocked, σ') /\
      calls σ' = calls σ ++ (callable <$> ts) /\
      queued σ' = [] /\
      _workers (executor σ') = _workers (executor σ) /\
      length (objects σ') = length (objects σ) /\
      flag_of w false σ'.
Proof.
  induction ts as [|t ts IH]; intros σ o fuel Hfuel Hw Hd Hq Hts.
  - destruct fuel as [|n]; [simpl in Hfuel; lia|].
    exists σ. cbn [while_True].
    assert (Hblock : _execute_task w σ = (Blocked, σ)).
    { unfold _execute_task. by rewrite (bind_blocked _ _ _ _ (next_task_empty σ Hq)). }
    rewrite (bind_blocked _ _ _ _ Hblock). simpl. rewrite app_nil_r.
    repeat split; try done. by exists o.
  - destruct fuel as [|n]; [simpl in Hfuel; lia|].
    apply Forall_cons in Hts as [[Hquiet Hcaught] Hts].
    simpl in Hq.
    destruct (execute_task_spec σ w o t (ATask <$> ts) Hw Hq)
      as (Hres & Hqueue & Hw1 & _).
    rewrite Hd, Hquiet in Hres, Hw1. cbn [orb] in Hres, Hw1.
    pose proof (execute_task_calls σ w o t _ Hw Hq) as Hcalls.
    assert (Hsched : configured (_name (executor σ)) (_workers_count (executor σ))
                       (TaskQueue._max_tasks (_tasks (executor σ)))
                       (_scheduler (executor σ)) (snd (_execute_task w σ))).
    { apply (iteration_post _ σ w o t _ Hw Hq); [congruence|]. by intros _. }
    assert (Hws : workers_are (_workers (executor σ)) (snd (_execute_task w σ))).
    { apply (iteration_post _ σ w o t _ Hw Hq); [congruence|]. by intros _. }
    assert (Hlen : objects_count (length (objects σ)) (snd (_execute_task w σ))).
    { apply (iteration_post _ σ w o t _ Hw Hq); [congruence|].
      intros _. unfold objects_count, at_call. simpl. by rewrite length_insert. }
    assert (Hok : iteration_result false t = Ok tt).
    { unfold iteration_result, caught in *.
      destruct (call (callable t)) as [|e]; [done|]. by rewrite Hcaught. }
    rewrite Hok in Hres.
    destruct (_execute_task w σ) as [r σ1] eqn:Hbody. cbn [fst snd] in *. subst r.
    destruct Hsched as (_ & _ & _ & Hs).
    destruct (IH σ1 _ n ltac:(simpl in Hfuel; lia) Hw1 eq_refl Hqueue)
      as (σ' & Hloop & Hcalls' & Hq' & Hws' & Hlen' & Hflag').
    { eapply Forall_impl; [exact Hts|]. intros t' [Hq1 Hc1]. split; [|done].
      unfold timer_fires in *. by rewrite Hs. }
    exists σ'. cbn [while_True]. rewrite (bind_ok _ _ _ _ _ Hbody).
    split; [exact Hloop|]. split.
    { rewrite Hcalls', Hcalls. simpl. by rewrite <- app_assoc. }
    split; [done|]. split; [by rewrite Hws', Hws|].
    split; [by rewrite Hlen', Hlen|done].
Qed.

End Order.

(** X14. The tasks are executed in the order of the queue.  A worker that
    is not discarded, over a queue of tasks whose calls return or raise an
    [Exception] and whose timers do not fire, calls the callables of all of
    them, each once, in queue order, and then blocks in [get] on the
    emptied queue; the live set and the worker objects are as many as
    before and the worker is still not discarded. *)
Theorem worker_runs_tasks_in_queue_order
    (σ : World) (w : nat) (o : _Worker) (ts : list Task) :
  objects σ !! w = Some o ->
  _discarded o = false ->
  queued σ = ATask <$> ts ->
  Forall (fun t => timer_fires σ t = false /\ caught (callable t) = true) ts ->
  let σ' := exec (_run w) σ in
  fst (_run w σ) = Blocked /\
  calls σ' = calls σ ++ (callable <$> ts) /\
  queued σ' = [] /\
  _workers (executor σ') = _workers (executor σ) /\
  length (objects σ') = length (objects σ) /\
  (exists o', objects σ' !! w = Some o' /\ _discarded o' = false).
Proof.
  intros Hw Hd Hq Hts σ'.
  destruct (loop_runs_in_order w ts (loop_start σ o) o
              (S (pending (loop_start σ o)))) as (σ1 & Hloop & Hrest); try done.
  { unfold pending.
    change (TaskQueue._tasks (_tasks (executor (loop_start σ o)))) with (queued σ).
    rewrite Hq, length_fmap. lia. }
  assert (Hrun : _run w σ = (Blocked, σ1)).
  { unfold _run.
    rewrite (bind_ok _ _ _ _ _ (worker_ok σ w o Hw)).
    erewrite bind_ok by reflexivity. erewrite bind_ok by reflexivity.
    match goal with |- context [try_finally ?b ?f ?s] =>
      change s with (loop_start σ o) end.
    unfold try_finally, try_except. cbn beta. by rewrite Hloop. }
  subst σ'. unfold exec. rewrite Hrun. cbn [fst snd].
  destruct Hrest as (Hcalls & Hq' & Hws & Hlen & Hflag).
  split; [done|]. split; [|by repeat split].
  rewrite Hcalls. f_equal. unfold calls, loop_start, exec. simpl.
  rewrite !omap_app. simpl. by rewrite !app_nil_r.
Qed.

Lemma worker_runs_tasks_in_queue_order_witness :
  let σ := exec (dispatch ok_job None)
             (exec (dispatch bad_job None)
                (exec (dispatch ok_job (Some 7)) (exec start (boot "pool" 1 3 never)))) in
  fst (_run 0%nat σ) = Blocked /\
  calls (exec (_run 0%nat) σ) = [ok_job; bad_job; ok_job].
Proof.
  intros σ.
  destruct (worker_runs_tasks_in_queue_order σ 0%nat (mkWorker "pool/0" false None)
              [mkTask ok_job (Some 7); mkTask bad_job None; mkTask ok_job None]
              eq_refl eq_refl eq_refl
              ltac:(repeat constructor))
    as (Hb & Hc & _).
  by split.
Defined.

(** ** Back-pressure *)

Section BackPressure.

Implicit Types (q : TaskQueue.t) (xs : list Item).

Lemma puts_prefix xs q :
  0 <= TaskQueue.len q <= TaskQueue._max_tasks q ->
  fst (puts xs q) = take (Z.to_nat (TaskQueue._max_tasks q - TaskQueue.len q)) xs.
Proof.
  revert q. induction xs as [|x xs IH]; intros q Hb.
  - by rewrite take_nil.
  - cbn [puts]. unfold TaskQueue.put.
    destruct (Z.eqb_spec (TaskQueue.len q) (TaskQueue._max_tasks q)) as [Heq|Hne].
    + rewrite IH by exact Hb. rewrite Heq, Z.sub_diag. by rewrite !take_0.
    + set (q' := TaskQueue.mk (TaskQueue._max_tasks q) (TaskQueue._tasks q ++ [x])).
      assert (Hlen : TaskQueue.len q' = TaskQueue.len q + 1).
      { unfold TaskQueue.len, q'. simpl. rewrite length_app. simpl.
        rewrite Nat2Z.inj_add. simpl. lia. }
      specialize (IH q'). rewrite Hlen in IH.
      change (TaskQueue._max_tasks q') with (TaskQueue._max_tasks q) in IH.
      destruct (puts xs q') as [acc q'']. cbn [fst] in *.
      rewrite IH by lia.
      replace (Z.to_nat (TaskQueue._max_tasks q - TaskQueue.len q))
        with (S (Z.to_nat (TaskQueue._max_tasks q - (TaskQueue.len q + 1)))) by lia.
      done.
Qed.

Lemma puts_unbounded xs q :
  TaskQueue._max_tasks q < 0 -> fst (puts xs q) = xs.
Proof.
  revert q. induction xs as [|x xs IH]; intros q Hneg; [done|].
  cbn [puts]. unfold TaskQueue.put.
  destruct (Z.eqb_spec (TaskQueue.len q) (TaskQueue._max_tasks q)) as [Heq|Hne].
  - unfold TaskQueue.len in Heq. lia.
  - specialize (IH (TaskQueue.mk (TaskQueue._max_tasks q) (TaskQueue._tasks q ++ [x])) Hneg).
    destruct (puts xs _) as [acc q'']. cbn [fst] in *. by rewrite IH.
Qed.

End BackPressure.

(** X15. Without a [get] in between, a queue within its capacity accepts
    exactly the first items put, as many as it has room for, and rejects
    every later one; a queue of capacity 0 accepts nothing.  A negative
    capacity is never equal to a length, so such a queue accepts
    everything. *)
Theorem puts_accept_a_prefix (q : TaskQueue.t) (xs : list Item) :
  (0 <= TaskQueue.len q <= TaskQueue._max_tasks q ->
     fst (puts xs q) = take (Z.to_nat (TaskQueue._max_tasks q - TaskQueue.len q)) xs /\
     TaskQueue._tasks (snd (puts xs q)) =
       TaskQueue._tasks q ++
       take (Z.to_nat (TaskQueue._max_tasks q - TaskQueue.len q)) xs) /\
  (TaskQueue._max_tasks q = 0 -> TaskQueue._tasks q = [] -> fst (puts xs q) = []) /\
  (TaskQueue._max_tasks q < 0 ->
     fst (puts xs q) = xs /\ TaskQueue._tasks (snd (puts xs q)) = TaskQueue._tasks q ++ xs).
Proof.
  split; [|split].
  - intros Hb. split; [by apply puts_prefix|]. by rewrite puts_tasks, puts_prefix.
  - intros H0 Hempty. rewrite puts_prefix.
    + unfold TaskQueue.len. rewrite H0, Hempty. simpl. by rewrite take_0.
    + unfold TaskQueue.len. rewrite H0, Hempty. simpl. lia.
  - intros Hneg. split; [by apply puts_unbounded|].
    by rewrite puts_tasks, puts_unbounded.
Qed.

Lemma puts_accept_a_prefix_witness :
  let a := ATask (mkTask ok_job None) in
  let b := ATask (mkTask bad_job None) in
  fst (puts [a; b; a; b] (TaskQueue.mk 3 [b])) = [a; b] /\
  fst (puts [a; b] (TaskQueue.__init__ 0)) = [] /\
  fst (puts [a; b; a] (TaskQueue.__init__ (-1))) = [a; b; a].
Proof.
  intros a b. split; [|split].
  - rewrite (proj1 (proj1 (puts_accept_a_prefix (TaskQueue.mk 3 [b]) [a; b; a; b])
                      ltac:(vm_compute; split; discriminate))).
    reflexivity.
  - apply (proj1 (proj2 (puts_accept_a_prefix (TaskQueue.__init__ 0) [a; b])));
      reflexivity.
  - apply (proj2 (proj2 (puts_accept_a_prefix (TaskQueue.__init__ (-1)) [a; b; a]))).
    reflexivity.
Defined.

Section DispatchMany.

Implicit Types (σ : World) (reqs : list (Callable * option Z)).

Lemma puts_snd_cons x xs q : snd (puts (x :: xs) q) = snd (puts xs (snd (TaskQueue.put x q))).
Proof.
  cbn [puts]. destruct (TaskQueue.put x q) as [[[]|e|] q']; cbn [snd];
    by destruct (puts xs q').
Qed.

Lemma dispatch_as_put σ c t :
  _running (executor σ) = true ->
  exec (dispatch c t) σ =
    with_queue (TaskQueue._tasks (snd (TaskQueue.put (ATask (mkTask c t)) (_tasks (executor σ))))) σ.
Proof.
  intros Hr. unfold exec. rewrite (dispatch_running σ c t Hr). unfold TaskQueue.put.
  destruct (_ =? _); cbn [snd]; [|done]. symmetry. apply with_queue_same.
Qed.

Lemma dispatches_as_puts reqs σ :
  _running (executor σ) = true ->
  history (request_op <$> reqs) σ =
    with_queue (TaskQueue._tasks (snd (puts (request_item <$> reqs) (_tasks (executor σ))))) σ.
Proof.
  revert σ. induction reqs as [|[c t] reqs IH]; intros σ Hr.
  - simpl. symmetry. apply with_queue_same.
  - cbn [fmap list_fmap]. change (history (request_op (c, t) :: ?l) σ)
      with (history l (exec (dispatch c t) σ)).
    rewrite (dispatch_as_put σ c t Hr). rewrite IH by exact Hr.
    rewrite puts_snd_cons. unfold with_queue. simpl.
    pose proof (put_max_tasks (_tasks (executor σ)) (ATask (mkTask c t))) as Hm.
    change (request_item (c, t)) with (ATask (mkTask c t)).
    destruct (TaskQueue.put (ATask (mkTask c t)) (_tasks (executor σ))) as [r [m l]].
    simpl in *. by subst m.
Qed.

End DispatchMany.

(** X16. A run of [dispatch] calls on a running executor whose queue is
    within its capacity changes nothing but the queue, which grows at its
    tail by the tasks of the first requests, in the order of the calls,
    as many as there is room for; the later requests are refused and
    leave no trace. *)
Theorem dispatches_queue_in_call_order
    (σ : World) (reqs : list (Callable * option Z)) :
  _running (executor σ) = true ->
  0 <= TaskQueue.len (_tasks (executor σ)) <= TaskQueue._max_tasks (_tasks (executor σ)) ->
  let room := Z.to_nat (TaskQueue._max_tasks (_tasks (executor σ)) -
                        TaskQueue.len (_tasks (executor σ))) in
  history (request_op <$> reqs) σ =
    with_queue (queued σ ++ take room (request_item <$> reqs)) σ.
Proof.
  intros Hr Hb room. rewrite (dispatches_as_puts reqs σ Hr).
  by rewrite puts_tasks, puts_prefix.
Qed.

Lemma dispatches_queue_in_call_order_witness :
  let σ := exec start (boot "pool" 1 2 never) in
  queued (history (request_op <$> [(ok_job, None); (bad_job, Some 3); (ok_job, Some 1)]) σ)
    = [ATask (mkTask ok_job None); ATask (mkTask bad_job (Some 3))].
Proof.
  intros σ.
  rewrite (dispatches_queue_in_call_order σ
             [(ok_job, None); (bad_job, Some 3); (ok_job, Some 1)] eq_refl
             ltac:(vm_compute; split; discriminate)).
  reflexivity.
Defined.

(** * Hardware information on ppc64 *)

Section DeviceTree.

Import Stdlib.Strings.Ascii.
Import builtins ppc64HardwareInfo.

Local Arguments Ascii.eqb : simpl never.
Local Arguments String.eqb : simpl never.

Lemma str_app_nil_l (t : string) : "" +:+ t = t.
Proof. reflexivity. Qed.

Lemma str_app_cons (a : ascii) (s t : string) :
  String a s +:+ t = String a (s +:+ t).
Proof. reflexivity. Qed.

Ltac str := rewrite ?str_app_cons, ?str_app_nil_l; simpl.

Lemma str_app_assoc (s t u : string) : (s +:+ t) +:+ u = s +:+ (t +:+ u).
Proof. induction s as [|a s IH]; str; [done|by rewrite IH]. Qed.

Lemma contains_app (c : ascii) (s t : string) :
  contains c (s +:+ t) = contains c s || contains c t.
Proof.
  induction s as [|a s IH]; str; [done|]. by rewrite IH, orb_assoc.
Qed.

Lemma contains_times (c d : ascii) (k : nat) :
  c <> d -> contains c (times d k) = false.
Proof.
  intros Hcd. induction k as [|k IH]; simpl; [done|].
  rewrite IH, orb_false_r. by apply Ascii.eqb_neq.
Qed.

Lemma replace_app (old : ascii) (new s t : string) :
  replace old new (s +:+ t) = replace old new s +:+ replace old new t.
Proof.
  induction s as [|a s IH]; str; [done|].
  destruct (Ascii.eqb a old); str; by rewrite IH, ?str_app_assoc.
Qed.

Lemma replace_removes (c : ascii) (s : string) :
  contains c (replace c "" s) = false.
Proof.
  induction s as [|a s IH]; simpl; [done|].
  destruct (Ascii.eqb a c) eqn:E; str; [done|].
  by rewrite IH, Ascii.eqb_sym, E.
Qed.

Lemma replace_absent (c : ascii) (new s : string) :
  contains c s = false -> replace c new s = s.
Proof.
  induction s as [|a s IH]; simpl; [done|].
  intros [Ha Hs]%orb_false_elim.
  rewrite Ascii.eqb_sym, Ha. by rewrite IH.
Qed.

Lemma readline_whole (s : string) :
  contains "010" s = false -> readline s = s.
Proof.
  induction s as [|a s IH]; simpl; [done|].
  intros [Ha Hs]%orb_false_elim.
  rewrite Ascii.eqb_sym, Ha. by rewrite IH.
Qed.

Lemma readline_first (v rest : string) :
  contains "010" v = false ->
  readline (v +:+ String "010" rest) = v +:+ String "010" "".
Proof.
  induction v as [|a v IH]; str; [done|].
  intros [Ha Hv]%orb_false_elim.
  rewrite Ascii.eqb_sym, Ha. by rewrite IH.
Qed.

Lemma rstrip_times (chars : string) (c : ascii) (k : nat) :
  contains c chars = true -> rstrip chars (times c k) = "".
Proof.
  intros Hc. induction k as [|k IH]; simpl; [done|]. by rewrite IH, Hc.
Qed.

Lemma rstrip_padding (chars v : string) (c : ascii) (k : nat) :
  contains c chars = true -> rstrip chars (v +:+ times c k) = rstrip chars v.
Proof.
  intros Hc. induction v as [|a v IH]; str.
  - by apply rstrip_times.
  - by rewrite IH.
Qed.

Lemma rstrip_last_kept (chars v : string) (c : ascii) :
  contains c chars = false ->
  rstrip chars (v +:+ String c "") = v +:+ String c "".
Proof.
  intros Hc. induction v as [|a v IH]; str.
  - by rewrite Hc.
  - rewrite IH. by destruct v.
Qed.

Lemma getFromDeviceTree_file (fs : FileSystem) (p content : string) :
  fs ("/proc/device-tree/" +:+ p) = Some (File content) ->
  _getFromDeviceTree fs p =
    Return (replace "," "" (rstrip (String "000" "") (readline content))).
Proof.
  intros H. unfold _getFromDeviceTree, exists_, open. cbv zeta. by rewrite H.
Qed.

Lemma getFromDeviceTree_cases (fs : FileSystem) (p : string) :
  (fs ("/proc/device-tree/" +:+ p) = Some Directory /\
   _getFromDeviceTree fs p = Failure IOError) \/
  (fs ("/proc/device-tree/" +:+ p) <> Some Directory /\
   exists v, _getFromDeviceTree fs p = Return v /\ contains "," v = false).
Proof.
  unfold _getFromDeviceTree, exists_, open. cbv zeta.
  destruct (fs ("/proc/device-tree/" +:+ p)) as [[content|]|].
  - right. split; [done|]. eexists. split; [done|]. apply replace_removes.
  - by left.
  - right. split; [done|]. by eexists.
Qed.

(** X17. A value that [_getFromDeviceTree] returns holds no comma, whatever
    the file of the property holds. *)
Theorem device_tree_value_has_no_comma (fs : FileSystem)
    (treeProperty value : string) :
  _getFromDeviceTree fs treeProperty = Return value ->
  contains "," value = false.
Proof.
  intros H.
  destruct (getFromDeviceTree_cases fs treeProperty) as [[_ E]|[_ (v & E & Hv)]];
    rewrite E in H; [done|]. by injection H as <-.
Qed.

Lemma device_tree_value_has_no_comma_witness :
  contains "," "IBM8247-22L" = false.
Proof.
  apply (device_tree_value_has_no_comma
           (machine "" [("model-name", "IBM,8247-22L")]) "model-name").
  vm_compute. reflexivity.
Defined.

(** X18. A property of the device tree is stored as text followed by NUL
    bytes.  When the text has no line feed and does not itself end in a
    NUL, [_getFromDeviceTree] returns exactly the text without its commas:
    the whole padding is stripped, however long it is. *)
Theorem device_tree_padding_is_stripped (fs : FileSystem)
    (treeProperty text : string) (k : nat) :
  fs ("/proc/device-tree/" +:+ treeProperty) = Some (File (text +:+ times "000" k)) ->
  contains "010" text = false ->
  rstrip (String "000" "") text = text ->
  _getFromDeviceTree fs treeProperty = Return (replace "," "" text).
Proof.
  intros Hfile Hlf Hend.
  rewrite (getFromDeviceTree_file _ _ _ Hfile).
  rewrite readline_whole.
  - by rewrite rstrip_padding, Hend.
  - by rewrite contains_app, Hlf, contains_times.
Qed.

Lemma device_tree_padding_is_stripped_witness :
  _getFromDeviceTree (machine "" [("system-id", "IBM,03212345" +:+ times "000" 2)])
    "system-id" = Return "IBM03212345".
Proof.
  apply (device_tree_padding_is_stripped _ "system-id" "IBM,03212345" 2);
    reflexivity.
Defined.

(** X19. Only the first line of the file is read, and its line feed
    stays in the value: since [rstrip] looks at the end of the line, NUL
    bytes in front of the line feed are not removed either. *)
Theorem device_tree_line_feed_is_kept (fs : FileSystem)
    (treeProperty line rest : string) :
  fs ("/proc/device-tree/" +:+ treeProperty) =
    Some (File (line +:+ String "010" rest)) ->
  contains "010" line = false ->
  _getFromDeviceTree fs treeProperty =
    Return (replace "," "" line +:+ String "010" "").
Proof.
  intros Hfile Hlf.
  rewrite (getFromDeviceTree_file _ _ _ Hfile).
  rewrite readline_first by done.
  rewrite rstrip_last_kept by done.
  by rewrite replace_app.
Qed.

Lemma device_tree_line_feed_is_kept_witness :
  _getFromDeviceTree
    (machine "" [("vendor", "IBM" +:+ String "000" (String "010" "second line"))])
    "vendor" = Return ("IBM" +:+ String "000" (String "010" "")).
Proof.
  apply (device_tree_line_feed_is_kept _ "vendor" ("IBM" +:+ String "000" "")
           "second line"); reflexivity.
Defined.

End DeviceTree.
Section CpuInfo.

Import Stdlib.Strings.Ascii.
Import builtins ppc64HardwareInfo.

Local Arguments Ascii.eqb : simpl never.
Local Arguments String.eqb : simpl never.

Lemma split1_cases (sep : ascii) (s : string) :
  (contains sep s = false /\ split1 sep s = [s]) \/
  (contains sep s = true /\ exists a b, split1 sep s = [a; b]).
Proof.
  induction s as [|c s IH]; simpl; [by left|].
  rewrite (Ascii.eqb_sym sep c).
  destruct (Ascii.eqb c sep); simpl.
  - right. split; [done|]. by eexists _, _.
  - destruct IH as [[H ->]|[H (a & b & ->)]]; [left|right]; split; try done.
    by eexists _, _.
Qed.

Lemma lstrip_empty (chars s : string) (c : ascii) :
  lstrip chars s = "" -> contains c s = true -> contains c chars = true.
Proof.
  induction s as [|a s IH]; simpl; [done|].
  destruct (contains a chars) eqn:Ha; [|done].
  intros Hs [Hc|Hc]%orb_true_iff; [|by apply IH].
  by apply Ascii.eqb_eq in Hc as ->.
Qed.

Lemma rstrip_contains (chars s : string) (c : ascii) :
  contains c s = true ->
  contains c (rstrip chars s) = true \/ contains c chars = true.
Proof.
  induction s as [|a s IH]; simpl; [done|].
  intros [Hc|Hc]%orb_true_iff.
  - destruct (rstrip chars s); simpl.
    + destruct (contains a chars) eqn:Ha.
      * right. by apply Ascii.eqb_eq in Hc as ->.
      * left. simpl. by rewrite Hc.
    + left. by rewrite Hc.
  - destruct (IH Hc) as [H|H]; [left|by right].
    destruct (rstrip chars s); simpl in *; [done|].
    by rewrite H, orb_true_r.
Qed.

Lemma blank_line_has_no_colon (line : string) :
  strip line = "" -> contains ":" line = false.
Proof.
  intros Hblank. destruct (contains ":" line) eqn:Hc; [|done].
  assert (contains ":" whitespace = true) as H; [|done].
  destruct (rstrip_contains whitespace line ":" Hc) as [H|H]; [|done].
  by apply (lstrip_empty _ _ _ Hblank).
Qed.

(** What the loop does with one line. *)
Lemma scan_cons (line : string) (lines : list string) (i : gmap string string) :
  (strip line = "" /\ field "platform" line = None /\ scan (line :: lines) i = scan lines i) \/
  (malformed line /\ scan (line :: lines) i = Failure ValueError) \/
  (exists a b, strip line <> "" /\ split1 ":" line = [a; b] /\
     scan (line :: lines) i = scan lines (store (strip a) (strip b) i)).
Proof.
  simpl. destruct (String.eqb_spec (strip line) "") as [Hb|Hb].
  - left. split; [done|]. split; [|done].
    unfold field.
    destruct (split1_cases ":" line) as [[_ ->]|[H _]]; [done|].
    by rewrite (blank_line_has_no_colon _ Hb) in H.
  - right. destruct (split1_cases ":" line) as [[H ->]|[H (a & b & ->)]].
    + by left.
    + right. by eexists _, _.
Qed.

Lemma scan_malformed (lines : list string) (i : gmap string string) :
  Exists malformed lines -> scan lines i = Failure ValueError.
Proof.
  revert i. induction lines as [|line lines IH]; intros i Hex.
  - by apply Exists_nil in Hex.
  - destruct (scan_cons line lines i)
      as [(Hb & _ & ->)|[[_ ->]|(a & b & Hnb & Hs & ->)]]; [|done|].
    + apply Exists_cons in Hex as [[Hne _]|Hex]; [done|by apply IH].
    + apply Exists_cons in Hex as [[_ Hc]|Hex]; [|by apply IH].
      destruct (split1_cases ":" line) as [[_ E]|[E _]]; congruence.
Qed.

Lemma scan_failure (lines : list string) (i : gmap string string) (e : Error) :
  scan lines i = Failure e -> e = ValueError /\ Exists malformed lines.
Proof.
  revert i. induction lines as [|line lines IH]; intros i; [done|].
  destruct (scan_cons line lines i)
    as [(Hb & _ & ->)|[[Hm ->]|(a & b & Hnb & Hs & ->)]].
  - intros [-> H]%IH. split; [done|]. by apply Exists_cons_tl.
  - intros [= <-]. split; [done|]. by apply Exists_cons_hd.
  - intros [-> H]%IH. split; [done|]. by apply Exists_cons_tl.
Qed.

Lemma store_dom (k v : string) (i : gmap string string) :
  {[ "systemSerialNumber"; "systemFamily"; "systemVersion" ]} ⊆ dom i ->
  dom (store k v i) = dom i.
Proof.
  intros Hdom. unfold store.
  repeat case_match; try done;
    apply dom_insert_lookup_L, elem_of_dom, Hdom;
    rewrite !elem_of_union, !elem_of_singleton; tauto.
Qed.

Lemma scan_dom (lines : list string) (i i' : gmap string string) :
  {[ "systemSerialNumber"; "systemFamily"; "systemVersion" ]} ⊆ dom i ->
  scan lines i = Return i' -> dom i' = dom i.
Proof.
  revert i. induction lines as [|line lines IH]; intros i Hdom.
  - by intros [= <-].
  - destruct (scan_cons line lines i)
      as [(Hb & _ & ->)|[[Hm ->]|(a & b & Hnb & Hs & ->)]]; [by apply IH|done|].
    intros H%IH; rewrite store_dom in *; done.
Qed.

(** The keys of the structure that come from [/proc/cpuinfo], each with
    the key of the line that feeds it. *)
Lemma store_lookup (target key k v : string) (i : gmap string string) :
  (target, key) ∈ [("systemFamily", "platform");
                   ("systemSerialNumber", "model");
                   ("systemVersion", "machine")] ->
  store k v i !! target = if String.eqb k key then Some v else i !! target.
Proof.
  intros H. unfold store.
  repeat (apply elem_of_cons in H as [[= -> ->]|H]);
    [| | |by apply elem_of_nil in H];
    repeat match goal with
      | |- context [String.eqb ?a ?b] =>
          destruct (String.eqb_spec a b); try subst k; try discriminate
      end;
    by repeat (rewrite lookup_insert_eq || rewrite lookup_insert_ne by done).
Qed.

Lemma field_split (key line a b : string) :
  split1 ":" line = [a; b] ->
  field key line = if String.eqb (strip a) key then Some (strip b) else None.
Proof. intros H. unfold field. by rewrite H. Qed.

Lemma field_blank (key line : string) :
  strip line = "" -> field key line = None.
Proof.
  intros Hb. unfold field.
  destruct (split1_cases ":" line) as [[_ ->]|[H _]]; [done|].
  by rewrite (blank_line_has_no_colon _ Hb) in H.
Qed.

Lemma scan_lookup (target key : string) (lines : list string)
    (i i' : gmap string string) :
  (target, key) ∈ [("systemFamily", "platform");
                   ("systemSerialNumber", "model");
                   ("systemVersion", "machine")] ->
  scan lines i = Return i' ->
  i' !! target =
    match last (omap (field key) lines) with
    | Some v => Some v
    | None => i !! target
    end.
Proof.
  intros Hk. revert i. induction lines as [|line lines IH]; intros i.
  - by intros [= <-].
  - destruct (scan_cons line lines i)
      as [(Hb & _ & ->)|[[Hm ->]|(a & b & Hnb & Hs & ->)]]; [|done|].
    + intros H%IH. simpl. by rewrite (field_blank _ _ Hb).
    + intros H%IH. rewrite H. simpl.
      rewrite (field_split _ _ _ _ Hs), (store_lookup _ _ _ _ _ Hk).
      destruct (String.eqb (strip a) key); [|done].
      rewrite last_cons. by destruct (last _).
Qed.

Lemma getHardwareInfoStructure_eq (fs : FileSystem) :
  getHardwareInfoStructure fs =
    match fs "/proc/cpuinfo" with
    | Some (File content) =>
        match scan (readlines content)
                {[ "systemSerialNumber" := "unavailable";
                   "systemFamily" := "unavailable";
                   "systemVersion" := "unavailable" ]} with
        | Return i =>
            match _getFromDeviceTree fs "system-id",
                  _getFromDeviceTree fs "model-name",
                  _getFromDeviceTree fs "vendor" with
            | Return u, Return p, Return m =>
                Return (<["systemManufacturer" := m]>
                          (<["systemProductName" := p]>
                             (<["systemUUID" := u]> i)))
            | _, _, _ => Failure IOError
            end
        | Failure e => Failure e
        end
    | _ => Failure IOError
    end.
Proof.
  unfold getHardwareInfoStructure, open. cbv zeta.
  destruct (fs "/proc/cpuinfo") as [[content|]|]; try done.
  unfold mbind, Result_bind at 1. destruct (scan _ _) as [i|e]; [|done].
  destruct (getFromDeviceTree_cases fs "system-id") as [[_ ->]|[_ (u & -> & _)]];
    [done|].
  destruct (getFromDeviceTree_cases fs "model-name") as [[_ ->]|[_ (p & -> & _)]];
    [done|].
  by destruct (getFromDeviceTree_cases fs "vendor") as [[_ ->]|[_ (m & -> & _)]].
Qed.

Lemma hardware_info_returns (fs : FileSystem) (content : string) :
  fs "/proc/cpuinfo" = Some (File content) ->
  Forall (fun line => strip line = "" \/ contains ":" line = true)
    (readlines content) ->
  Forall (fun treeProperty =>
            fs ("/proc/device-tree/" +:+ treeProperty) <> Some Directory)
    ["system-id"; "model-name"; "vendor"] ->
  exists info, getHardwareInfoStructure fs = Return info.
Proof.
  intros Hfile Hlines Htree. rewrite getHardwareInfoStructure_eq, Hfile.
  destruct (scan _ _) as [i|e] eqn:Hscan.
  - apply Forall_cons in Htree as [H1 Htree].
    apply Forall_cons in Htree as [H2 Htree].
    apply Forall_cons in Htree as [H3 _].
    destruct (getFromDeviceTree_cases fs "system-id") as [[E _]|[_ (u & -> & _)]];
      [done|].
    destruct (getFromDeviceTree_cases fs "model-name") as [[E _]|[_ (p & -> & _)]];
      [done|].
    destruct (getFromDeviceTree_cases fs "vendor") as [[E _]|[_ (m & -> & _)]];
      [done|].
    by eexists.
  - apply scan_failure in Hscan as [_ Hex].
    apply Exists_exists in Hex as (line & Hin & Hne & Hc).
    rewrite Forall_forall in Hlines.
    destruct (Hlines line Hin) as [H|H]; [done|congruence].
Qed.

(** X20. A structure that [getHardwareInfoStructure] returns has exactly
    six fields, whatever [/proc/cpuinfo] holds; the three that do not come
    from it hold what [_getFromDeviceTree] returns for [system-id],
    [model-name] and [vendor]. *)
Theorem hardware_info_has_six_fields (fs : FileSystem) (info : gmap string string) :
  getHardwareInfoStructure fs = Return info ->
  dom info = {[ "systemSerialNumber"; "systemFamily"; "systemVersion";
                "systemUUID"; "systemProductName"; "systemManufacturer" ]} /\
  exists u p m,
    _getFromDeviceTree fs "system-id" = Return u /\
    _getFromDeviceTree fs "model-name" = Return p /\
    _getFromDeviceTree fs "vendor" = Return m /\
    info !! "systemUUID" = Some u /\
    info !! "systemProductName" = Some p /\
    info !! "systemManufacturer" = Some m.
Proof.
  rewrite getHardwareInfoStructure_eq.
  destruct (fs "/proc/cpuinfo") as [[content|]|]; try done.
  destruct (scan _ _) as [i|e] eqn:Hscan; [|done].
  destruct (_getFromDeviceTree fs "system-id") as [u|]; [|done].
  destruct (_getFromDeviceTree fs "model-name") as [p|]; [|done].
  destruct (_getFromDeviceTree fs "vendor") as [m|]; [|done].
  intros [= <-]. split.
  - apply scan_dom in Hscan.
    + rewrite !dom_insert_L, Hscan, !dom_insert_L, dom_singleton_L.
      apply set_eq. intros x.
      rewrite !elem_of_union, !elem_of_singleton. tauto.
    + rewrite !dom_insert_L, dom_singleton_L. intros x.
      rewrite !elem_of_union, !elem_of_singleton. tauto.
  - exists u, p, m. repeat split; try done;
      by repeat (rewrite lookup_insert_eq || rewrite lookup_insert_ne by done).
Qed.

Lemma hardware_info_has_six_fields_witness :
  exists info,
    getHardwareInfoStructure
      (machine ("platform : pSeries" +:+ String "010" "")
               [("vendor", "IBM" +:+ String "000" "")]) = Return info /\
    dom info = {[ "systemSerialNumber"; "systemFamily"; "systemVersion";
                  "systemUUID"; "systemProductName"; "systemManufacturer" ]} /\
    info !! "systemManufacturer" = Some "IBM" /\
    info !! "systemUUID" = Some "unavailable".
Proof.
  destruct (hardware_info_returns
              (machine ("platform : pSeries" +:+ String "010" "")
                       [("vendor", "IBM" +:+ String "000" "")])
              ("platform : pSeries" +:+ String "010" "")) as [info Hinfo].
  - reflexivity.
  - repeat (constructor; [right; reflexivity|]). constructor.
  - repeat (constructor; [discriminate|]). constructor.
  - exists info. split; [exact Hinfo|].
    destruct (hardware_info_has_six_fields _ info Hinfo)
      as (Hdom & u & p & m & Hu & Hp & Hm & Hiu & Hip & Him).
    split; [exact Hdom|].
    injection Hu as <-. injection Hm as <-. by split.
Defined.

(** X21. With [/proc/cpuinfo] readable, [getHardwareInfoStructure] raises
    [ValueError] exactly when some line of it is not blank and has no
    colon; the lines in front of that line and behind it do not matter. *)
Theorem line_without_colon_raises_ValueError (fs : FileSystem) (content : string) :
  fs "/proc/cpuinfo" = Some (File content) ->
  getHardwareInfoStructure fs = Failure ValueError <->
  Exists malformed (readlines content).
Proof.
  intros Hfile. rewrite getHardwareInfoStructure_eq, Hfile. split.
  - destruct (scan _ _) as [i|e] eqn:Hscan.
    + by repeat case_match.
    + intros [= ->]. by apply scan_failure in Hscan as [_ H].
  - intros H. by rewrite scan_malformed.
Qed.

Lemma line_without_colon_raises_ValueError_witness :
  getHardwareInfoStructure
    (machine ("platform : pSeries" +:+ String "010" "timebase 512000000") []) =
  Failure ValueError.
Proof.
  apply (line_without_colon_raises_ValueError _
           ("platform : pSeries" +:+ String "010" "timebase 512000000"));
    [reflexivity|].
  assert (readlines ("platform : pSeries" +:+ String "010" "timebase 512000000") =
          ["platform : pSeries" +:+ String "010" ""; "timebase 512000000"]) as ->
    by (vm_compute; reflexivity).
  apply Exists_cons_tl, Exists_cons_hd. split; [by vm_compute|reflexivity].
Defined.

(** X22. The three fields that come from [/proc/cpuinfo] hold the value of
    the last line with the key [platform], [model] and [machine], and
    [unavailable] when no line has the key.  Key and value are the text
    before and after the first colon of the line, stripped: a value keeps
    its further colons and its commas. *)
Theorem last_cpuinfo_line_wins (fs : FileSystem) (content : string)
    (info : gmap string string) :
  fs "/proc/cpuinfo" = Some (File content) ->
  getHardwareInfoStructure fs = Return info ->
  let value key :=
    default "unavailable" (last (omap (field key) (readlines content))) in
  info !! "systemFamily" = Some (value "platform") /\
  info !! "systemSerialNumber" = Some (value "model") /\
  info !! "systemVersion" = Some (value "machine").
Proof.
  intros Hfile. rewrite getHardwareInfoStructure_eq, Hfile.
  destruct (scan _ _) as [i|e] eqn:Hscan; [|done].
  destruct (_getFromDeviceTree fs "system-id") as [u|]; [|done].
  destruct (_getFromDeviceTree fs "model-name") as [p|]; [|done].
  destruct (_getFromDeviceTree fs "vendor") as [m|]; [|done].
  intros [= <-] value.
  assert (Hfield : forall target key : string,
    (target, key) ∈ [("systemFamily", "platform");
                     ("systemSerialNumber", "model");
                     ("systemVersion", "machine")] ->
    target <> "systemUUID" -> target <> "systemProductName" ->
    target <> "systemManufacturer" ->
    ({[ "systemSerialNumber" := "unavailable"; "systemFamily" := "unavailable";
        "systemVersion" := "unavailable" ]} : gmap string string) !! target =
      Some "unavailable" ->
    (<["systemManufacturer" := m]>
       (<["systemProductName" := p]> (<["systemUUID" := u]> i))
       : gmap string string) !! target =
    Some (value key)).
  { intros target key Hk H1 H2 H3 Hinit.
    rewrite !lookup_insert_ne by done.
    rewrite (scan_lookup _ _ _ _ _ Hk Hscan), Hinit.
    unfold value. by destruct (last _). }
  repeat split; apply Hfield; try done;
    rewrite ?elem_of_cons; auto.
Qed.

Lemma last_cpuinfo_line_wins_witness :
  exists info,
    getHardwareInfoStructure
      (machine ("model : IBM,8247-22L" +:+ String "010" "" +:+
                "platform : pSeries" +:+ String "010" "" +:+
                "platform : PowerNV: 2" +:+ String "010" "") []) = Return info /\
    info !! "systemFamily" = Some "PowerNV: 2" /\
    info !! "systemSerialNumber" = Some "IBM,8247-22L" /\
    info !! "systemVersion" = Some "unavailable".
Proof.
  destruct (hardware_info_returns
              (machine ("model : IBM,8247-22L" +:+ String "010" "" +:+
                        "platform : pSeries" +:+ String "010" "" +:+
                        "platform : PowerNV: 2" +:+ String "010" "") [])
              ("model : IBM,8247-22L" +:+ String "010" "" +:+
               "platform : pSeries" +:+ String "010" "" +:+
               "platform : PowerNV: 2" +:+ String "010" "")) as [info Hinfo].
  - reflexivity.
  - repeat (constructor; [right; reflexivity|]). constructor.
  - repeat (constructor; [discriminate|]). constructor.
  - exists info. split; [exact Hinfo|].
    exact (last_cpuinfo_line_wins _ _ info eq_refl Hinfo).
Defined.

(** X23. [getHardwareInfoStructure] returns exactly when [/proc/cpuinfo] is
    a file whose lines are all blank or hold a colon, and none of the three
    paths in the device tree is a directory; a property that is missing is
    no error. *)
Theorem hardware_info_returns_iff (fs : FileSystem) :
  (exists info, getHardwareInfoStructure fs = Return info) <->
  (exists content,
     fs "/proc/cpuinfo" = Some (File content) /\
     Forall (fun line => strip line = "" \/ contains ":" line = true)
       (readlines content)) /\
  Forall (fun treeProperty =>
            fs ("/proc/device-tree/" +:+ treeProperty) <> Some Directory)
    ["system-id"; "model-name"; "vendor"].
Proof.
  rewrite getHardwareInfoStructure_eq. split.
  - intros [info H].
    destruct (fs "/proc/cpuinfo") as [[content|]|]; try done.
    destruct (scan _ _) as [i|e] eqn:Hscan; [|done]. split.
    + exists content. split; [done|].
      apply Forall_forall. intros line Hin.
      destruct (String.eqb_spec (strip line) ""); [by left|right].
      destruct (contains ":" line) eqn:Hc; [done|].
      rewrite scan_malformed in Hscan; [done|].
      apply Exists_exists. by exists line.
    + apply Forall_forall. intros p Hp.
      destruct (getFromDeviceTree_cases fs p) as [[_ E]|[E _]]; [|done].
      repeat (apply elem_of_cons in Hp as [->|Hp]);
        [| | |by apply elem_of_nil in Hp];
        rewrite E in H; by repeat case_match.
  - intros [(content & Hfile & Hlines) Htree].
    rewrite <- getHardwareInfoStructure_eq.
    by apply (hardware_info_returns fs content).
Qed.

End CpuInfo.

(** * Kernel thread names *)

Section KernelNames.

Implicit Types (σ : World) (w : nat) (o : _Worker).

Lemma substring_app_prefix (k : nat) (n t : string) :
  (k <= String.length n)%nat ->
  String.substring 0 k (n +:+ t) = String.substring 0 k n.
Proof.
  revert k. induction n as [|a n IH]; intros [|k] Hk.
  - rewrite str_app_nil_l. by destruct t.
  - simpl in Hk. lia.
  - by rewrite str_app_cons.
  - rewrite str_app_cons. simpl in *. rewrite IH; [done|lia].
Qed.

Lemma run_sets_kernel_name σ w o :
  objects σ !! w = Some o ->
  traced (Pthread_setname (String.substring 0 15 (_thread_name o)))
    (exec (_run w) σ).
Proof.
  intros Hw. unfold exec, _run.
  rewrite (bind_ok _ _ _ _ _ (worker_ok σ w o Hw)).
  apply (bind_post
           (traced (Pthread_setname (String.substring 0 15 (_thread_name o))))).
  - unfold traced, emit. simpl. apply elem_of_app. right.
    by apply list_elem_of_singleton.
  - intros []. keep.
    intros σ' H.
    by apply preserves_while_True; [apply keep_execute_task, traced_stable|].
Qed.

End KernelNames.

(** X24. The name passed to [pthread.setname] is the first 15 characters of
    the worker's name [n/i].  The worker names of a pool are distinct, but
    when the name of the pool has 15 characters or more, every worker of
    the pool sets the same kernel thread name, the first 15 characters of
    the pool's name. *)
Theorem kernel_thread_name_is_truncated (n : string) (wc mt : Z) (s : Scheduler)
    (ops : list Op) (w : nat) :
  let σ := history ops (boot n wc mt s) in
  (w < length (objects σ))%nat ->
  traced (Pthread_setname
            (String.substring 0 15 (n +:+ "/" +:+ pretty (Z.of_nat w))))
    (exec (_run w) σ) /\
  ((15 <= String.length n)%nat ->
   traced (Pthread_setname (String.substring 0 15 n)) (exec (_run w) σ)).
Proof.
  intros σ Hw.
  destruct (lookup_lt_is_Some_2 _ _ Hw) as [o Ho].
  assert (Hinv : names_inv n σ) by apply (keep_history _), boot_names_inv.
  destruct Hinv as (_ & _ & Hobj).
  pose proof (run_sets_kernel_name σ w o Ho) as Ht.
  rewrite (Hobj w o Ho) in Ht. unfold worker_name in Ht.
  split; [exact Ht|]. intros Hlen.
  by rewrite substring_app_prefix in Ht.
Qed.

Lemma kernel_thread_name_is_truncated_witness :
  let σ := history [Start] (boot "periodic-operations" 2 10 never) in
  traced (Pthread_setname "periodic-operat") (exec (_run 0%nat) σ) /\
  traced (Pthread_setname "periodic-operat") (exec (_run 1%nat) σ).
Proof.
  split.
  - apply (kernel_thread_name_is_truncated "periodic-operations" 2 10 never
             [Start] 0%nat); vm_compute; lia.
  - apply (kernel_thread_name_is_truncated "periodic-operations" 2 10 never
             [Start] 1%nat); vm_compute; lia.
Defined.

(** * Style checks on the schema *)

Section SchemaStyle.

Import Stdlib.Strings.Ascii.
Import builtins schemaValidationTest.

Local Arguments Ascii.eqb : simpl never.
Local Arguments String.eqb : simpl never.

Lemma report_app (bad : string -> bool) (i : Z) (lines found : list string) :
  report bad i lines found = found ++ report bad i lines [].
Proof.
  revert i found. induction lines as [|line lines IH]; intros i found; simpl.
  - by rewrite app_nil_r.
  - rewrite IH. rewrite (IH _ (if bad line then _ else _)).
    destruct (bad line); [by rewrite <- app_assoc|done].
Qed.

Lemma report_nil (bad : string -> bool) (i : Z) (lines : list string) :
  report bad i lines [] = [] <-> Forall (fun line => bad line = false) lines.
Proof.
  revert i. induction lines as [|line lines IH]; intros i; simpl.
  - split; [by constructor|done].
  - rewrite report_app, Forall_cons. destruct (bad line) eqn:Hb.
    + split; [done|by intros [? _]].
    + rewrite app_nil_l, IH. split; [done|by intros [_ ?]].
Qed.

Lemma report_entry (bad : string -> bool) (i : Z) (lines : list string)
    (k : nat) (line : string) :
  lines !! k = Some line -> bad line = true ->
  "line [" +:+ pretty (i + Z.of_nat k + 1) +:+ "] " +:+ line
    ∈ report bad i lines [].
Proof.
  revert i k. induction lines as [|l lines IH]; intros i [|k] Hk Hb; try done.
  - injection Hk as ->. simpl. rewrite Hb, report_app.
    apply elem_of_app. left. rewrite Z.add_0_r. by apply list_elem_of_singleton.
  - simpl in *. rewrite report_app. apply elem_of_app. right.
    replace (i + Z.of_nat (S k) + 1) with ((i + 1) + Z.of_nat k + 1) by lia.
    by apply IH.
Qed.

Lemma for_paths_returns (paths : list string) (body : string -> Result unit) :
  for_paths paths body = Return tt <->
  Forall (fun fname => body fname = Return tt) paths.
Proof.
  induction paths as [|p paths IH]; simpl.
  - split; [by constructor|done].
  - rewrite Forall_cons, <- IH. unfold mbind, Result_bind.
    destruct (body p) as [[]|e]; [tauto|]. split; [done|by intros [? _]].
Qed.

(** What the body of either test does with one file. *)
Lemma check_returns (bad : string -> bool) (title : string) (lines : list string) :
  (if 0 <? Z.of_nat (length (report bad 0 lines []))
   then Failure (AssertionError
                   (title +:+ String "010" "" +:+
                    String.concat (String "010" "") (report bad 0 lines [])))
   else Return tt) = Return tt <->
  Forall (fun line => bad line = false) lines.
Proof.
  rewrite <- (report_nil bad 0).
  destruct (report bad 0 lines []) as [|x xs]; [done|].
  cbn [length]. destruct (Z.ltb_spec 0 (Z.of_nat (S (length xs)))); [done|lia].
Qed.

Lemma file_returns (fs : FileSystem) (fname : string) (k : string -> Result unit)
    (P : string -> Prop) :
  (forall content, k content = Return tt <-> P content) ->
  (open fs fname ≫= k) = Return tt <->
  exists content, fs fname = Some (File content) /\ P content.
Proof.
  intros Hk. unfold open, mbind, Result_bind.
  destruct (fs fname) as [[content|]|].
  - rewrite Hk. split; [by exists content|]. by intros (c & [= <-] & H).
  - split; [done|]. by intros (c & H & _).
  - split; [done|]. by intros (c & H & _).
Qed.

(** X25. [test_line_length] passes exactly when both schema files can be
    read and no line of them has more than 80 characters, the line feed at
    its end counted: a line of 80 characters followed by a line feed fails
    the test. *)
Theorem line_length_test_passes_iff (fs : FileSystem) (dirName : string) :
  test_line_length fs dirName = Return tt <->
  Forall (fun fname =>
            exists content,
              fs fname = Some (File content) /\
              Forall (fun line => (String.length line <= 80)%nat)
                (readlines content))
    (_get_paths dirName).
Proof.
  unfold test_line_length. rewrite for_paths_returns.
  apply Forall_proper; [|done]. intros fname.
  apply file_returns. intros content. cbv zeta.
  rewrite check_returns. apply Forall_proper; [|done]. intros line.
  rewrite Z.ltb_ge. lia.
Qed.

(** X26. [test_tabs_in_line] passes exactly when both schema files can be
    read and no line of them holds a tab. *)
Theorem tabs_test_passes_iff (fs : FileSystem) (dirName : string) :
  test_tabs_in_line fs dirName = Return tt <->
  Forall (fun fname =>
            exists content,
              fs fname = Some (File content) /\
              Forall (fun line => contains "009" line = false)
                (readlines content))
    (_get_paths dirName).
Proof.
  unfold test_tabs_in_line. rewrite for_paths_returns.
  apply Forall_proper; [|done]. intros fname.
  apply file_returns. intros content. cbv zeta.
  by rewrite check_returns.
Qed.

(** X27. A line of the first schema file that is too long makes
    [test_line_length] raise [AssertionError]; the message holds the line
    under its number, counted from 1, and the second file is not looked
    at. *)
Theorem long_line_is_reported (fs : FileSystem) (dirName content line : string)
    (k : nat) :
  fs (join dirName [".."; "lib"; "api"; "vdsm-api.yml"]) = Some (File content) ->
  readlines content !! k = Some line ->
  (80 < String.length line)%nat ->
  exists longer,
    test_line_length fs dirName =
      Failure (AssertionError
                 ("Lines longer than 80" +:+ String "010" "" +:+
                  String.concat (String "010" "") longer)) /\
    "line [" +:+ pretty (Z.of_nat k + 1) +:+ "] " +:+ line ∈ longer.
Proof.
  intros Hfile Hk Hlen.
  set (bad := fun line => 80 <? Z.of_nat (String.length line)).
  exists (report bad 0 (readlines content) []).
  assert (Hin : "line [" +:+ pretty (Z.of_nat k + 1) +:+ "] " +:+ line
                  ∈ report bad 0 (readlines content) []).
  { apply (report_entry bad 0 _ k line Hk). unfold bad. apply Z.ltb_lt. lia. }
  split; [|done].
  unfold test_line_length, _get_paths. cbn [fmap list_fmap for_paths].
  unfold open. rewrite Hfile. unfold mbind, Result_bind. cbv beta zeta.
  fold bad. destruct (report bad 0 (readlines content) []) as [|x xs].
  - by apply elem_of_nil in Hin.
  - cbn [length]. by destruct (Z.ltb_spec 0 (Z.of_nat (S (length xs)))); [|lia].
Qed.

Lemma long_line_is_reported_witness :
  exists longer,
    test_line_length
      (schemas "/usr/share/vdsm/tests"
         (Some ("Host:" +:+ String "010" "" +:+ times "x" 80 +:+ String "010" ""))
         None)
      "/usr/share/vdsm/tests" =
      Failure (AssertionError
                 ("Lines longer than 80" +:+ String "010" "" +:+
                  String.concat (String "010" "") longer)) /\
    "line [2] " +:+ times "x" 80 +:+ String "010" "" ∈ longer.
Proof.
  apply (long_line_is_reported _ "/usr/share/vdsm/tests"
           ("Host:" +:+ String "010" "" +:+ times "x" 80 +:+ String "010" "")
           (times "x" 80 +:+ String "010" "") 1).
  - reflexivity.
  - reflexivity.
  - vm_compute. lia.
Defined.

End SchemaStyle.
